(** * Trivia game: the session and scoring engine

    A shallow embedding of the PostgreSQL schema, stored routines and
    trigger of [init_postgresql_database.py], of the transaction
    wrapper [execute_pg_procedure] of [postgresql_queries.py], and of
    the calls [game_logic.py] makes through it.

    - Tables are lists of rows in scan order.  A PL/pgSQL
      [SELECT ... INTO v] keeps the first row the scan yields and
      leaves [v] NULL when there is none; [ORDER BY k DESC LIMIT 1]
      keeps the first row no other row beats.  Which row is first
      matters only where several rows match.
    - NULL is [None]; a [WHERE] clause keeps a row only when its
      condition is true, which a comparison with NULL is not.
    - Timestamps and intervals are integers (microseconds); the value
      of [clock_timestamp()] and the order produced by [ORDER BY
      RANDOM()] are arguments of the call that uses them.
    - A routine body is a function from the database to a result and
      a database; [execute_pg_procedure] adds commit and rollback. *)

From Stdlib Require Import ZArith Bool Ascii String List Lia Permutation Sorted.
Import ListNotations.
Local Open Scope Z_scope.

(** ** Schema (create_tables) *)

Module Question.
Record row : Type := mk {
  question_id : Z;            (* SERIAL PRIMARY KEY *)
  correct_answer : ascii      (* CHAR(1) CHECK (IN ('a','b','c','d')) NOT NULL *)
}.
End Question.

Module Player.
Record row : Type := mk {
  player_id : Z;              (* SERIAL PRIMARY KEY *)
  username : string;          (* UNIQUE NOT NULL *)
  password : string;
  email : string;
  age : Z
}.
End Player.

Module GameSession.
Record row : Type := mk {
  session_id : Z;             (* SERIAL PRIMARY KEY *)
  player_id : option Z;       (* REFERENCES players, nullable *)
  start_time : Z;             (* DEFAULT clock_timestamp(); only ever written by the default *)
  end_time : option Z;        (* NULL until the session is completed *)
  questions_solved : Z;       (* DEFAULT 0 *)
  is_completed : bool;        (* DEFAULT FALSE *)
  is_active : bool            (* DEFAULT TRUE *)
}.
End GameSession.

Module PlayerAnswer.
Record row : Type := mk {
  player_id : Z;              (* the three key columns are NOT NULL: PRIMARY KEY *)
  question_id : Z;
  session_id : Z;
  selected_answer : ascii;    (* CHECK (IN ('a','b','c','d')) NOT NULL *)
  is_correct : bool;          (* NOT NULL *)
  answered_at : Z             (* DEFAULT clock_timestamp(); only ever written by the default *)
}.
End PlayerAnswer.

Module HighScore.
Record row : Type := mk {
  score_id : Z;               (* PRIMARY KEY CHECK (1 <= score_id <= 20) *)
  player_id : option Z;       (* REFERENCES players, nullable *)
  total_time : Z;             (* INTERVAL NOT NULL *)
  achieved_at : Z             (* NOT NULL *)
}.
End HighScore.

(** The database: the five tables and the sequence behind
    [game_sessions.session_id] (its next value). *)
Record database : Type := mk_database {
  questions : list Question.row;
  players : list Player.row;
  game_sessions : list GameSession.row;
  player_answers : list PlayerAnswer.row;
  high_scores : list HighScore.row;
  session_id_seq : Z
}.

Definition set_game_sessions (l : list GameSession.row) (db : database) : database :=
  mk_database (questions db) (players db) l (player_answers db) (high_scores db)
              (session_id_seq db).

Definition set_player_answers (l : list PlayerAnswer.row) (db : database) : database :=
  mk_database (questions db) (players db) (game_sessions db) l (high_scores db)
              (session_id_seq db).

Definition set_high_scores (l : list HighScore.row) (db : database) : database :=
  mk_database (questions db) (players db) (game_sessions db) (player_answers db) l
              (session_id_seq db).

Definition set_session_id_seq (n : Z) (db : database) : database :=
  mk_database (questions db) (players db) (game_sessions db) (player_answers db)
              (high_scores db) n.

(** ** Errors and the statement monad *)

Inductive pg_error : Type :=
| not_null_violation
| check_violation
| unique_violation
| invalid_row_count_in_limit_clause.

(** A routine body runs statement after statement on the working state.
    A failing statement changes nothing itself, but what the earlier
    statements did is still there: undoing it is the caller's
    [rollback()]. *)
Definition M (A : Type) : Type := database -> (pg_error + A) * database.

Definition ret {A : Type} (a : A) : M A := fun db => (inr a, db).

Definition raise {A : Type} (e : pg_error) : M A := fun db => (inl e, db).

Definition bind {A B : Type} (m : M A) (k : A -> M B) : M B :=
  fun db =>
    match m db with
    | (inl e, db') => (inl e, db')
    | (inr a, db') => k a db'
    end.

Definition get : M database := fun db => (inr db, db).

Definition put (db' : database) : M unit := fun _ => (inr tt, db').

Declare Scope pg_scope.
Delimit Scope pg_scope with pg.
Notation "x <- c1 ;; c2" := (bind c1 (fun x => c2))
  (at level 61, c1 at next level, right associativity) : pg_scope.
Notation "c1 ;;; c2" := (bind c1 (fun _ => c2))
  (at level 61, right associativity) : pg_scope.

(** ** SQL expressions *)

(** [a = b] in a WHERE clause: true only for two equal non-NULL values. *)
Definition sql_eq (a b : option Z) : bool :=
  match a, b with
  | Some x, Some y => x =? y
  | _, _ => false
  end.

(** [a > b] in a WHERE clause. *)
Definition sql_gt (a b : option Z) : bool :=
  match a, b with
  | Some x, Some y => y <? x
  | _, _ => false
  end.

(** [a - b], NULL when an operand is. *)
Definition sql_minus (a b : option Z) : option Z :=
  match a, b with
  | Some x, Some y => Some (x - y)
  | _, _ => None
  end.

(** [CHECK (c IN ('a', 'b', 'c', 'd'))] *)
Definition is_abcd (c : ascii) : bool :=
  (Ascii.eqb c "a" || Ascii.eqb c "b" || Ascii.eqb c "c" || Ascii.eqb c "d")%char.

(** [COUNT( * )] *)
Definition count {A : Type} (l : list A) : Z := Z.of_nat (length l).

(** [UPDATE t SET ... WHERE cond] *)
Definition update_where {A : Type} (cond : A -> bool) (f : A -> A) (l : list A) : list A :=
  map (fun r => if cond r then f r else r) l.

(** [DELETE FROM t WHERE cond] *)
Definition delete_where {A : Type} (cond : A -> bool) (l : list A) : list A :=
  filter (fun r => negb (cond r)) l.

(** [max(x)] over the selected rows, NULL when there are none. *)
Fixpoint sql_max (l : list Z) : option Z :=
  match l with
  | [] => None
  | x :: l' => match sql_max l' with
               | None => Some x
               | Some m => Some (Z.max x m)
               end
  end.

(** [min(x)], likewise. *)
Fixpoint sql_min (l : list Z) : option Z :=
  match l with
  | [] => None
  | x :: l' => match sql_min l' with
               | None => Some x
               | Some m => Some (Z.min x m)
               end
  end.

(** [LIMIT n]: a negative row count is an error. *)
Definition limit {A : Type} (n : Z) (l : list A) : M (list A) :=
  if n <? 0 then raise invalid_row_count_in_limit_clause
  else ret (firstn (Z.to_nat n) l).

(** ** Queries shared by the routines *)

(** [SELECT p.player_id INTO v_player_id FROM players p
     WHERE p.username = p_username] *)
Definition select_player_id (db : database) (p_username : string) : option Z :=
  option_map Player.player_id
    (find (fun p => String.eqb (Player.username p) p_username) (players db)).

(** [gs.player_id = v_player_id AND gs.is_completed = FALSE AND is_active = TRUE] *)
Definition is_open_session_of (v_player_id : option Z) (gs : GameSession.row) : bool :=
  sql_eq (GameSession.player_id gs) v_player_id
  && negb (GameSession.is_completed gs)
  && GameSession.is_active gs.

(** [SELECT gs.session_id INTO v_session_id FROM game_sessions gs WHERE ...] *)
Definition select_active_session (db : database) (v_player_id : option Z) : option Z :=
  option_map GameSession.session_id
    (find (is_open_session_of v_player_id) (game_sessions db)).

(** [pa.player_id = v_player_id AND pa.session_id = v_session_id] *)
Definition answer_of (v_player_id v_session_id : option Z) (pa : PlayerAnswer.row) : bool :=
  sql_eq (Some (PlayerAnswer.player_id pa)) v_player_id
  && sql_eq (Some (PlayerAnswer.session_id pa)) v_session_id.

(** [pa.session_id = v_session_id] *)
Definition answer_in_session (v_session_id : option Z) (pa : PlayerAnswer.row) : bool :=
  sql_eq (Some (PlayerAnswer.session_id pa)) v_session_id.

(** [session_id = v_session_id] on game_sessions *)
Definition has_session_id (v_session_id : option Z) (gs : GameSession.row) : bool :=
  sql_eq (Some (GameSession.session_id gs)) v_session_id.

(** [SELECT q.correct_answer INTO correct FROM questions q
     WHERE q.question_id = p_question_id] *)
Definition select_correct_answer (db : database) (p_question_id : Z) : option ascii :=
  option_map Question.correct_answer
    (find (fun q => Question.question_id q =? p_question_id) (questions db)).

(** ** SET clauses *)

(** [SET questions_solved = n] *)
Definition set_questions_solved (n : Z) (gs : GameSession.row) : GameSession.row :=
  GameSession.mk (GameSession.session_id gs) (GameSession.player_id gs)
    (GameSession.start_time gs) (GameSession.end_time gs) n
    (GameSession.is_completed gs) (GameSession.is_active gs).

(** [SET is_completed = TRUE, is_active = FALSE, end_time = v_end_time] *)
Definition set_completed (v_end_time : option Z) (gs : GameSession.row) : GameSession.row :=
  GameSession.mk (GameSession.session_id gs) (GameSession.player_id gs)
    (GameSession.start_time gs) v_end_time (GameSession.questions_solved gs) true false.

(** [SET is_active = FALSE] *)
Definition set_inactive (gs : GameSession.row) : GameSession.row :=
  GameSession.mk (GameSession.session_id gs) (GameSession.player_id gs)
    (GameSession.start_time gs) (GameSession.end_time gs)
    (GameSession.questions_solved gs) (GameSession.is_completed gs) false.

(** [SET player_id = v_player_id, total_time = t, achieved_at = e] *)
Definition set_holder (v_player_id : option Z) (t e : Z) (r : HighScore.row) : HighScore.row :=
  HighScore.mk (HighScore.score_id r) v_player_id t e.

(** ** Row insertion, with the constraints the schema declares

    Foreign keys are not modelled: every id a routine writes was read
    from the referenced table a statement earlier, or is NULL, and a
    question id that [questions] lacks already fails on [is_correct],
    which is then NULL. *)

(** [INSERT INTO game_sessions (player_id) VALUES (v_player_id)
     RETURNING session_id]: the id comes from the sequence, the other
    columns from their defaults. *)
Definition insert_game_session (v_player_id : option Z) (now : Z) : M Z :=
  fun db =>
    let id := session_id_seq db in
    let db1 := set_session_id_seq (id + 1) db in
    if existsb (fun gs => GameSession.session_id gs =? id) (game_sessions db1)
    then (inl unique_violation, db1)
    else (inr id,
          set_game_sessions
            (game_sessions db1 ++ [GameSession.mk id v_player_id now None 0 false true])
            db1).

(** The trigger function of [trg_update_game_sessions]. *)
Definition fn_update_game_sessions (NEW : PlayerAnswer.row) : M unit :=
  fun db =>
    let v := Some (PlayerAnswer.session_id NEW) in
    (inr tt,
     set_game_sessions
       (update_where (has_session_id v)
          (set_questions_solved (count (filter (answer_in_session v) (player_answers db))))
          (game_sessions db))
       db).

(** [(player_id, question_id, session_id)] is the primary key. *)
Definition same_answer_key (p q s : Z) (pa : PlayerAnswer.row) : bool :=
  (PlayerAnswer.player_id pa =? p) && (PlayerAnswer.question_id pa =? q)
  && (PlayerAnswer.session_id pa =? s).

(** [INSERT INTO player_answers (player_id, question_id, session_id,
     selected_answer, is_correct) VALUES (...)]: NOT NULL, then CHECK,
    then the primary key; the row trigger fires after the insert. *)
Definition insert_player_answer (player_id question_id session_id : option Z)
    (selected_answer : ascii) (is_correct : option bool) (now : Z) : M unit :=
  match player_id, question_id, session_id, is_correct with
  | Some p, Some q, Some s, Some c =>
      fun db =>
        if negb (is_abcd selected_answer) then (inl check_violation, db)
        else if existsb (same_answer_key p q s) (player_answers db)
        then (inl unique_violation, db)
        else
          let NEW := PlayerAnswer.mk p q s selected_answer c now in
          fn_update_game_sessions NEW
            (set_player_answers (player_answers db ++ [NEW]) db)
  | _, _, _, _ => raise not_null_violation
  end.

(** [INSERT INTO high_scores (score_id, player_id, total_time, achieved_at)
     VALUES (...)] *)
Definition insert_high_score (score_id : Z) (player_id total_time achieved_at : option Z)
  : M unit :=
  match total_time, achieved_at with
  | Some t, Some e =>
      fun db =>
        if negb ((1 <=? score_id) && (score_id <=? 20)) then (inl check_violation, db)
        else if existsb (fun r => HighScore.score_id r =? score_id) (high_scores db)
        then (inl unique_violation, db)
        else (inr tt,
              set_high_scores (high_scores db ++ [HighScore.mk score_id player_id t e]) db)
  | _, _ => raise not_null_violation
  end.

(** ** The stored routines (create_stored_procedures_and_functions) *)

Local Open Scope pg_scope.

(** The first half of [fn_get_unanswered_questions]: the player's open
    session, created when the lookup finds none. *)
Definition get_or_create_session (v_player_id : option Z) (now : Z) : M Z :=
  db <- get ;;
  match select_active_session db v_player_id with
  | Some s => ret s
  | None => insert_game_session v_player_id now
  end.

(** [q.question_id NOT IN (SELECT pa.question_id FROM player_answers pa
     WHERE pa.player_id = v_player_id AND pa.session_id = v_session_id)] *)
Definition not_answered (db : database) (v_player_id v_session_id : option Z)
    (q : Question.row) : bool :=
  negb (existsb (fun id => id =? Question.question_id q)
          (map PlayerAnswer.question_id
             (filter (answer_of v_player_id v_session_id) (player_answers db)))).

(** [random_order] is the order [ORDER BY RANDOM()] produced on this call. *)
Definition fn_get_unanswered_questions (p_username : string) (now : Z)
    (random_order : list Question.row -> list Question.row) : M (list (Z * ascii)) :=
  db <- get ;;
  let v_player_id := select_player_id db p_username in
  s <- get_or_create_session v_player_id now ;;
  let v_session_id := Some s in
  db <- get ;;
  let questions_answered_count :=
    count (filter (answer_of v_player_id v_session_id) (player_answers db)) in
  rows <- limit (20 - questions_answered_count)
            (random_order (filter (not_answered db v_player_id v_session_id) (questions db))) ;;
  ret (map (fun q => (Question.question_id q, Question.correct_answer q)) rows).

Definition sp_record_player_answers (p_username : string) (p_question_id : Z)
    (p_selected_answer : ascii) (now : Z) : M unit :=
  db <- get ;;
  let v_player_id := select_player_id db p_username in
  let v_session_id := select_active_session db v_player_id in
  let correct := select_correct_answer db p_question_id in
  insert_player_answer v_player_id (Some p_question_id) v_session_id p_selected_answer
    (option_map (Ascii.eqb p_selected_answer) correct) now.

Definition sp_completing_session (p_username : string) : M unit :=
  db <- get ;;
  let v_player_id := select_player_id db p_username in
  let v_session_id := select_active_session db v_player_id in
  let v_end_time :=
    sql_max (map PlayerAnswer.answered_at
               (filter (answer_in_session v_session_id) (player_answers db))) in
  put (set_game_sessions
         (update_where (has_session_id v_session_id)
            (set_completed v_end_time)
            (game_sessions db))
         db).

Definition sp_reset_player_answers (p_username : string) : M unit :=
  db <- get ;;
  let v_player_id := select_player_id db p_username in
  let v_session_id := select_active_session db v_player_id in
  put (set_player_answers
         (delete_where (answer_of v_player_id v_session_id) (player_answers db)) db) ;;;
  db <- get ;;
  put (set_game_sessions
         (update_where (has_session_id v_session_id)
            set_inactive
            (game_sessions db))
         db).

(** [ORDER BY key DESC LIMIT 1]: the first row, in scan order, that no
    other row beats. *)
Fixpoint first_greatest {A : Type} (ltb : A -> A -> bool) (l : list A) : option A :=
  match l with
  | [] => None
  | x :: l' => match first_greatest ltb l' with
               | Some y => if ltb x y then Some y else Some x
               | None => Some x
               end
  end.

(** [gs.player_id = v_player_id AND gs.is_completed = TRUE] *)
Definition is_completed_session_of (v_player_id : option Z) (gs : GameSession.row) : bool :=
  sql_eq (GameSession.player_id gs) v_player_id && GameSession.is_completed gs.

(** [ORDER BY end_time DESC]: NULLs sort first. *)
Definition end_time_ltb (x y : GameSession.row) : bool :=
  match GameSession.end_time x, GameSession.end_time y with
  | Some a, Some b => a <? b
  | Some _, None => true
  | None, _ => false
  end.

Definition fn_get_correct_answer_count (p_username : string) : M Z :=
  db <- get ;;
  let v_player_id := select_player_id db p_username in
  let v_session_id :=
    option_map GameSession.session_id
      (first_greatest end_time_ltb
         (filter (is_completed_session_of v_player_id) (game_sessions db))) in
  ret (count (filter (fun pa => answer_of v_player_id v_session_id pa
                               && PlayerAnswer.is_correct pa)
                (player_answers db))).

(** [score_id = correct_answers AND total_time > v_total_time] *)
Definition is_slower_slot (score : Z) (v_total_time : option Z) (r : HighScore.row) : bool :=
  (HighScore.score_id r =? score) && sql_gt (Some (HighScore.total_time r)) v_total_time.

(** [UPDATE high_scores SET player_id = v_player_id, total_time = v_total_time,
     achieved_at = v_end_time WHERE score_id = correct_answers
     AND total_time > v_total_time] *)
Definition update_high_score (score : Z) (v_player_id v_total_time v_end_time : option Z)
  : M unit :=
  fun db =>
    if existsb (is_slower_slot score v_total_time) (high_scores db) then
      match v_total_time, v_end_time with
      | Some t, Some e =>
          (inr tt,
           set_high_scores
             (update_where (is_slower_slot score v_total_time)
                (set_holder v_player_id t e)
                (high_scores db))
             db)
      | _, _ => (inl not_null_violation, db)
      end
    else (inr tt, db).

(** The inner block of [sp_update_high_scores]:
    [IF EXISTS (SELECT 1 FROM high_scores WHERE score_id = correct_answers)
     THEN UPDATE ... ELSE INSERT ... END IF]. *)
Definition update_or_insert_high_score (correct_answers : Z)
    (v_player_id v_total_time v_end_time : option Z) : M unit :=
  db <- get ;;
  if existsb (fun r => HighScore.score_id r =? correct_answers) (high_scores db)
  then update_high_score correct_answers v_player_id v_total_time v_end_time
  else insert_high_score correct_answers v_player_id v_total_time v_end_time.

Definition start_time_ltb (x y : GameSession.row) : bool :=
  GameSession.start_time x <? GameSession.start_time y.

Definition sp_update_high_scores (p_username : string) : M unit :=
  db <- get ;;
  let v_player_id := select_player_id db p_username in
  let selected :=
    first_greatest start_time_ltb
      (filter (is_completed_session_of v_player_id) (game_sessions db)) in
  let v_session_id := option_map GameSession.session_id selected in
  let v_end_time :=
    match selected with Some gs => GameSession.end_time gs | None => None end in
  let correct_answers :=
    count (filter (fun pa => answer_of v_player_id v_session_id pa
                             && PlayerAnswer.is_correct pa)
             (player_answers db)) in
  let v_total_time :=
    match find (has_session_id v_session_id) (game_sessions db) with
    | Some gs => sql_minus (GameSession.end_time gs) (Some (GameSession.start_time gs))
    | None => None
    end in
  if (0 <? correct_answers)
     && (count (filter (answer_of v_player_id v_session_id) (player_answers db)) =? 20)
  then update_or_insert_high_score correct_answers v_player_id v_total_time v_end_time
  else ret tt.

(** [SELECT question_id, COUNT(player_id) FROM player_answers
     WHERE is_correct = TRUE GROUP BY question_id]: one row per question
    id that occurs among the correct answers. *)
Definition correct_counts (db : database) : list (Z * Z) :=
  let correct := filter PlayerAnswer.is_correct (player_answers db) in
  map (fun q => (q, count (filter (fun pa => PlayerAnswer.question_id pa =? q) correct)))
    (nodup Z.eq_dec (map PlayerAnswer.question_id correct)).

(** [... HAVING COUNT(ps.player_id) = (SELECT MIN(m.correct_count) FROM (...) m)] *)
Definition fn_get_least_correctly_answered_question (db : database) : list (Z * Z) :=
  let groups := correct_counts db in
  filter (fun g => sql_eq (Some (snd g)) (sql_min (map snd groups))) groups.

(** [... HAVING COUNT(ps.player_id) = (SELECT MAX(m.correct_count) FROM (...) m)] *)
Definition fn_get_most_correctly_answered_question (db : database) : list (Z * Z) :=
  let groups := correct_counts db in
  filter (fun g => sql_eq (Some (snd g)) (sql_max (map snd groups))) groups.

Local Close Scope pg_scope.

(** ** The connection (postgresql_queries.py)

    psycopg2 opens a transaction at the first statement and keeps it
    open until [commit()] or [rollback()]: [committed] is the state at
    the last commit, [working] what this connection sees.  The sequence
    is not transactional: a rollback leaves it where it was. *)
Record connection : Type := mk_connection {
  committed : database;
  working : database
}.

Definition connect (db : database) : connection := mk_connection db db.

Definition rollback (c : connection) (failed : database) : connection :=
  let db := set_session_id_seq (session_id_seq failed) (committed c) in
  mk_connection db db.

Inductive py_exception : Type :=
| DatabaseError (e : pg_error)
| ValueError.

(** [execute_pg_procedure(db_connection, object_name, params)]; [body]
    is the routine the server runs under [object_name] with [params].
    A procedure is committed, a function or view is only fetched; a
    database error rolls back and is raised again. *)
Definition execute_pg_procedure {A : Type} (db_connection : connection)
    (object_name : string) (body : M A) : (py_exception + option A) * connection :=
  if String.prefix "sp_" object_name then
    match body (working db_connection) with
    | (inr _, db) => (inr None, mk_connection db db)
    | (inl e, db) => (inl (DatabaseError e), rollback db_connection db)
    end
  else if String.prefix "fn_" object_name || String.prefix "vw_" object_name then
    match body (working db_connection) with
    | (inr results, db) => (inr (Some results), mk_connection (committed db_connection) db)
    | (inl e, db) => (inl (DatabaseError e), rollback db_connection db)
    end
  else (inl ValueError, db_connection).

(** ** game_logic.py: the calls the game makes *)

(** One call of the engine through [execute_pg_procedure]; the clock
    reading and the random order of a call are part of it. *)
Inductive engine_op : Type :=
| check_unanswered (username : string) (now : Z)
    (random_order : list Question.row -> list Question.row)
| record_answer (username : string) (question_id : Z) (answer : ascii) (now : Z)
| completing_session (username : string)
| reset_game (username : string)
| get_correct_answer_count (username : string)
| update_high_scores (username : string).

Definition run_op (c : connection) (op : engine_op) : connection :=
  match op with
  | check_unanswered u now order =>
      snd (execute_pg_procedure c "fn_get_unanswered_questions"
             (fn_get_unanswered_questions u now order))
  | record_answer u q a now =>
      snd (execute_pg_procedure c "sp_record_player_answers"
             (sp_record_player_answers u q a now))
  | completing_session u =>
      snd (execute_pg_procedure c "sp_completing_session" (sp_completing_session u))
  | reset_game u =>
      snd (execute_pg_procedure c "sp_reset_player_answers" (sp_reset_player_answers u))
  | get_correct_answer_count u =>
      snd (execute_pg_procedure c "fn_get_correct_answer_count"
             (fn_get_correct_answer_count u))
  | update_high_scores u =>
      snd (execute_pg_procedure c "sp_update_high_scores" (sp_update_high_scores u))
  end.

Definition run_ops (ops : list engine_op) (c : connection) : connection :=
  fold_left run_op ops c.

(** [finalize_game(pg_connection, username, mongo_db)], as far as the
    PostgreSQL connection goes: complete the session, read the number
    of correct answers, and update the high scores when it is positive.
    An exception ends the function where it is raised.  (The listing
    of the high scores that follows only reads.) *)
Definition finalize_game (pg_connection : connection) (username : string) : connection :=
  match execute_pg_procedure pg_connection "sp_completing_session"
          (sp_completing_session username) with
  | (inl _, c1) => c1
  | (inr _, c1) =>
      match execute_pg_procedure c1 "fn_get_correct_answer_count"
              (fn_get_correct_answer_count username) with
      | (inr (Some correct_answers), c2) =>
          if 0 <? correct_answers
          then snd (execute_pg_procedure c2 "sp_update_high_scores"
                      (sp_update_high_scores username))
          else c2
      | (_, c2) => c2
      end
  end.

(** * Vocabulary of the statements *)

(** ** Rows of a session, of a key, of a score *)

(** The rows of [game_sessions] with a given id. *)
Definition session_rows (db : database) (s : Z) : list GameSession.row :=
  filter (fun gs => GameSession.session_id gs =? s) (game_sessions db).

(** The answer rows of a session. *)
Definition session_answers (db : database) (s : Z) : list PlayerAnswer.row :=
  filter (fun pa => PlayerAnswer.session_id pa =? s) (player_answers db).

(** The rows of [player_answers] under one primary key. *)
Definition answer_rows (db : database) (p q s : Z) : list PlayerAnswer.row :=
  filter (same_answer_key p q s) (player_answers db).

(** The sessions of player [p] with is_active = TRUE. *)
Definition active_sessions (db : database) (p : Z) : list GameSession.row :=
  filter (fun gs => sql_eq (GameSession.player_id gs) (Some p) && GameSession.is_active gs)
    (game_sessions db).

(** The rows of [high_scores] for one score. *)
Definition slot (db : database) (score : Z) : list HighScore.row :=
  filter (fun r => HighScore.score_id r =? score) (high_scores db).

(** The questions that no answer row of session [s] mentions. *)
Definition unanswered (db : database) (s : Z) : list Question.row :=
  filter (fun q =>
            forallb (fun pa => negb ((PlayerAnswer.session_id pa =? s)
                                     && (PlayerAnswer.question_id pa =? Question.question_id q)))
              (player_answers db))
    (questions db).

(** The number of correct answers ever recorded for a question. *)
Definition number_correct (db : database) (q : Z) : Z :=
  count (filter (fun pa => PlayerAnswer.is_correct pa && (PlayerAnswer.question_id pa =? q))
           (player_answers db)).

(** [t] is the latest [answered_at] among the answer rows of session
    [s], or NULL when the session has no answer row. *)
Definition latest_answer_time (db : database) (s : Z) (t : option Z) : Prop :=
  match t with
  | Some m =>
      (exists pa, In pa (player_answers db) /\ PlayerAnswer.session_id pa = s
                  /\ PlayerAnswer.answered_at pa = m)
      /\ (forall pa, In pa (player_answers db) -> PlayerAnswer.session_id pa = s ->
                     PlayerAnswer.answered_at pa <= m)
  | None => forall pa, In pa (player_answers db) -> PlayerAnswer.session_id pa <> s
  end.

(** ** What an operation leaves alone *)

Definition same_but_high_scores (db db' : database) : Prop :=
  questions db' = questions db /\ players db' = players db
  /\ game_sessions db' = game_sessions db /\ player_answers db' = player_answers db
  /\ session_id_seq db' = session_id_seq db.

Definition same_but_game_sessions (db db' : database) : Prop :=
  questions db' = questions db /\ players db' = players db
  /\ player_answers db' = player_answers db /\ high_scores db' = high_scores db
  /\ session_id_seq db' = session_id_seq db.

Definition same_but_sessions_and_answers (db db' : database) : Prop :=
  questions db' = questions db /\ players db' = players db
  /\ high_scores db' = high_scores db /\ session_id_seq db' = session_id_seq db.

(** Two session rows that agree on the columns a completion keeps,
    and on those a deactivation keeps. *)
Definition same_but_completion (gs gs' : GameSession.row) : Prop :=
  GameSession.session_id gs' = GameSession.session_id gs
  /\ GameSession.player_id gs' = GameSession.player_id gs
  /\ GameSession.start_time gs' = GameSession.start_time gs
  /\ GameSession.questions_solved gs' = GameSession.questions_solved gs.

Definition same_but_is_active (gs gs' : GameSession.row) : Prop :=
  GameSession.session_id gs' = GameSession.session_id gs
  /\ GameSession.player_id gs' = GameSession.player_id gs
  /\ GameSession.start_time gs' = GameSession.start_time gs
  /\ GameSession.end_time gs' = GameSession.end_time gs
  /\ GameSession.questions_solved gs' = GameSession.questions_solved gs
  /\ GameSession.is_completed gs' = GameSession.is_completed gs.

(** ** Leaderboard submissions *)

Record submission : Type := mk_submission {
  sub_player : Z;
  sub_time : Z;
  sub_achieved_at : Z
}.

Definition submit (score : Z) (s : submission) : M unit :=
  update_or_insert_high_score score
    (Some (sub_player s)) (Some (sub_time s)) (Some (sub_achieved_at s)).

Fixpoint submit_all (score : Z) (subs : list submission) : M unit :=
  match subs with
  | [] => ret tt
  | s :: rest => bind (submit score s) (fun _ => submit_all score rest)
  end.

Definition slot_of (score : Z) (s : submission) : HighScore.row :=
  HighScore.mk score (Some (sub_player s)) (sub_time s) (sub_achieved_at s).

(** [best] is the first of the fastest submissions of [subs]. *)
Definition first_fastest (best : submission) (subs : list submission) : Prop :=
  exists before after,
    subs = before ++ best :: after
    /\ (forall s, In s before -> sub_time best < sub_time s)
    /\ (forall s, In s after -> sub_time best <= sub_time s).

(** What [sp_update_high_scores] reads: the completed session it
    selects, that session's answer rows, how many of them are correct,
    and the session's duration. *)
Definition scored_session (db : database) (u : string) : option GameSession.row :=
  first_greatest start_time_ltb
    (filter (is_completed_session_of (select_player_id db u)) (game_sessions db)).

Definition scored_answers (db : database) (u : string) : list PlayerAnswer.row :=
  filter (answer_of (select_player_id db u)
            (option_map GameSession.session_id (scored_session db u)))
    (player_answers db).

Definition scored_correct (db : database) (u : string) : Z :=
  count (filter (fun pa => answer_of (select_player_id db u)
                             (option_map GameSession.session_id (scored_session db u)) pa
                           && PlayerAnswer.is_correct pa)
           (player_answers db)).

Definition scored_total_time (db : database) (u : string) : option Z :=
  match find (has_session_id (option_map GameSession.session_id (scored_session db u)))
          (game_sessions db) with
  | Some gs => sql_minus (GameSession.end_time gs) (Some (GameSession.start_time gs))
  | None => None
  end.

(** ** Recorded answers *)

(** The state a successful [sp_record_player_answers] leaves: the new
    row appended, and the trigger's recount written to the session. *)
Definition recorded (db : database) (NEW : PlayerAnswer.row) : database :=
  set_game_sessions
    (update_where (has_session_id (Some (PlayerAnswer.session_id NEW)))
       (set_questions_solved
          (count (filter (answer_in_session (Some (PlayerAnswer.session_id NEW)))
                    (player_answers db ++ [NEW]))))
       (game_sessions db))
    (set_player_answers (player_answers db ++ [NEW]) db).

(** A run of [sp_record_player_answers] calls for one player: question
    id, selected letter and clock reading of each call. *)
Fixpoint record_all (u : string) (calls : list (Z * ascii * Z)) : M unit :=
  match calls with
  | [] => ret tt
  | (q, a, now) :: rest =>
      bind (sp_record_player_answers u q a now) (fun _ => record_all u rest)
  end.

(** questions_solved of session [s] is the number of its answer rows. *)
Definition solved_is_live_count (db : database) (s : Z) : Prop :=
  forall gs, In gs (game_sessions db) -> GameSession.session_id gs = s ->
    GameSession.questions_solved gs = count (session_answers db s).

(** The answer rows of a session are its player's. *)
Definition session_answers_owned (db : database) (p s : Z) : Prop :=
  forall pa, In pa (player_answers db) -> PlayerAnswer.session_id pa = s ->
    PlayerAnswer.player_id pa = p.

(** ** Reachable states and the invariant of the engine *)

(** A database in which no game has been played yet. *)
Definition fresh (db : database) : Prop :=
  game_sessions db = [] /\ player_answers db = [] /\ high_scores db = [].

Definition engine_reachable (c : connection) : Prop :=
  exists db0 ops, fresh db0 /\ c = run_ops ops (connect db0).

Record engine_invariant (db : database) : Prop := mk_engine_invariant {
  (* an active session is not completed *)
  inv_active_open :
    forall gs, In gs (game_sessions db) ->
      GameSession.is_active gs = true -> GameSession.is_completed gs = false;
  (* at most one active session per player *)
  inv_one_active : forall p, (length (active_sessions db p) <= 1)%nat;
  (* session ids come from the sequence and are distinct *)
  inv_session_ids :
    forall gs, In gs (game_sessions db) -> GameSession.session_id gs < session_id_seq db;
  inv_session_pk : NoDup (map GameSession.session_id (game_sessions db));
  (* an answer row belongs to a session of its player *)
  inv_answer_session :
    forall pa, In pa (player_answers db) ->
      exists gs, In gs (game_sessions db)
                 /\ GameSession.session_id gs = PlayerAnswer.session_id pa
                 /\ GameSession.player_id gs = Some (PlayerAnswer.player_id pa);
  (* unless it was reset, a session's questions_solved is its number of answer rows *)
  inv_solved :
    forall gs, In gs (game_sessions db) ->
      GameSession.is_active gs || GameSession.is_completed gs = true ->
      GameSession.questions_solved gs
      = count (session_answers db (GameSession.session_id gs))
}.

Definition connection_invariant (c : connection) : Prop :=
  engine_invariant (committed c) /\ engine_invariant (working c)
  /\ session_id_seq (committed c) <= session_id_seq (working c).

(** A routine body that keeps the invariant, whether it fails or not,
    and never moves the sequence back. *)
Definition keeps_invariant {A : Type} (body : M A) : Prop :=
  forall db, engine_invariant db ->
    engine_invariant (snd (body db))
    /\ session_id_seq db <= session_id_seq (snd (body db)).

(** What the SET clauses of the engine do to a session row: the id and
    the player stay, and a row is never made active. *)
Definition keeps_session (f : GameSession.row -> GameSession.row) : Prop :=
  forall gs,
    GameSession.session_id (f gs) = GameSession.session_id gs
    /\ GameSession.player_id (f gs) = GameSession.player_id gs
    /\ (GameSession.is_active (f gs) = true ->
        GameSession.is_active gs = true
        /\ GameSession.is_completed (f gs) = GameSession.is_completed gs).

(** ** Sample data *)

Definition empty_database : database := mk_database [] [] [] [] [] 1.

(** Two finishers with five correct answers: 00:03:10, then 00:02:50. *)
Definition player_A_5 : submission := mk_submission 1 190000000 1000.
Definition player_B_5 : submission := mk_submission 2 170000000 2000.

(** Twenty-two questions whose key is 'a', and two players. *)
Definition sample_questions : list Question.row :=
  map (fun n => Question.mk (Z.of_nat n) "a"%char) (seq 1 22).

Definition sample_players : list Player.row :=
  [Player.mk 1 "alice" "$2b$12$hash1" "alice@example.com" 25;
   Player.mk 2 "bob" "$2b$12$hash2" "bob@example.com" 31].

Definition sample_database : database :=
  mk_database sample_questions sample_players [] [] [] 1.

Definition same_order (l : list Question.row) : list Question.row := l.

(** A player opens a game at time [t0] and answers questions 1..k, one
    a second: 'a' (right) on the even ones, 'b' on the odd ones. *)
Definition game (u : string) (t0 : Z) (k : nat) : list engine_op :=
  check_unanswered u t0 same_order
  :: map (fun n => record_answer u (Z.of_nat n)
                     (if Nat.even n then "a"%char else "b"%char)
                     (t0 + 1000000 * Z.of_nat n))
       (seq 1 k).

Definition playing (k : nat) : connection :=
  run_ops (game "alice" 100 k) (connect sample_database).

Definition completed_game : connection :=
  run_ops (game "alice" 100 20 ++ [completing_session "alice"]) (connect sample_database).

(** Answers to three questions: question 1 is answered right three
    times, questions 2 and 3 once each, question 4 never. *)
Definition tied_answers : database :=
  mk_database sample_questions sample_players [] 
    [PlayerAnswer.mk 1 1 1 "a" true 10; PlayerAnswer.mk 1 2 1 "a" true 11;
     PlayerAnswer.mk 1 3 1 "a" true 12; PlayerAnswer.mk 1 4 1 "c" false 13;
     PlayerAnswer.mk 2 1 2 "a" true 20; PlayerAnswer.mk 2 2 2 "b" false 21;
     PlayerAnswer.mk 2 3 2 "d" false 22; PlayerAnswer.mk 3 1 3 "a" true 30]
    [] 4.

(** A game completed after two answers only. *)
Definition short_game : connection :=
  run_ops (game "alice" 100 2 ++ [completing_session "alice"]) (connect sample_database).

(** Three calls of [sp_record_player_answers]. *)
Definition three_calls : list (Z * ascii * Z) :=
  [(1, "a"%char, 1000); (2, "c"%char, 2000); (3, "a"%char, 3000)].

(** A whole quiz: the player opens a game at [t0], answers questions
    1..20 every [step], the first [right] of them with the key, and
    the game is finalized. *)
Definition quiz (u : string) (t0 step : Z) (right : nat) (c : connection) : connection :=
  finalize_game
    (run_ops
       (check_unanswered u t0 same_order
        :: map (fun n => record_answer u (Z.of_nat n)
                           (if Nat.leb n right then "a"%char else "d"%char)
                           (t0 + step * Z.of_nat n))
             (seq 1 20))
       c)
    u.

(** Alice's and then Bob's whole quiz, each followed by the scoring. *)
Definition two_quizzes_ops : list engine_op :=
  game "alice" 100 20 ++ [completing_session "alice"; update_high_scores "alice"]
  ++ game "bob" 50000000 20 ++ [completing_session "bob"; update_high_scores "bob"].

Definition two_quizzes : connection := run_ops two_quizzes_ops (connect sample_database).


(** Alice answers 21 questions in one session. *)
Definition overfull_ops : list engine_op := game "alice" 100 21.

Definition overfull : connection := run_ops overfull_ops (connect sample_database).

(** Alice opens a game and answers nothing yet. *)
Definition opened_ops : list engine_op := [check_unanswered "alice" 100 same_order].

Definition opened : connection := run_ops opened_ops (connect sample_database).

(** Alice's first game is completed before she answers anything; then
    she plays a full game, which is finalized. *)
Definition empty_game_ops : list engine_op :=
  [check_unanswered "alice" 50 same_order; completing_session "alice"].

Definition empty_game : connection := run_ops empty_game_ops (connect sample_database).

(** Alice answers two questions, resets the game, and answers a
    question in the game she starts next. *)
Definition reset_then_play_ops : list engine_op :=
  [check_unanswered "alice" 100 same_order;
   record_answer "alice" 1 "a" 101; record_answer "alice" 2 "b" 102;
   reset_game "alice";
   check_unanswered "alice" 200 same_order;
   record_answer "alice" 3 "a" 201].

Definition reset_then_play : connection :=
  run_ops reset_then_play_ops (connect sample_database).

(** A whole quiz at half a second a question, completed. *)
Definition quick_game (u : string) (t0 : Z) : list engine_op :=
  check_unanswered u t0 same_order
  :: map (fun n => record_answer u (Z.of_nat n)
                     (if Nat.even n then "a"%char else "b"%char)
                     (t0 + 500000 * Z.of_nat n))
       (seq 1 20)
  ++ [completing_session u].

(** The tables when alice has completed her quiz, and when bob has
    completed a quick one after her. *)
Definition alice_done : database := working completed_game.

Definition bob_done : database :=
  working (run_ops (quick_game "bob" 50000000) completed_game).
(** * The rest of the routines *)

(** ** ORDER BY

    [leb x y]: [x] may come before [y].  Rows that compare equal stay
    in scan order; nothing proved below depends on their order. *)
Fixpoint insert_by {A : Type} (leb : A -> A -> bool) (x : A) (l : list A) : list A :=
  match l with
  | [] => [x]
  | y :: l' => if leb x y then x :: y :: l' else y :: insert_by leb x l'
  end.

Definition order_by {A : Type} (leb : A -> A -> bool) (l : list A) : list A :=
  fold_right (insert_by leb) [] l.

(** [ORDER BY key DESC] and [ORDER BY key] on an integer key. *)
Definition desc {A : Type} (key : A -> Z) (x y : A) : bool := key y <=? key x.

Definition asc {A : Type} (key : A -> Z) (x y : A) : bool := key x <=? key y.

(** [SUM(x)] over the rows of a group. *)
Definition sql_sum (l : list Z) : Z := fold_right Z.add 0 l.

(** ** Statistics of the current game *)

(** [fn_get_answer_stats]: one row,
    [COUNT(CASE WHEN pa.is_correct THEN 1 END)] and
    [COUNT(CASE WHEN NOT pa.is_correct THEN 1 END)] over the answers of
    the player's open session. *)
Definition fn_get_answer_stats (p_username : string) : M (Z * Z) :=
  bind get (fun db =>
  let v_player_id := select_player_id db p_username in
  let v_session_id := select_active_session db v_player_id in
  let rows := filter (answer_of v_player_id v_session_id) (player_answers db) in
  ret (count (filter PlayerAnswer.is_correct rows),
       count (filter (fun pa => negb (PlayerAnswer.is_correct pa)) rows))).

(** ** The high scores listing *)

Module ScoreLine.
Record row : Type := mk {
  player_id : Z;
  username : string;
  email : string;
  score : Z;
  total_time : Z;
  achieved_at : Z
}.
End ScoreLine.

(** [FROM high_scores hs JOIN players p ON hs.player_id = p.player_id] *)
Definition high_scores_join_players (db : database) : list ScoreLine.row :=
  flat_map
    (fun hs =>
       map (fun p => ScoreLine.mk (Player.player_id p) (Player.username p) (Player.email p)
                       (HighScore.score_id hs) (HighScore.total_time hs)
                       (HighScore.achieved_at hs))
         (filter (fun p => sql_eq (HighScore.player_id hs) (Some (Player.player_id p)))
            (players db)))
    (high_scores db).

(** [fn_get_high_scores]: [... ORDER BY score DESC] *)
Definition fn_get_high_scores (db : database) : list ScoreLine.row :=
  order_by (desc ScoreLine.score) (high_scores_join_players db).

(** ** The statistics menu *)

(** [fn_get_player_answers_statistics(p_player_id)]:
    [SELECT pa.question_id, pa.is_correct FROM player_answers pa
     WHERE pa.player_id = p_player_id ORDER BY pa.answered_at] *)
Definition fn_get_player_answers_statistics (p_player_id : Z) (db : database)
  : list (Z * bool) :=
  map (fun pa => (PlayerAnswer.question_id pa, PlayerAnswer.is_correct pa))
    (order_by (asc PlayerAnswer.answered_at)
       (filter (fun pa => PlayerAnswer.player_id pa =? p_player_id) (player_answers db))).

Module QuestionStats.
Record row : Type := mk {
  question_id : Z;
  total_answered : Z;
  correct_answers : Z;
  incorrect_answers : Z
}.
End QuestionStats.

(** [fn_get_question_answers_statistics]:
    [SELECT pa.question_id, COUNT( * ),
            SUM(CASE WHEN pa.is_correct THEN 1 ELSE 0 END),
            SUM(CASE WHEN NOT pa.is_correct THEN 1 ELSE 0 END)
     FROM player_answers pa GROUP BY pa.question_id
     ORDER BY total_answered DESC] *)
Definition fn_get_question_answers_statistics (db : database) : list QuestionStats.row :=
  order_by (desc QuestionStats.total_answered)
    (map (fun q =>
            let rows := filter (fun pa => PlayerAnswer.question_id pa =? q)
                          (player_answers db) in
            QuestionStats.mk q (count rows)
              (sql_sum (map (fun pa => if PlayerAnswer.is_correct pa then 1 else 0) rows))
              (sql_sum (map (fun pa => if negb (PlayerAnswer.is_correct pa) then 1 else 0)
                          rows)))
       (nodup Z.eq_dec (map PlayerAnswer.question_id (player_answers db)))).

(** [fn_get_player_answered_vs_not_answered(p_player_id)]: one row,
    [COUNT(DISTINCT question_id)] of the player's answers and the
    number of questions minus it. *)
Definition fn_get_player_answered_vs_not_answered (p_player_id : Z) (db : database)
  : Z * Z :=
  let total_questions := count (questions db) in
  let answered_count :=
    count (nodup Z.eq_dec
             (map PlayerAnswer.question_id
                (filter (fun pa => PlayerAnswer.player_id pa =? p_player_id)
                   (player_answers db)))) in
  (answered_count, total_questions - answered_count).

(** [fn_get_player_correct_incorrect_answers(p_player_id)]: one row, the
    numbers of the player's answers with [is_correct = TRUE] and with
    [is_correct = FALSE]. *)
Definition fn_get_player_correct_incorrect_answers (p_player_id : Z) (db : database)
  : Z * Z :=
  (count (filter (fun pa => (PlayerAnswer.player_id pa =? p_player_id)
                            && PlayerAnswer.is_correct pa) (player_answers db)),
   count (filter (fun pa => (PlayerAnswer.player_id pa =? p_player_id)
                            && negb (PlayerAnswer.is_correct pa)) (player_answers db))).

(** ** Views (create_views) *)

(** [vw_total_players] *)
Definition vw_total_players (db : database) : Z := count (players db).

(** [FROM player_answers pa JOIN players p ON pa.player_id = p.player_id],
    restricted to the answers [keep] selects: the username of each
    joined row. *)
Definition answers_join_players (keep : PlayerAnswer.row -> bool) (db : database)
  : list string :=
  flat_map
    (fun pa => map Player.username
                 (filter (fun p => PlayerAnswer.player_id pa =? Player.player_id p)
                    (players db)))
    (filter keep (player_answers db)).

(** [SELECT p.username, COUNT(pa.player_id) ... GROUP BY p.username
     ORDER BY count DESC] over the joined rows. *)
Definition count_by_username (names : list string) : list (string * Z) :=
  order_by (desc snd)
    (map (fun u => (u, count (filter (String.eqb u) names)))
       (nodup string_dec names)).

(** [vw_players_by_correct_answers]: [... WHERE pa.is_correct = TRUE ...] *)
Definition vw_players_by_correct_answers (db : database) : list (string * Z) :=
  count_by_username (answers_join_players PlayerAnswer.is_correct db).

(** [vw_players_by_total_answers] *)
Definition vw_players_by_total_answers (db : database) : list (string * Z) :=
  count_by_username (answers_join_players (fun _ => true) db).

(** ** One call, seen from the connection *)

(** The state a call's routine leaves behind, and whether it raised. *)
Definition op_effect (op : engine_op) (db : database) : database :=
  match op with
  | check_unanswered u now order => snd (fn_get_unanswered_questions u now order db)
  | record_answer u q a now => snd (sp_record_player_answers u q a now db)
  | completing_session u => snd (sp_completing_session u db)
  | reset_game u => snd (sp_reset_player_answers u db)
  | get_correct_answer_count u => snd (fn_get_correct_answer_count u db)
  | update_high_scores u => snd (sp_update_high_scores u db)
  end.

Definition raised {A : Type} (r : (pg_error + A) * database) : bool :=
  match fst r with inl _ => true | inr _ => false end.

Definition op_raises (op : engine_op) (db : database) : bool :=
  match op with
  | check_unanswered u now order => raised (fn_get_unanswered_questions u now order db)
  | record_answer u q a now => raised (sp_record_player_answers u q a now db)
  | completing_session u => raised (sp_completing_session u db)
  | reset_game u => raised (sp_reset_player_answers u db)
  | get_correct_answer_count u => raised (fn_get_correct_answer_count u db)
  | update_high_scores u => raised (sp_update_high_scores u db)
  end.

(** The calls of stored procedures ([sp_]), which are committed. *)
Definition is_procedure (op : engine_op) : bool :=
  match op with
  | record_answer _ _ _ _ | completing_session _ | reset_game _ | update_high_scores _ => true
  | check_unanswered _ _ _ | get_correct_answer_count _ => false
  end.

(** Two databases with the same tables (the sequence apart). *)
Definition same_tables (db db' : database) : Prop :=
  questions db' = questions db /\ players db' = players db
  /\ game_sessions db' = game_sessions db /\ player_answers db' = player_answers db
  /\ high_scores db' = high_scores db.

(** The constraints of [high_scores]: its primary key and its CHECK. *)
Definition high_scores_valid (db : database) : Prop :=
  NoDup (map HighScore.score_id (high_scores db))
  /\ forall r, In r (high_scores db) -> 1 <= HighScore.score_id r <= 20.

(** A session row as [INSERT INTO game_sessions (player_id)] makes it. *)
Definition is_new_session (gs : GameSession.row) : Prop :=
  GameSession.end_time gs = None /\ GameSession.questions_solved gs = 0
  /\ GameSession.is_completed gs = false /\ GameSession.is_active gs = true.

(** What a connection may hold uncommitted: sessions that
    [fn_get_unanswered_questions] created since the last commit. *)
Definition only_sessions_pending (c : connection) : Prop :=
  questions (working c) = questions (committed c)
  /\ players (working c) = players (committed c)
  /\ player_answers (working c) = player_answers (committed c)
  /\ high_scores (working c) = high_scores (committed c)
  /\ exists pending,
       game_sessions (working c) = game_sessions (committed c) ++ pending
       /\ Forall is_new_session pending.

(** A completed session that has answer rows has an end time. *)
Definition completed_have_end_time (db : database) : Prop :=
  forall gs, In gs (game_sessions db) -> GameSession.is_completed gs = true ->
    session_answers db (GameSession.session_id gs) <> [] ->
    GameSession.end_time gs <> None.

(** Every high score is held by a player of [players]. *)
Definition high_scores_held (db : database) : Prop :=
  forall r, In r (high_scores db) ->
    exists p, In p (players db) /\ HighScore.player_id r = Some (Player.player_id p).

(** The line of [fn_get_high_scores] for a slot and its holder. *)
Definition score_line (hs : HighScore.row) (p : Player.row) : ScoreLine.row :=
  ScoreLine.mk (Player.player_id p) (Player.username p) (Player.email p)
    (HighScore.score_id hs) (HighScore.total_time hs) (HighScore.achieved_at hs).


(** ** The foreign keys of the schema

    The insertions above do not check them; these are the conditions
    [REFERENCES players], [REFERENCES questions] and [REFERENCES
    game_sessions] put on the three tables the routines write. *)
Definition player_exists (db : database) (p : Z) : Prop :=
  exists pl, In pl (players db) /\ Player.player_id pl = p.

Definition question_exists (db : database) (q : Z) : Prop :=
  exists r, In r (questions db) /\ Question.question_id r = q.

Definition session_exists (db : database) (s : Z) : Prop :=
  exists gs, In gs (game_sessions db) /\ GameSession.session_id gs = s.

Definition sessions_held (db : database) : Prop :=
  forall gs p, In gs (game_sessions db) -> GameSession.player_id gs = Some p ->
    player_exists db p.

Definition answers_of_questions (db : database) : Prop :=
  forall pa, In pa (player_answers db) -> question_exists db (PlayerAnswer.question_id pa).

Definition references_hold (db : database) : Prop :=
  sessions_held db
  /\ (forall pa, In pa (player_answers db) ->
        player_exists db (PlayerAnswer.player_id pa)
        /\ question_exists db (PlayerAnswer.question_id pa)
        /\ session_exists db (PlayerAnswer.session_id pa))
  /\ (forall hs p, In hs (high_scores db) -> HighScore.player_id hs = Some p ->
        player_exists db p).

(** ** Registration and login (login_and_registration.py)

    The arguments are the strings and the integer Python passes, never
    NULL; a character is an [ascii].  [next_id] is the value the
    sequence behind [players.player_id] yields on this call. *)

Definition set_players (l : list Player.row) (db : database) : database :=
  mk_database (questions db) l (game_sessions db) (player_answers db) (high_scores db)
              (session_id_seq db).

(** [fn_check_unique_username]:
    [NOT EXISTS (SELECT 1 FROM players WHERE username = p_username)] *)
Definition fn_check_unique_username (p_username : string) (db : database) : bool :=
  negb (existsb (fun p => String.eqb (Player.username p) p_username) (players db)).

(** [fn_check_unique_email] *)
Definition fn_check_unique_email (p_email : string) (db : database) : bool :=
  negb (existsb (fun p => String.eqb (Player.email p) p_email) (players db)).

(** [fn_login_player]:
    [SELECT password INTO stored_password FROM players WHERE username = p_username] *)
Definition fn_login_player (p_username : string) (db : database) : option string :=
  option_map Player.password
    (find (fun p => String.eqb (Player.username p) p_username) (players db)).

Inductive registration_error : Type :=
| string_data_right_truncation
| integrity_violation (e : pg_error).

Definition all_spaces (s : string) : bool :=
  forallb (Ascii.eqb " ") (list_ascii_of_string s).

(** Storing into a [VARCHAR(n)] column: a longer value is an error,
    unless what exceeds [n] characters is spaces, which are cut off. *)
Definition store_varchar (n : nat) (s : string) : option string :=
  if (String.length s <=? n)%nat then Some s
  else if all_spaces (substring n (String.length s - n) s) then Some (substring 0 n s)
  else None.

(** [sp_create_player]:
    [INSERT INTO players (username, password, email, age) VALUES (...)].
    The values are fitted to their columns first; the primary key and
    the two UNIQUE constraints are checked in the order of their
    declaration. *)
Definition sp_create_player (p_username p_hashed_password_encoded p_email : string)
    (p_age : Z) (next_id : Z) (db : database) : (registration_error + unit) * database :=
  match store_varchar 50 p_username, store_varchar 100 p_hashed_password_encoded,
        store_varchar 100 p_email with
  | Some u, Some pw, Some e =>
      if existsb (fun p => Player.player_id p =? next_id) (players db)
      then (inl (integrity_violation unique_violation), db)
      else if existsb (fun p => String.eqb (Player.username p) u) (players db)
      then (inl (integrity_violation unique_violation), db)
      else if existsb (fun p => String.eqb (Player.email p) e) (players db)
      then (inl (integrity_violation unique_violation), db)
      else (inr tt, set_players (players db ++ [Player.mk next_id u pw e p_age]) db)
  | _, _, _ => (inl string_data_right_truncation, db)
  end.

(** The constraints of [players]: its primary key and the two UNIQUE
    columns. *)
Definition players_valid (db : database) : Prop :=
  NoDup (map Player.player_id (players db))
  /\ NoDup (map Player.username (players db))
  /\ NoDup (map Player.email (players db)).

(** ** validation.py *)

(** A character of the class [[A-Za-z0-9_-]]. *)
Definition is_username_char (c : ascii) : bool :=
  let n := nat_of_ascii c in
  (((65 <=? n) && (n <=? 90)) || ((97 <=? n) && (n <=? 122))
   || ((48 <=? n) && (n <=? 57)) || (n =? 95) || (n =? 45))%nat.

(** Where [$] can match: at the end, or before a newline that ends the
    string. *)
Definition before_final_newline (s : list ascii) : list ascii :=
  match rev s with
  | c :: r => if Ascii.eqb c "010" then rev r else s
  | [] => s
  end.

(** [is_valid_username]: [bool(re.match(r"^[A-Za-z0-9_-]+$", username))] *)
Definition is_valid_username (username : string) : bool :=
  let body := before_final_newline (list_ascii_of_string username) in
  negb (length body =? 0)%nat && forallb is_username_char body.

(** ** The game loop (validation.py, game_logic.py)

    The keyboard is the list of the lines still to be typed, each with
    the reading of the server's clock when the call it leads to runs;
    [input()] on an empty list raises EOFError.  What is printed and
    what is logged to MongoDB is left out, except where the control
    flow depends on it.  Lines are ASCII. *)

Definition typed : Type := (string * Z)%type.

(** [str.lower()] *)
Definition lower_ascii (c : ascii) : ascii :=
  let n := nat_of_ascii c in
  if ((65 <=? n) && (n <=? 90))%nat then ascii_of_nat (n + 32) else c.

Fixpoint lower (s : string) : string :=
  match s with
  | EmptyString => EmptyString
  | String c s' => String (lower_ascii c) (lower s')
  end.

(** [is_valid_choice]: [user_input.lower() in valid_choices] *)
Definition is_valid_choice (user_input : string) (valid_choices : list string) : bool :=
  existsb (String.eqb (lower user_input)) valid_choices.

(** [get_valid_input]: the first line that is the exit keyword, then
    returned as the keyword itself, or that the validation accepts;
    with it, the lines left. *)
Fixpoint get_valid_input (validation_func : string -> bool) (exit_keyword : string)
    (inputs : list typed) : option (typed * list typed) :=
  match inputs with
  | [] => None
  | (user_input, now) :: rest =>
      if String.eqb (lower user_input) exit_keyword then Some ((exit_keyword, now), rest)
      else if validation_func user_input then Some ((user_input, now), rest)
      else get_valid_input validation_func exit_keyword rest
  end.

(** A function of the game: it returns, or an EOFError leaves it. *)
Inductive outcome (A : Type) : Type :=
| returned (value : A) (c : connection)
| EOFError (c : connection).

Arguments returned {A} value c.
Arguments EOFError {A} c.

Definition connection_of {A : Type} (r : outcome A) : connection :=
  match r with returned _ c => c | EOFError c => c end.

(** The value of a [CHAR(1)] argument given a string of one character
    (blank for the empty string). *)
Definition char_1 (s : string) : ascii :=
  match s with String c _ => c | EmptyString => " "%char end.

(** The [while True] loop of [play_game] for one question. *)
Inductive asked : Type :=
| answered (rest : list typed) (c : connection)     (* break *)
| quit (c : connection)                             (* return *)
| out_of_input (c : connection).

(** Every turn of the loop reads a line: [fuel], the number of lines
    left, is never what ends it. *)
Fixpoint ask_question (fuel : nat) (username : string) (question_id : Z)
    (inputs : list typed) (c : connection) : asked :=
  match fuel with
  | O => out_of_input c
  | S fuel' =>
      match get_valid_input
              (fun x => is_valid_choice (lower x) ["a"; "b"; "c"; "d"; "q"; "s"]%string)
              "q" inputs with
      | None => out_of_input c
      | Some ((line, now), rest) =>
          let answer := lower line in
          if String.eqb answer "q" then quit c
          else if String.eqb answer "s" then
            ask_question fuel' username question_id rest
              (snd (execute_pg_procedure c "fn_get_answer_stats"
                      (fn_get_answer_stats username)))
          else
            match execute_pg_procedure c "sp_record_player_answers"
                    (sp_record_player_answers username question_id (char_1 answer) now) with
            | (inl _, c') => ask_question fuel' username question_id rest c'
            | (inr _, c') => answered rest c'
            end
      end
  end.

(** [play_game(pg_connection, username, mongo_db, questions)];
    [questions] are the question ids of the documents. *)
Fixpoint play_game (username : string) (questions : list Z) (inputs : list typed)
    (pg_connection : connection) : outcome unit :=
  match questions with
  | [] => returned tt (finalize_game pg_connection username)
  | question_id :: questions' =>
      match ask_question (length inputs) username question_id inputs pg_connection with
      | answered rest c => play_game username questions' rest c
      | quit c => returned tt c
      | out_of_input c => EOFError c
      end
  end.

(** [reset_game] of game_logic.py: an error of the call is printed, not
    raised. *)
Module game_logic.
Definition reset_game (pg_connection : connection) (username : string) : connection :=
  snd (execute_pg_procedure pg_connection "sp_reset_player_answers"
         (sp_reset_player_answers username)).
End game_logic.

(** The [try] block of [game_status] that follows [reset_game]: new
    questions are fetched and the game starts afresh.  Whatever is
    raised inside, an EOFError of [play_game] included, ends it with
    [return]. *)
Definition fresh_start (fetch_questions_mongo : list Z -> option (list Z))
    (start_game_logged : bool)
    (now_new : Z) (random_order_new : list Question.row -> list Question.row)
    (username : string) (inputs : list typed) (c1 : connection)
  : outcome (option string) :=
  match execute_pg_procedure c1 "fn_get_unanswered_questions"
          (fn_get_unanswered_questions username now_new random_order_new) with
  | (inr (Some unanswered_questions_data_new), c2) =>
      match fetch_questions_mongo (map fst unanswered_questions_data_new) with
      | None => returned None c2
      | Some questions_new =>
          if start_game_logged then
            match play_game username questions_new inputs c2 with
            | returned _ c3 => returned (Some username) c3
            | EOFError c3 => returned None c3
            end
          else returned None c2
      end
  | (_, c2) => returned None c2
  end.

(** [game_status(pg_connection, mongo_db, username)].
    [fetch_questions_mongo] gives the question ids of the documents
    MongoDB has for the ids asked, or fails; [start_game_logged] tells
    whether the log entry of the fresh start after a reset is written.
    [now], [random_order] and [now_new], [random_order_new] belong to
    the two calls of [fn_get_unanswered_questions]. *)
Definition game_status (fetch_questions_mongo : list Z -> option (list Z))
    (start_game_logged : bool)
    (now : Z) (random_order : list Question.row -> list Question.row)
    (now_new : Z) (random_order_new : list Question.row -> list Question.row)
    (username : string) (inputs : list typed) (pg_connection : connection)
  : outcome (option string) :=
  match execute_pg_procedure pg_connection "fn_get_unanswered_questions"
          (fn_get_unanswered_questions username now random_order) with
  | (inr (Some unanswered_questions_data), c) =>
      let question_ids := map fst unanswered_questions_data in
      if (length question_ids =? 20)%nat then
        match fetch_questions_mongo question_ids with
        | None => returned None c
        | Some questions =>
            match play_game username questions inputs c with
            | returned _ c' => returned (Some username) c'
            | EOFError c' => EOFError c'
            end
        end
      else
        match get_valid_input (fun x => is_valid_choice (lower x) ["y"; "n"]%string)
                "q" inputs with
        | None => EOFError c
        | Some ((line, _), rest) =>
            if String.eqb (lower line) "y" then
              match fetch_questions_mongo question_ids with
              | None => returned None c
              | Some questions =>
                  match play_game username questions rest c with
                  | returned _ c' => returned (Some username) c'
                  | EOFError c' => EOFError c'
                  end
              end
            else
              fresh_start fetch_questions_mongo start_game_logged now_new random_order_new
                username rest (game_logic.reset_game c username)
        end
  | (_, c) => returned None c
  end.

(** A session that is completed, or that a reset has made inactive. *)
Definition is_closed (gs : GameSession.row) : Prop :=
  GameSession.is_completed gs = true \/ GameSession.is_active gs = false.


(** The calls a game makes for [u]: every call names [u], and a
    recorded letter is one of a, b, c, d. *)
Definition is_call_of (u : string) (op : engine_op) : Prop :=
  match op with
  | record_answer u' _ a _ => u' = u /\ is_abcd a = true
  | check_unanswered u' _ _ | completing_session u' | reset_game u'
  | get_correct_answer_count u' | update_high_scores u' => u' = u
  end.

(** ** The charts (statistical_graphs.py)

    What each function hands to matplotlib; an error of the call is
    printed, not raised. *)

(** The two slices of a pie chart; no chart ("No data found for the
    player.") when one of them is 0. *)
Definition pie_chart_sizes (row : Z * Z) : option (Z * Z) :=
  if (fst row =? 0) || (snd row =? 0) then None else Some row.

Definition generate_player_answered_vs_not_answered_pie_chart (player_id : Z)
    (db : database) : option (Z * Z) :=
  pie_chart_sizes (fn_get_player_answered_vs_not_answered player_id db).

Definition generate_player_correct_incorrect_pie_chart (player_id : Z) (db : database)
  : option (Z * Z) :=
  pie_chart_sizes (fn_get_player_correct_incorrect_answers player_id db).

(** The bars of [generate_question_statistics_graph]:
    [sorted(results, key=lambda item: item[2], reverse=True)[:top_n]];
    [item[2]] is correct_answers. *)
Definition generate_question_statistics_graph (top_n : nat) (db : database)
  : list QuestionStats.row :=
  firstn top_n
    (order_by (desc QuestionStats.correct_answers) (fn_get_question_answers_statistics db)).

(** A high score and the game behind it: a completed session of the
    holder with 20 answer rows, as many of them correct as the score
    says, which ended when the score was achieved and lasted its
    total time. *)
Definition score_backed (db : database) (r : HighScore.row) : Prop :=
  exists gs p,
    In gs (game_sessions db)
    /\ HighScore.player_id r = Some p
    /\ GameSession.player_id gs = Some p
    /\ GameSession.is_completed gs = true
    /\ GameSession.end_time gs = Some (HighScore.achieved_at r)
    /\ HighScore.total_time r = HighScore.achieved_at r - GameSession.start_time gs
    /\ count (session_answers db (GameSession.session_id gs)) = 20
    /\ count (filter PlayerAnswer.is_correct
                (session_answers db (GameSession.session_id gs)))
       = HighScore.score_id r.

Definition high_scores_backed (db : database) : Prop :=
  forall r, In r (high_scores db) -> score_backed db r.

(** ** Loading the questions (init_postgresql_database.py) *)

Definition set_questions (l : list Question.row) (db : database) : database :=
  mk_database l (players db) (game_sessions db) (player_answers db) (high_scores db)
              (session_id_seq db).

(** A document of the [questions] collection of MongoDB, as far as
    [insert_initial_data] reads it and as init_mongodb_database.py
    writes it: an [int] under "question_id" and a [str] under
    "correct_answer".  [None] is a key the document does not have. *)
Record document : Type := mk_document {
  doc_question_id : option Z;
  doc_correct_answer : option string
}.

(** psycopg2 adapts a [str] to a quoted literal and raises [ValueError],
    which is no [psycopg2.Error], when it holds a NUL character; with
    the client encoding UTF8 every other string is adapted, and an
    [int] always is. *)
Definition has_nul (s : string) : bool :=
  existsb (Ascii.eqb Ascii.zero) (list_ascii_of_string s).

(** Storing into a [CHAR(1)] column: a longer value is an error, unless
    what exceeds one character is spaces, which are cut off; the empty
    string is padded with a space. *)
Definition store_char_1 (s : string) : option ascii :=
  match s with
  | EmptyString => Some " "%char
  | String a rest => if all_spaces rest then Some a else None
  end.

(** The range of [INTEGER], the type behind [SERIAL]. *)
Definition is_integer (n : Z) : bool := (-2147483648 <=? n) && (n <=? 2147483647).

(** What [cursor.execute] does with a statement: it succeeds, the
    server rejects it (a [psycopg2.Error]), or adapting a parameter
    raises before anything is sent. *)
Inductive execution : Type :=
| executed (db : database)
| psycopg2_Error
| not_adapted (e : py_exception).

(** [INSERT INTO questions (question_id, correct_answer) VALUES (%s, %s)].
    The server rejects a value that does not fit its column, a letter
    that fails the CHECK and an id that the primary key has. *)
Definition insert_question (question_id : Z) (correct_answer : string)
    (db : database) : execution :=
  if has_nul correct_answer then not_adapted ValueError
  else
    match store_char_1 correct_answer with
    | None => psycopg2_Error
    | Some a =>
        if negb (is_integer question_id) then psycopg2_Error
        else if negb (is_abcd a) then psycopg2_Error
        else if existsb (fun q => Question.question_id q =? question_id) (questions db)
        then psycopg2_Error
        else executed (set_questions (questions db ++ [Question.mk question_id a]) db)
    end.

(** [execute_pg_statement(db_connection, statement, params)]: commit,
    or, on a [psycopg2.Error], roll back and print it.  Any other
    exception reaches the caller, with nothing committed or rolled
    back. *)
Definition execute_pg_statement (c : connection)
    (statement : database -> execution) : option py_exception * connection :=
  match statement (working c) with
  | executed db => (None, mk_connection db db)
  | psycopg2_Error => (None, rollback c (working c))
  | not_adapted e => (Some e, c)
  end.

(** The loop of [insert_initial_data].  A document without one of the
    keys raises [KeyError]; that, or an exception out of
    [execute_pg_statement], ends the loop: the [except Exception] of
    [insert_initial_data] is around the loop. *)
Fixpoint insert_questions (docs : list document) (c : connection) : connection :=
  match docs with
  | [] => c
  | d :: rest =>
      match doc_question_id d, doc_correct_answer d with
      | Some q, Some a =>
          match execute_pg_statement c (insert_question q a) with
          | (None, c') => insert_questions rest c'
          | (Some _, c') => c'
          end
      | _, _ => c
      end
  end.

(** [insert_initial_data(connection)]; [found] is what
    [db.questions.find({})] gives, [None] when it raises
    [PyMongoError]. *)
Definition insert_initial_data (found : option (list document)) (c : connection)
    : connection :=
  match found with
  | None => c
  | Some [] => c
  | Some docs => insert_questions docs c
  end.

(** The table has distinct ids and letters a to d. *)
Definition questions_valid (db : database) : Prop :=
  NoDup (map Question.question_id (questions db))
  /\ forall q, In q (questions db) ->
       is_abcd (Question.correct_answer q) = true
       /\ is_integer (Question.question_id q) = true.

(** The documents the loop gets to: those before the first one that
    lacks a key or whose letter cannot be adapted. *)
Fixpoint read_documents (docs : list document) : list (Z * string) :=
  match docs with
  | [] => []
  | d :: rest =>
      match doc_question_id d, doc_correct_answer d with
      | Some q, Some a => if has_nul a then [] else (q, a) :: read_documents rest
      | _, _ => []
      end
  end.

(** A document at which the loop ends. *)
Definition ends_loading (d : document) : bool :=
  match doc_question_id d, doc_correct_answer d with
  | Some _, Some a => has_nul a
  | _, _ => true
  end.

(** ** Submissions through [sp_update_high_scores] *)

(** What a call [sp_update_high_scores u] submits in [db], if anything:
    when the latest completed session of the player has 20 answer
    rows, some of them correct, the number of correct ones is the
    score, and the submission is the player, the duration of the
    session and its end. *)
Definition submission_of (db : database) (u : string) : option (Z * submission) :=
  if (0 <? scored_correct db u) && (count (scored_answers db u) =? 20) then
    match select_player_id db u, scored_total_time db u,
          match scored_session db u with
          | Some gs => GameSession.end_time gs
          | None => None
          end with
    | Some p, Some t, Some e => Some (scored_correct db u, mk_submission p t e)
    | _, _, _ => None
    end
  else None.

(** Calls of [sp_update_high_scores], one after the other.  A call
    comes with the other tables as they are at its time, whatever was
    played since the call before; [high_scores], which no other routine
    writes, is as the call before left it. *)
Fixpoint update_high_scores_all (calls : list (string * database)) : M unit :=
  match calls with
  | [] => ret tt
  | (u, tables) :: rest =>
      fun db =>
        bind (sp_update_high_scores u) (fun _ => update_high_scores_all rest)
          (set_high_scores (high_scores db) tables)
  end.

(** The holder after a submission [s] on a slot held by [cur]. *)
Definition keep_faster (cur s : submission) : submission :=
  if sub_time s <? sub_time cur then s else cur.

(** ** Several connections to one server *)







(** * Proofs *)

(** ** Lists *)

Section ListFacts.
Context {A : Type}.
Implicit Types (p q c : A -> bool) (f : A -> A) (l : list A).

Lemma existsb_false_filter p l : existsb p l = false <-> filter p l = [].
Proof.
  induction l as [|x l IH]; simpl; [tauto|].
  destruct (p x); simpl; [split; discriminate | exact IH].
Qed.

Lemma existsb_andb_filter p q l :
  existsb (fun r => p r && q r) l = existsb q (filter p l).
Proof.
  induction l as [|x l IH]; simpl; [reflexivity|].
  destruct (p x); simpl; rewrite IH; reflexivity.
Qed.

Lemma filter_update_where_keep p c f l :
  (forall r, p (f r) = p r) ->
  filter p (update_where c f l) = update_where c f (filter p l).
Proof.
  intros Hf. unfold update_where.
  induction l as [|x l IH]; simpl; [reflexivity|].
  destruct (c x) eqn:Hc; [rewrite Hf|]; destruct (p x); simpl;
    rewrite ?Hc, IH; reflexivity.
Qed.

Lemma filter_update_where_miss p c f l :
  (forall r, c r = true -> p r = false /\ p (f r) = false) ->
  filter p (update_where c f l) = filter p l.
Proof.
  intros Hc. unfold update_where.
  induction l as [|x l IH]; simpl; [reflexivity|].
  destruct (c x) eqn:E.
  - destruct (Hc x E) as [-> ->]. exact IH.
  - destruct (p x); rewrite IH; reflexivity.
Qed.

Lemma update_where_none c f l :
  existsb c l = false -> update_where c f l = l.
Proof.
  unfold update_where.
  induction l as [|x l IH]; simpl; [reflexivity|].
  destruct (c x); simpl; [discriminate|].
  intros H. rewrite IH by exact H. reflexivity.
Qed.

Lemma length_update_where c f l : length (update_where c f l) = length l.
Proof. apply length_map. Qed.

Lemma In_update_where c f l r :
  In r (update_where c f l) ->
  exists r0, In r0 l /\ r = (if c r0 then f r0 else r0).
Proof.
  unfold update_where. rewrite in_map_iff.
  intros (r0 & <- & Hin). exists r0. split; [exact Hin | reflexivity].
Qed.

Lemma filter_ext_in_eq p q l :
  (forall r, In r l -> p r = q r) -> filter p l = filter q l.
Proof.
  induction l as [|x l IH]; simpl; intros H; [reflexivity|].
  rewrite (H x) by (left; reflexivity).
  rewrite IH by (intros r Hr; apply H; right; exact Hr). reflexivity.
Qed.

End ListFacts.

(** ** The leaderboard slot *)

Lemma slot_set_high_scores hs db score :
  slot (set_high_scores hs db) score = filter (fun r => HighScore.score_id r =? score) hs.
Proof. reflexivity. Qed.

(** Inserting into an empty slot. *)
Lemma submit_empty_slot db score s :
  1 <= score <= 20 -> slot db score = [] ->
  submit score s db
  = (inr tt, set_high_scores (high_scores db ++ [slot_of score s]) db).
Proof.
  intros Hs He. unfold submit, update_or_insert_high_score, bind, get.
  apply existsb_false_filter in He. rewrite He.
  unfold insert_high_score.
  replace ((1 <=? score) && (score <=? 20)) with true by (symmetry; apply andb_true_iff; lia).
  simpl. rewrite He. reflexivity.
Qed.

(** An occupied slot and a time that is not faster: nothing happens. *)
Lemma submit_not_faster db score s r0 :
  slot db score = [r0] -> HighScore.total_time r0 <= sub_time s ->
  submit score s db = (inr tt, db).
Proof.
  intros Hr Hle. unfold submit, update_or_insert_high_score, bind, get.
  destruct (existsb _ (high_scores db)) eqn:He.
  - unfold update_high_score, is_slower_slot.
    rewrite existsb_andb_filter. fold (slot db score). rewrite Hr. simpl.
    replace (sub_time s <? HighScore.total_time r0) with false by (symmetry; apply Z.ltb_ge; lia).
    reflexivity.
  - apply existsb_false_filter in He. unfold slot in Hr. rewrite He in Hr. discriminate.
Qed.

(** An occupied slot and a strictly faster time: the slot is taken over. *)
Lemma submit_faster db score s r0 :
  slot db score = [r0] -> sub_time s < HighScore.total_time r0 ->
  submit score s db
  = (inr tt,
     set_high_scores
       (update_where (is_slower_slot score (Some (sub_time s)))
          (set_holder (Some (sub_player s)) (sub_time s) (sub_achieved_at s))
          (high_scores db)) db).
Proof.
  intros Hr Hlt. unfold submit, update_or_insert_high_score, bind, get.
  destruct (existsb _ (high_scores db)) eqn:He.
  - unfold update_high_score. unfold is_slower_slot at 1.
    rewrite existsb_andb_filter. fold (slot db score). rewrite Hr. simpl.
    replace (sub_time s <? HighScore.total_time r0) with true by (symmetry; apply Z.ltb_lt; lia).
    reflexivity.
  - apply existsb_false_filter in He. unfold slot in Hr. rewrite He in Hr. discriminate.
Qed.

Lemma slot_after_faster db score s r0 :
  slot db score = [r0] -> sub_time s < HighScore.total_time r0 ->
  filter (fun r => HighScore.score_id r =? score)
    (update_where (is_slower_slot score (Some (sub_time s)))
       (set_holder (Some (sub_player s)) (sub_time s) (sub_achieved_at s))
       (high_scores db))
  = [slot_of score s].
Proof.
  intros Hr Hlt. rewrite filter_update_where_keep by reflexivity.
  fold (slot db score). rewrite Hr. unfold update_where, is_slower_slot. simpl.
  assert (Hk : HighScore.score_id r0 = score).
  { assert (Hin : In r0 (slot db score)) by (rewrite Hr; left; reflexivity).
    apply filter_In in Hin. apply Z.eqb_eq. apply Hin. }
  rewrite Hk, Z.eqb_refl. simpl.
  replace (sub_time s <? HighScore.total_time r0) with true by (symmetry; apply Z.ltb_lt; lia).
  unfold set_holder, slot_of. rewrite Hk. reflexivity.
Qed.

Lemma other_slot_after_faster hs score score' s :
  score' <> score ->
  filter (fun r => HighScore.score_id r =? score')
    (update_where (is_slower_slot score (Some (sub_time s)))
       (set_holder (Some (sub_player s)) (sub_time s) (sub_achieved_at s))
       hs)
  = filter (fun r => HighScore.score_id r =? score') hs.
Proof.
  intros Hne. apply filter_update_where_miss.
  intros r Hc. unfold is_slower_slot in Hc. apply andb_true_iff in Hc.
  destruct Hc as [Hc _]. apply Z.eqb_eq in Hc. simpl.
  split; apply Z.eqb_neq; lia.
Qed.

Lemma same_but_high_scores_refl db : same_but_high_scores db db.
Proof. repeat split. Qed.

Lemma same_but_high_scores_trans db1 db2 db3 :
  same_but_high_scores db1 db2 -> same_but_high_scores db2 db3 ->
  same_but_high_scores db1 db3.
Proof.
  unfold same_but_high_scores. intros (a1 & a2 & a3 & a4 & a5) (b1 & b2 & b3 & b4 & b5).
  repeat split; congruence.
Qed.

(** One step from an occupied slot, both cases at once. *)
Lemma submit_occupied db score cur s :
  slot db score = [slot_of score cur] ->
  exists db',
    submit score s db = (inr tt, db')
    /\ slot db' score
       = [slot_of score (if sub_time s <? sub_time cur then s else cur)]
    /\ (forall score', score' <> score -> slot db' score' = slot db score')
    /\ same_but_high_scores db db'.
Proof.
  intros Hr. destruct (sub_time s <? sub_time cur) eqn:E.
  - apply Z.ltb_lt in E. eexists. split; [|split; [|split]].
    + apply (submit_faster _ _ _ _ Hr). exact E.
    + rewrite slot_set_high_scores. apply (slot_after_faster _ _ _ _ Hr). exact E.
    + intros score' Hne. rewrite slot_set_high_scores.
      apply other_slot_after_faster. exact Hne.
    + repeat split.
  - apply Z.ltb_ge in E. exists db. split; [|split; [|split]].
    + apply (submit_not_faster _ _ _ _ Hr). exact E.
    + exact Hr.
    + reflexivity.
    + apply same_but_high_scores_refl.
Qed.

(** From an occupied slot, any run of submissions ends with the first
    fastest of the holder and the submitters. *)
Lemma submit_all_occupied score subs : forall db cur,
  slot db score = [slot_of score cur] ->
  exists best before after db',
    cur :: subs = before ++ best :: after
    /\ (forall s, In s before -> sub_time best < sub_time s)
    /\ (forall s, In s after -> sub_time best <= sub_time s)
    /\ submit_all score subs db = (inr tt, db')
    /\ slot db' score = [slot_of score best]
    /\ (forall score', score' <> score -> slot db' score' = slot db score')
    /\ same_but_high_scores db db'.
Proof.
  induction subs as [|s subs IH]; intros db cur Hr.
  - exists cur, [], [], db. simpl.
    split; [reflexivity|]. split; [tauto|]. split; [tauto|]. split; [reflexivity|].
    split; [exact Hr|]. split; [reflexivity | apply same_but_high_scores_refl].
  - destruct (submit_occupied db score cur s Hr) as (db1 & Hrun & Hslot & Hother & Hsame).
    assert (Hstep : forall db', submit_all score subs db1 = (inr tt, db') ->
                    submit_all score (s :: subs) db = (inr tt, db')).
    { intros db' H. simpl. unfold bind. rewrite Hrun. exact H. }
    destruct (sub_time s <? sub_time cur) eqn:E.
    + apply Z.ltb_lt in E.
      destruct (IH db1 s Hslot)
        as (best & before & after & db' & Hdec & Hb & Ha & Hrun' & Hslot' & Hother' & Hsame').
      assert (Hbs : sub_time best <= sub_time s).
      { assert (Hin : In s (before ++ best :: after))
          by (rewrite <- Hdec; left; reflexivity).
        apply in_app_or in Hin. destruct Hin as [Hin | [<- | Hin]].
        - apply Hb in Hin. lia.
        - lia.
        - apply Ha in Hin. exact Hin. }
      exists best, (cur :: before), after, db'.
      split; [simpl; rewrite <- Hdec; reflexivity|].
      split; [intros x [<- | Hx]; [lia | apply Hb; exact Hx]|].
      split; [exact Ha|]. split; [apply Hstep; exact Hrun'|]. split; [exact Hslot'|].
      split; [|apply (same_but_high_scores_trans _ _ _ Hsame); exact Hsame'].
      intros score' Hne. rewrite Hother' by exact Hne. apply Hother. exact Hne.
    + apply Z.ltb_ge in E.
      destruct (IH db1 cur Hslot)
        as (best & before & after & db' & Hdec & Hb & Ha & Hrun' & Hslot' & Hother' & Hsame').
      assert (Hframe : (forall score', score' <> score -> slot db' score' = slot db score')
                       /\ same_but_high_scores db db').
      { split; [|apply (same_but_high_scores_trans _ _ _ Hsame); exact Hsame'].
        intros score' Hne. rewrite Hother' by exact Hne. apply Hother. exact Hne. }
      destruct before as [|c before]; simpl in Hdec; injection Hdec as Hc Hsubs.
      * subst best after.
        exists cur, [], (s :: subs), db'.
        split; [reflexivity|]. split; [simpl; tauto|].
        split; [intros x [<- | Hx]; [lia | apply Ha; exact Hx]|].
        split; [apply Hstep; exact Hrun'|]. split; [exact Hslot' | exact Hframe].
      * subst c.
        assert (Hbc : sub_time best < sub_time cur) by (apply Hb; left; reflexivity).
        exists best, (cur :: s :: before), after, db'.
        split; [simpl; rewrite Hsubs; reflexivity|].
        split; [intros x [<- | [<- | Hx]]; [lia | lia | apply Hb; right; exact Hx]|].
        split; [exact Ha|]. split; [apply Hstep; exact Hrun'|].
        split; [exact Hslot' | exact Hframe].
Qed.

(** ** The least correctly answered questions *)

Lemma sql_min_None l : sql_min l = None <-> l = [].
Proof.
  destruct l as [|x l]; simpl; [tauto|].
  destruct (sql_min l); split; discriminate.
Qed.

Lemma sql_min_Some l m :
  sql_min l = Some m -> In m l /\ (forall x, In x l -> m <= x).
Proof.
  revert m. induction l as [|x l IH]; simpl; intros m H; [discriminate|].
  destruct (sql_min l) as [m'|] eqn:E.
  - injection H as <-. destruct (IH m' eq_refl) as [Hin Hle]. split.
    + destruct (Z.min_spec x m') as [[_ ->] | [_ ->]]; auto.
    + intros y [<- | Hy]; [lia|]. apply Hle in Hy. lia.
  - injection H as <-. apply sql_min_None in E. subst l. split; [auto|].
    intros y [<- | []]. lia.
Qed.

Lemma filter_filter_andb {A : Type} (p q : A -> bool) (l : list A) :
  filter q (filter p l) = filter (fun x => p x && q x) l.
Proof.
  induction l as [|x l IH]; simpl; [reflexivity|].
  destruct (p x); simpl; [destruct (q x)|]; rewrite IH; reflexivity.
Qed.

Lemma count_pos_iff {A : Type} (p : A -> bool) (l : list A) :
  0 < count (filter p l) <-> exists x, In x l /\ p x = true.
Proof.
  unfold count. split.
  - destruct (filter p l) as [|x l'] eqn:E; simpl; [lia|]. intros _.
    assert (H : In x (filter p l)) by (rewrite E; left; reflexivity).
    apply filter_In in H. exists x. exact H.
  - intros (x & Hin & Hp).
    assert (H : In x (filter p l)) by (apply filter_In; auto).
    destruct (filter p l); [contradiction | simpl; lia].
Qed.

Lemma In_correct_counts db q c :
  In (q, c) (correct_counts db) <-> c = number_correct db q /\ 0 < c.
Proof.
  unfold correct_counts, number_correct. rewrite in_map_iff. split.
  - intros (q' & [= -> <-] & Hin). rewrite filter_filter_andb. split; [reflexivity|].
    apply nodup_In, in_map_iff in Hin. destruct Hin as (pa & Hq & Hpa).
    apply filter_In in Hpa. apply count_pos_iff. exists pa.
    split; [tauto|]. rewrite (proj2 Hpa), Hq, Z.eqb_refl. reflexivity.
  - intros [-> Hpos]. exists q. rewrite filter_filter_andb. split; [reflexivity|].
    apply count_pos_iff in Hpos. destruct Hpos as (pa & Hin & Hp).
    apply andb_true_iff in Hp. destruct Hp as [Hc Hq]. apply Z.eqb_eq in Hq.
    apply nodup_In, in_map_iff. exists pa. split; [exact Hq|].
    apply filter_In. auto.
Qed.

Lemma NoDup_correct_counts db : NoDup (map fst (correct_counts db)).
Proof.
  unfold correct_counts. rewrite map_map. simpl. rewrite map_id. apply NoDup_nodup.
Qed.

Lemma NoDup_keys_filter {R K : Type} (key : R -> K) (keep : R -> bool) (rows : list R)
    (Hkeys : NoDup (map key rows)) :
  NoDup (map key (filter keep rows)).
Proof.
  induction rows as [|r rows IH]; simpl; [constructor|].
  inversion Hkeys as [|? ? Hfresh Hrest]; subst.
  destruct (keep r); simpl; [constructor|]; auto.
  intros Hin. apply Hfresh. apply in_map_iff in Hin. destruct Hin as (r' & Hk & Hin).
  apply in_map_iff. exists r'. split; [exact Hk|]. apply filter_In in Hin. tauto.
Qed.


(** ** Session lookups *)

Lemma set_game_sessions_same db : set_game_sessions (game_sessions db) db = db.
Proof. destruct db; reflexivity. Qed.

Lemma set_player_answers_same db : set_player_answers (player_answers db) db = db.
Proof. destruct db; reflexivity. Qed.

Lemma sql_eq_Some x y : sql_eq (Some x) (Some y) = (x =? y).
Proof. reflexivity. Qed.

Lemma sql_eq_None_r a : sql_eq a None = false.
Proof. destruct a; reflexivity. Qed.

Lemma select_active_session_Some db v s :
  select_active_session db v = Some s ->
  exists gs, In gs (game_sessions db) /\ is_open_session_of v gs = true
             /\ GameSession.session_id gs = s.
Proof.
  unfold select_active_session. destruct (find _ _) as [gs|] eqn:E; [|discriminate].
  intros [= <-]. apply find_some in E. exists gs. tauto.
Qed.

Lemma select_active_session_None db v :
  select_active_session db v = None <->
  (forall gs, In gs (game_sessions db) -> is_open_session_of v gs = false).
Proof.
  unfold select_active_session. split.
  - destruct (find _ _) eqn:E; [discriminate|]. intros _. apply find_none. exact E.
  - intros H. destruct (find _ _) as [gs|] eqn:E; [|reflexivity].
    apply find_some in E. rewrite (H gs) in E; [destruct E; discriminate | tauto].
Qed.

Lemma select_active_session_null db : select_active_session db None = None.
Proof.
  apply select_active_session_None. intros gs _. unfold is_open_session_of.
  rewrite sql_eq_None_r. reflexivity.
Qed.

Lemma update_where_null_id f l : update_where (has_session_id None) f l = l.
Proof.
  apply update_where_none. apply existsb_false_filter.
  induction l as [|x l IH]; simpl; [reflexivity | exact IH].
Qed.

Lemma sql_max_None l : sql_max l = None <-> l = [].
Proof.
  destruct l as [|x l]; simpl; [tauto|].
  destruct (sql_max l); split; discriminate.
Qed.

Lemma sql_max_Some l m :
  sql_max l = Some m -> In m l /\ (forall x, In x l -> x <= m).
Proof.
  revert m. induction l as [|x l IH]; simpl; intros m H; [discriminate|].
  destruct (sql_max l) as [m'|] eqn:E.
  - injection H as <-. destruct (IH m' eq_refl) as [Hin Hle]. split.
    + destruct (Z.max_spec x m') as [[_ ->] | [_ ->]]; auto.
    + intros y [<- | Hy]; [lia|]. apply Hle in Hy. lia.
  - injection H as <-. apply sql_max_None in E. subst l. split; [auto|].
    intros y [<- | []]. lia.
Qed.

Lemma answer_in_session_Some s pa :
  answer_in_session (Some s) pa = (PlayerAnswer.session_id pa =? s).
Proof. reflexivity. Qed.

Lemma latest_answer_time_sql_max db s :
  latest_answer_time db s
    (sql_max (map PlayerAnswer.answered_at
                (filter (answer_in_session (Some s)) (player_answers db)))).
Proof.
  unfold latest_answer_time. destruct (sql_max _) as [m|] eqn:E.
  - destruct (sql_max_Some _ _ E) as [Hin Hle]. split.
    + apply in_map_iff in Hin. destruct Hin as (pa & Hm & Hpa).
      apply filter_In in Hpa. destruct Hpa as [Hpa Hs].
      rewrite answer_in_session_Some in Hs. apply Z.eqb_eq in Hs. exists pa. auto.
    + intros pa Hpa Hs. apply Hle. apply in_map, filter_In. split; [exact Hpa|].
      rewrite answer_in_session_Some. apply Z.eqb_eq. exact Hs.
  - apply sql_max_None, map_eq_nil in E. intros pa Hpa Hs.
    assert (H : In pa (filter (answer_in_session (Some s)) (player_answers db))).
    { apply filter_In. split; [exact Hpa|].
      rewrite answer_in_session_Some. apply Z.eqb_eq. exact Hs. }
    rewrite E in H. contradiction.
Qed.

(** ** sp_completing_session *)

Lemma sp_completing_session_unfold u db :
  sp_completing_session u db
  = (inr tt,
     set_game_sessions
       (update_where (has_session_id (select_active_session db (select_player_id db u)))
          (set_completed
             (sql_max (map PlayerAnswer.answered_at
                         (filter (answer_in_session
                                    (select_active_session db (select_player_id db u)))
                            (player_answers db)))))
          (game_sessions db)) db).
Proof. reflexivity. Qed.

Lemma sp_completing_session_no_session u db :
  select_active_session db (select_player_id db u) = None ->
  sp_completing_session u db = (inr tt, db).
Proof.
  intros H. rewrite sp_completing_session_unfold, H, update_where_null_id.
  rewrite set_game_sessions_same. reflexivity.
Qed.

Lemma Forall2_update_where {A : Type} (R : A -> A -> Prop) (c : A -> bool) (f : A -> A)
    (l : list A) :
  (forall x, In x l -> R x (if c x then f x else x)) ->
  Forall2 R l (update_where c f l).
Proof.
  unfold update_where. induction l as [|x l IH]; simpl; intros H; constructor.
  - apply H. left. reflexivity.
  - apply IH. intros y Hy. apply H. right. exact Hy.
Qed.

Lemma find_hd_filter {A : Type} (p : A -> bool) (l : list A) :
  find p l = hd_error (filter p l).
Proof.
  induction l as [|x l IH]; simpl; [reflexivity|].
  destruct (p x); [reflexivity | exact IH].
Qed.

Lemma has_session_id_Some s gs :
  has_session_id (Some s) gs = (GameSession.session_id gs =? s).
Proof. reflexivity. Qed.

Lemma session_rows_nonempty db s gs :
  In gs (game_sessions db) -> GameSession.session_id gs = s -> session_rows db s <> [].
Proof.
  intros Hin Hs E.
  assert (H : In gs (session_rows db s)).
  { apply filter_In. split; [exact Hin | apply Z.eqb_eq; exact Hs]. }
  rewrite E in H. contradiction.
Qed.


(** ** sp_reset_player_answers *)

Lemma sp_reset_player_answers_unfold u db :
  sp_reset_player_answers u db
  = (inr tt,
     set_game_sessions
       (update_where (has_session_id (select_active_session db (select_player_id db u)))
          set_inactive (game_sessions db))
       (set_player_answers
          (delete_where (answer_of (select_player_id db u)
                           (select_active_session db (select_player_id db u)))
             (player_answers db)) db)).
Proof. reflexivity. Qed.

Lemma answer_of_Some p s pa :
  answer_of (Some p) (Some s) pa
  = ((PlayerAnswer.player_id pa =? p) && (PlayerAnswer.session_id pa =? s)).
Proof. reflexivity. Qed.

Lemma answer_of_null_session v pa : answer_of v None pa = false.
Proof. unfold answer_of. rewrite sql_eq_None_r. apply andb_false_r. Qed.

Lemma delete_where_none {A : Type} (c : A -> bool) (l : list A) :
  (forall x, In x l -> c x = false) -> delete_where c l = l.
Proof.
  unfold delete_where. induction l as [|x l IH]; simpl; intros H; [reflexivity|].
  rewrite (H x) by (left; reflexivity). simpl.
  rewrite IH by (intros y Hy; apply H; right; exact Hy). reflexivity.
Qed.

Lemma sp_reset_player_answers_no_session u db :
  select_active_session db (select_player_id db u) = None ->
  sp_reset_player_answers u db = (inr tt, db).
Proof.
  intros H. rewrite sp_reset_player_answers_unfold, H, update_where_null_id.
  rewrite delete_where_none by (intros; apply answer_of_null_session).
  rewrite set_player_answers_same. apply f_equal, set_game_sessions_same.
Qed.


(** ** sp_record_player_answers *)

Lemma sp_record_player_answers_unfold u q a now db :
  sp_record_player_answers u q a now db
  = insert_player_answer (select_player_id db u) (Some q)
      (select_active_session db (select_player_id db u)) a
      (option_map (Ascii.eqb a) (select_correct_answer db q)) now db.
Proof. reflexivity. Qed.

Lemma sp_record_player_answers_no_session u q a now db :
  select_active_session db (select_player_id db u) = None ->
  sp_record_player_answers u q a now db = (inl not_null_violation, db).
Proof.
  intros H. rewrite sp_record_player_answers_unfold, H.
  destruct (select_player_id db u); reflexivity.
Qed.

(** A call that succeeds, and what it found on the way. *)
Lemma sp_record_player_answers_ok u q a now db db1 :
  sp_record_player_answers u q a now db = (inr tt, db1) ->
  exists p s c,
    select_player_id db u = Some p
    /\ select_active_session db (Some p) = Some s
    /\ select_correct_answer db q = Some c
    /\ is_abcd a = true
    /\ answer_rows db p q s = []
    /\ db1 = recorded db (PlayerAnswer.mk p q s a (Ascii.eqb a c) now).
Proof.
  rewrite sp_record_player_answers_unfold.
  destruct (select_player_id db u) as [p|]; [|discriminate].
  destruct (select_active_session db (Some p)) as [s|] eqn:Hs; [|discriminate].
  destruct (select_correct_answer db q) as [c|] eqn:Hc; [|discriminate].
  simpl. destruct (is_abcd a) eqn:Ha; [|discriminate]. simpl.
  destruct (existsb _ _) eqn:E; [discriminate|].
  intros [= <-]. exists p, s, c. apply existsb_false_filter in E.
  repeat split; try assumption; reflexivity.
Qed.

Lemma sp_record_player_answers_run u q a now db p s c :
  select_player_id db u = Some p ->
  select_active_session db (Some p) = Some s ->
  select_correct_answer db q = Some c ->
  is_abcd a = true ->
  sp_record_player_answers u q a now db
  = if existsb (same_answer_key p q s) (player_answers db)
    then (inl unique_violation, db)
    else (inr tt, recorded db (PlayerAnswer.mk p q s a (Ascii.eqb a c) now)).
Proof.
  intros Hp Hs Hc Ha. rewrite sp_record_player_answers_unfold, Hp, Hs, Hc.
  simpl. rewrite Ha. simpl. destruct (existsb _ _); reflexivity.
Qed.

Lemma find_update_where_keep {A B : Type} (p c : A -> bool) (f : A -> A) (g : A -> B)
    (l : list A) :
  (forall x, p (f x) = p x) -> (forall x, g (f x) = g x) ->
  option_map g (find p (update_where c f l)) = option_map g (find p l).
Proof.
  intros Hp Hg. unfold update_where. induction l as [|x l IH]; simpl; [reflexivity|].
  destruct (c x); [rewrite Hp|]; destruct (p x); simpl; rewrite ?Hg; auto.
Qed.

Lemma select_active_session_recorded db NEW v :
  select_active_session (recorded db NEW) v = select_active_session db v.
Proof.
  unfold select_active_session, recorded. simpl.
  apply find_update_where_keep; reflexivity.
Qed.

Lemma select_player_id_recorded db NEW u :
  select_player_id (recorded db NEW) u = select_player_id db u.
Proof. reflexivity. Qed.


Lemma player_answers_recorded db NEW :
  player_answers (recorded db NEW) = player_answers db ++ [NEW].
Proof. reflexivity. Qed.

Lemma set_session_id_seq_same db : set_session_id_seq (session_id_seq db) db = db.
Proof. destruct db; reflexivity. Qed.

Lemma same_answer_key_refl p q s a c now :
  same_answer_key p q s (PlayerAnswer.mk p q s a c now) = true.
Proof. unfold same_answer_key. simpl. rewrite !Z.eqb_refl. reflexivity. Qed.


(** ** The trigger keeps questions_solved exact *)

Lemma solved_is_live_count_recorded db NEW :
  solved_is_live_count (recorded db NEW) (PlayerAnswer.session_id NEW).
Proof.
  intros gs Hin Hid. unfold recorded in Hin. simpl in Hin.
  apply In_update_where in Hin. destruct Hin as (r0 & _ & ->).
  rewrite has_session_id_Some in *. destruct (_ =? _) eqn:E.
  - reflexivity.
  - apply Z.eqb_neq in E. contradiction.
Qed.

Lemma session_rows_recorded_nonempty db NEW s :
  session_rows db s <> [] -> session_rows (recorded db NEW) s <> [].
Proof.
  intros Hne. unfold session_rows, recorded. simpl.
  rewrite filter_update_where_keep by reflexivity.
  unfold update_where. intros E. apply map_eq_nil in E. apply Hne. exact E.
Qed.

Lemma select_active_session_rows db v s :
  select_active_session db v = Some s -> session_rows db s <> [].
Proof.
  intros H. destruct (select_active_session_Some _ _ _ H) as (gs & Hin & _ & Hid).
  apply (session_rows_nonempty _ _ gs); assumption.
Qed.

Lemma count_app {A : Type} (l1 l2 : list A) : count (l1 ++ l2) = count l1 + count l2.
Proof. unfold count. rewrite length_app. lia. Qed.

Lemma session_answers_recorded db p q s a c now :
  session_answers (recorded db (PlayerAnswer.mk p q s a c now)) s
  = session_answers db s ++ [PlayerAnswer.mk p q s a c now].
Proof.
  unfold session_answers. rewrite player_answers_recorded, filter_app. simpl.
  rewrite Z.eqb_refl. reflexivity.
Qed.

Lemma answer_rows_recorded_other db p q q' s a c now :
  q' <> q ->
  answer_rows (recorded db (PlayerAnswer.mk p q s a c now)) p q' s = answer_rows db p q' s.
Proof.
  intros Hne. unfold answer_rows. rewrite player_answers_recorded, filter_app. simpl.
  unfold same_answer_key at 2. simpl.
  replace (q =? q') with false by (symmetry; apply Z.eqb_neq; lia).
  rewrite andb_false_r. simpl. apply app_nil_r.
Qed.

(** A run of calls with distinct, existing, not yet answered questions
    and valid letters: every call succeeds, and the session gains one
    row per call. *)
Lemma record_all_run u p s calls : forall db,
  select_player_id db u = Some p ->
  select_active_session db (Some p) = Some s ->
  NoDup (map (fun x => fst (fst x)) calls) ->
  (forall q a now, In (q, a, now) calls ->
     is_abcd a = true /\ select_correct_answer db q <> None /\ answer_rows db p q s = []) ->
  exists db',
    record_all u calls db = (inr tt, db')
    /\ count (session_answers db' s) = count (session_answers db s) + count calls
    /\ session_rows db' s <> []
    /\ (calls <> [] \/ solved_is_live_count db s -> solved_is_live_count db' s).
Proof.
  induction calls as [|[[q a] now] calls IH]; intros db Hp Hs Hnd Hcalls.
  - exists db. split; [reflexivity|]. split; [unfold count; simpl; lia|].
    split; [apply (select_active_session_rows _ _ _ Hs)|].
    intros [H | H]; [contradiction | exact H].
  - destruct (Hcalls q a now (or_introl eq_refl)) as (Ha & Hc & Hnew).
    destruct (select_correct_answer db q) as [c|] eqn:Ec; [clear Hc | contradiction].
    set (NEW := PlayerAnswer.mk p q s a (Ascii.eqb a c) now).
    assert (Hrun : sp_record_player_answers u q a now db = (inr tt, recorded db NEW)).
    { rewrite (sp_record_player_answers_run u q a now db p s c) by assumption.
      apply existsb_false_filter in Hnew. rewrite Hnew. reflexivity. }
    simpl in Hnd. inversion Hnd as [|? ? Hq Hnd']; subst.
    destruct (IH (recorded db NEW)) as (db' & Hrun' & Hcount & Hrows & Hsolved).
    + exact Hp.
    + rewrite select_active_session_recorded. exact Hs.
    + exact Hnd'.
    + intros q' a' now' Hin.
      destruct (Hcalls q' a' now' (or_intror Hin)) as (Ha' & Hc' & Hnew').
      split; [exact Ha'|]. split; [exact Hc'|].
      unfold NEW. rewrite answer_rows_recorded_other; [exact Hnew'|].
      intros ->. apply Hq. apply in_map_iff. exists (q, a', now'). auto.
    + exists db'. split; [simpl; unfold bind; rewrite Hrun; exact Hrun'|].
      split; [|split; [exact Hrows|]].
      * rewrite Hcount. unfold NEW. rewrite session_answers_recorded, count_app.
        unfold count. simpl length. lia.
      * intros _. apply Hsolved. right.
        apply (solved_is_live_count_recorded db NEW).
Qed.


(** ** fn_get_unanswered_questions *)

Lemma fn_get_unanswered_questions_existing u now order db s :
  select_active_session db (select_player_id db u) = Some s ->
  fn_get_unanswered_questions u now order db
  = if 20 - count (filter (answer_of (select_player_id db u) (Some s)) (player_answers db)) <? 0
    then (inl invalid_row_count_in_limit_clause, db)
    else (inr (map (fun q => (Question.question_id q, Question.correct_answer q))
                 (firstn (Z.to_nat (20 - count (filter (answer_of (select_player_id db u)
                                                         (Some s)) (player_answers db))))
                    (order (filter (not_answered db (select_player_id db u) (Some s))
                              (questions db))))), db).
Proof.
  intros Hs. unfold fn_get_unanswered_questions, get_or_create_session, bind, get.
  rewrite Hs. unfold ret, limit. destruct (_ <? 0); reflexivity.
Qed.

Lemma answer_of_owned db p s :
  session_answers_owned db p s ->
  filter (answer_of (Some p) (Some s)) (player_answers db) = session_answers db s.
Proof.
  intros Hown. unfold session_answers. apply filter_ext_in_eq. intros pa Hin.
  rewrite answer_of_Some. destruct (PlayerAnswer.session_id pa =? s) eqn:E.
  - apply Z.eqb_eq in E. rewrite (Hown pa Hin E), Z.eqb_refl. reflexivity.
  - apply andb_false_r.
Qed.

Lemma not_answered_owned db p s :
  session_answers_owned db p s ->
  filter (not_answered db (Some p) (Some s)) (questions db) = unanswered db s.
Proof.
  intros Hown. unfold unanswered. apply filter_ext_in_eq. intros q _.
  unfold not_answered. rewrite (answer_of_owned db p s Hown). unfold session_answers.
  induction (player_answers db) as [|pa l IH]; simpl; [reflexivity|].
  destruct (PlayerAnswer.session_id pa =? s); simpl; [|exact IH].
  rewrite negb_orb, IH. reflexivity.
Qed.

Lemma In_unanswered db s q :
  In q (unanswered db s) <->
  In q (questions db)
  /\ forall pa, In pa (player_answers db) -> PlayerAnswer.session_id pa = s ->
       PlayerAnswer.question_id pa <> Question.question_id q.
Proof.
  unfold unanswered. rewrite filter_In, forallb_forall. split.
  - intros [Hq H]. split; [exact Hq|]. intros pa Hin Hs Hqid.
    specialize (H pa Hin). rewrite Hs, Hqid, !Z.eqb_refl in H. discriminate.
  - intros [Hq H]. split; [exact Hq|]. intros pa Hin.
    destruct (PlayerAnswer.session_id pa =? s) eqn:E1; [|reflexivity].
    destruct (_ =? Question.question_id q) eqn:E2; [|reflexivity].
    apply Z.eqb_eq in E1, E2. exfalso. apply (H pa Hin E1 E2).
Qed.

Lemma In_firstn {A : Type} (n : nat) (l : list A) x : In x (firstn n l) -> In x l.
Proof.
  revert n. induction l as [|y l IH]; intros [|n]; simpl; try tauto.
  intros [H | H]; [left; exact H | right; apply (IH n); exact H].
Qed.

Lemma NoDup_firstn {A : Type} (n : nat) (l : list A) : NoDup l -> NoDup (firstn n l).
Proof.
  revert n. induction l as [|x l IH]; intros [|n] H; simpl; try constructor.
  - inversion H as [|? ? Hx Hl]; subst. intros Hin. apply Hx.
    apply (In_firstn n). exact Hin.
  - inversion H; subst. apply IH. assumption.
Qed.

Lemma count_firstn {A : Type} (n : Z) (l : list A) :
  0 <= n -> count (firstn (Z.to_nat n) l) = Z.min n (count l).
Proof. intros Hn. unfold count. rewrite length_firstn. lia. Qed.

Lemma count_map {A B : Type} (f : A -> B) (l : list A) : count (map f l) = count l.
Proof. unfold count. rewrite length_map. reflexivity. Qed.

Lemma count_Permutation {A : Type} (l l' : list A) : Permutation l l' -> count l = count l'.
Proof. intros H. unfold count. rewrite (Permutation_length H). reflexivity. Qed.

(** The result on any database in which the open session's answer rows
    are its player's and its questions_solved is their number. *)
Lemma unanswered_questions_general :
  forall db u now order p s,
    select_player_id db u = Some p ->
    select_active_session db (Some p) = Some s ->
    (forall l, Permutation l (order l)) ->
    NoDup (map Question.question_id (questions db)) ->
    session_answers_owned db p s ->
    solved_is_live_count db s ->
    count (session_answers db s) <= 20 ->
    exists rows,
      fn_get_unanswered_questions u now order db = (inr rows, db)
      /\ NoDup (map fst rows)
      /\ (forall q, In q (map fst rows) ->
            In q (map Question.question_id (questions db))
            /\ forall pa, In pa (player_answers db) -> PlayerAnswer.session_id pa = s ->
                 PlayerAnswer.question_id pa <> q)
      /\ (forall gs, In gs (game_sessions db) -> GameSession.session_id gs = s ->
            (20 - GameSession.questions_solved gs <= count (unanswered db s) ->
             count rows = 20 - GameSession.questions_solved gs)
            /\ (count (unanswered db s) < 20 - GameSession.questions_solved gs ->
                Permutation (map Question.question_id (unanswered db s)) (map fst rows)))
      /\ (session_answers db s = [] -> 20 <= count (questions db) -> count rows = 20).
Proof.
  intros db u now order p s Hp Hs Hperm Hpk Hown Hsolved Hle.
  rewrite <- Hp in Hs.
  rewrite (fn_get_unanswered_questions_existing u now order db s Hs).
  rewrite Hp in *. rewrite (answer_of_owned db p s Hown), (not_answered_owned db p s Hown).
  set (n := count (session_answers db s)) in *.
  replace (20 - n <? 0) with false by (symmetry; apply Z.ltb_ge; lia).
  eexists. split; [reflexivity|].
  rewrite map_map. cbn [fst]. rewrite count_map.
  assert (Hnd : NoDup (map Question.question_id (order (unanswered db s)))).
  { apply (Permutation_NoDup (l := map Question.question_id (unanswered db s))).
    - apply Permutation_map, Hperm.
    - apply NoDup_keys_filter. exact Hpk. }
  split; [|split; [|split]].
  - rewrite <- firstn_map. apply NoDup_firstn. exact Hnd.
  - intros q Hin. apply in_map_iff in Hin. destruct Hin as (r & <- & Hin).
    apply In_firstn in Hin.
    apply (Permutation_in _ (Permutation_sym (Hperm _))) in Hin.
    apply In_unanswered in Hin. destruct Hin as [Hq Hno].
    split; [apply in_map; exact Hq | exact Hno].
  - intros gs Hin Hid. rewrite (Hsolved gs Hin Hid). fold n.
    rewrite count_firstn by lia. rewrite <- (count_Permutation _ _ (Hperm _)). split.
    + intros H. lia.
    + intros H. rewrite firstn_all2.
      * apply Permutation_map, Hperm.
      * apply Nat2Z.inj_le. rewrite <- (Permutation_length (Hperm _)).
        fold (count (unanswered db s)). lia.
  - intros Hempty H20. rewrite count_firstn by lia.
    rewrite <- (count_Permutation _ _ (Hperm _)).
    assert (Hall : unanswered db s = questions db).
    { unfold unanswered. unfold session_answers in Hempty.
      rewrite <- (filter_ext_in_eq (fun _ => true)).
      - clear. induction (questions db) as [|x l IH]; simpl; [|rewrite IH]; reflexivity.
      - intros q _. symmetry. apply forallb_forall. intros pa Hin.
        destruct (PlayerAnswer.session_id pa =? s) eqn:E; [|reflexivity].
        assert (H : In pa (filter (fun pa => PlayerAnswer.session_id pa =? s)
                             (player_answers db))) by (apply filter_In; auto).
        rewrite Hempty in H. contradiction. }
    rewrite Hall. unfold n. rewrite Hempty. change (count (@nil PlayerAnswer.row)) with 0. lia.
Qed.

(** ** sp_update_high_scores *)

Lemma sp_update_high_scores_unfold u db :
  sp_update_high_scores u db
  = if (0 <? scored_correct db u) && (count (scored_answers db u) =? 20)
    then update_or_insert_high_score (scored_correct db u) (select_player_id db u)
           (scored_total_time db u)
           (match scored_session db u with
            | Some gs => GameSession.end_time gs
            | None => None
            end) db
    else (inr tt, db).
Proof.
  unfold sp_update_high_scores, bind, get, scored_correct, scored_answers,
    scored_total_time, scored_session.
  destruct (_ && _); reflexivity.
Qed.


Lemma first_greatest_In {A : Type} (ltb : A -> A -> bool) (l : list A) x :
  first_greatest ltb l = Some x -> In x l.
Proof.
  revert x. induction l as [|y l IH]; simpl; intros x H; [discriminate|].
  destruct (first_greatest ltb l) as [z|].
  - destruct (ltb y z); injection H as <-; [right; apply IH; reflexivity | left; reflexivity].
  - injection H as <-. left. reflexivity.
Qed.

Lemma find_session_by_id (l : list GameSession.row) gs :
  NoDup (map GameSession.session_id l) -> In gs l ->
  find (has_session_id (Some (GameSession.session_id gs))) l = Some gs.
Proof.
  induction l as [|x l IH]; simpl; intros Hnd Hin; [contradiction|].
  inversion Hnd as [|? ? Hx Hl]; subst. rewrite has_session_id_Some.
  destruct Hin as [-> | Hin].
  - rewrite Z.eqb_refl. reflexivity.
  - destruct (_ =? _) eqn:E; [|apply IH; assumption].
    apply Z.eqb_eq in E. exfalso. apply Hx. rewrite E. apply in_map. exact Hin.
Qed.

(** When its guard passes, [sp_update_high_scores] is one submission:
    the player's, with the duration and the end of the session scored. *)
Lemma sp_update_high_scores_submits u db p gs e :
  NoDup (map GameSession.session_id (game_sessions db)) ->
  select_player_id db u = Some p ->
  scored_session db u = Some gs ->
  GameSession.end_time gs = Some e ->
  0 < scored_correct db u ->
  count (scored_answers db u) = 20 ->
  sp_update_high_scores u db
  = submit (scored_correct db u) (mk_submission p (e - GameSession.start_time gs) e) db.
Proof.
  intros Hpk Hp Hgs He Hpos H20. rewrite sp_update_high_scores_unfold.
  replace (0 <? scored_correct db u) with true by (symmetry; apply Z.ltb_lt; exact Hpos).
  rewrite H20, Z.eqb_refl. simpl andb. cbv iota.
  unfold scored_total_time, submit. rewrite Hp, Hgs. simpl option_map.
  rewrite find_session_by_id.
  - rewrite He. reflexivity.
  - exact Hpk.
  - apply first_greatest_In in Hgs. apply filter_In in Hgs. tauto.
Qed.

(** ** The engine's invariant *)

Lemma engine_invariant_ext db db' :
  game_sessions db' = game_sessions db -> player_answers db' = player_answers db ->
  session_id_seq db' = session_id_seq db ->
  engine_invariant db -> engine_invariant db'.
Proof.
  intros Hg Ha Hq [I1 I2 I3 I4 I5 I6].
  constructor; unfold active_sessions, session_answers in *; rewrite ?Hg, ?Ha, ?Hq; assumption.
Qed.

Lemma engine_invariant_fresh db : fresh db -> engine_invariant db.
Proof.
  intros (Hg & Ha & _).
  constructor; unfold active_sessions; rewrite ?Hg, ?Ha; simpl.
  - intros gs [].
  - intros _. lia.
  - intros gs [].
  - constructor.
  - intros pa [].
  - intros gs [].
Qed.

Lemma engine_invariant_seq db n :
  session_id_seq db <= n -> engine_invariant db -> engine_invariant (set_session_id_seq n db).
Proof.
  intros Hn [I1 I2 I3 I4 I5 I6]. constructor; try assumption.
  simpl. intros gs Hin. specialize (I3 gs Hin). lia.
Qed.

Lemma keeps_invariant_execute {A : Type} (body : M A) name c :
  keeps_invariant body -> connection_invariant c ->
  connection_invariant (snd (execute_pg_procedure c name body)).
Proof.
  intros Hk (Ic & Iw & Hseq). destruct (Hk (working c) Iw) as [Ib Hmono].
  assert (Hroll : connection_invariant (rollback c (snd (body (working c))))).
  { unfold rollback, connection_invariant. simpl.
    assert (I : engine_invariant
                  (set_session_id_seq (session_id_seq (snd (body (working c)))) (committed c)))
      by (apply engine_invariant_seq; [lia | exact Ic]).
    split; [exact I|]. split; [exact I | lia]. }
  unfold execute_pg_procedure.
  destruct (String.prefix "sp_" name).
  - destruct (body (working c)) as [[e|r] db']; simpl in *; [exact Hroll|].
    split; [exact Ib|]. split; [exact Ib | simpl; lia].
  - destruct (_ || _); [|simpl; split; [exact Ic | split; [exact Iw | exact Hseq]]].
    destruct (body (working c)) as [[e|r] db']; simpl in *; [exact Hroll|].
    split; [exact Ic|]. split; [exact Ib | simpl; lia].
Qed.

Lemma length_filter_update_where {A : Type} (P c : A -> bool) (f : A -> A) (l : list A) :
  (forall x, P (f x) = true -> P x = true) ->
  (length (filter P (update_where c f l)) <= length (filter P l))%nat.
Proof.
  intros Hf. unfold update_where. induction l as [|x l IH]; simpl; [lia|].
  destruct (c x).
  - destruct (P (f x)) eqn:E.
    + rewrite (Hf x E). simpl. lia.
    + destruct (P x); simpl; lia.
  - destruct (P x); simpl; lia.
Qed.

Lemma map_update_where_keep {A B : Type} (g : A -> B) (c : A -> bool) (f : A -> A)
    (l : list A) :
  (forall x, g (f x) = g x) -> map g (update_where c f l) = map g l.
Proof.
  intros Hg. unfold update_where. rewrite map_map. apply map_ext.
  intros x. destruct (c x); [apply Hg | reflexivity].
Qed.

Lemma In_update_where_image {A : Type} (c : A -> bool) (f : A -> A) (l : list A) x :
  In x l -> In (if c x then f x else x) (update_where c f l).
Proof. intros H. unfold update_where. apply in_map_iff. exists x. auto. Qed.

Lemma NoDup_map_eq {A B : Type} (g : A -> B) (l : list A) x y :
  NoDup (map g l) -> In x l -> In y l -> g x = g y -> x = y.
Proof.
  induction l as [|z l IH]; simpl; intros Hnd Hx Hy Hg; [contradiction|].
  inversion Hnd as [|? ? Hz Hl]; subst.
  destruct Hx as [<- | Hx], Hy as [<- | Hy]; auto.
  - exfalso. apply Hz. rewrite Hg. apply in_map. exact Hy.
  - exfalso. apply Hz. rewrite <- Hg. apply in_map. exact Hx.
Qed.

Lemma keeps_session_set_completed t : keeps_session (set_completed t).
Proof. intros gs. simpl. repeat split; discriminate. Qed.

Lemma keeps_session_set_inactive : keeps_session set_inactive.
Proof. intros gs. simpl. repeat split; discriminate. Qed.

Lemma keeps_session_set_questions_solved n : keeps_session (set_questions_solved n).
Proof. intros gs. simpl. repeat split; assumption. Qed.

(** Updating session rows in place and replacing the answer rows. *)
Lemma engine_invariant_update db (c : GameSession.row -> bool) f answers' :
  engine_invariant db -> keeps_session f ->
  (forall pa, In pa answers' ->
     exists gs, In gs (game_sessions db)
                /\ GameSession.session_id gs = PlayerAnswer.session_id pa
                /\ GameSession.player_id gs = Some (PlayerAnswer.player_id pa)) ->
  (forall gs, In gs (game_sessions db) ->
     let gs' := if c gs then f gs else gs in
     GameSession.is_active gs' || GameSession.is_completed gs' = true ->
     GameSession.questions_solved gs'
     = count (filter (fun pa => PlayerAnswer.session_id pa =? GameSession.session_id gs')
                answers')) ->
  engine_invariant
    (set_game_sessions (update_where c f (game_sessions db)) (set_player_answers answers' db)).
Proof.
  intros [I1 I2 I3 I4 I5 I6] Hf H5 H6. constructor; simpl.
  - intros gs' Hin Ha. apply In_update_where in Hin. destruct Hin as (gs & Hin & ->).
    destruct (c gs); [|apply I1; assumption].
    destruct (Hf gs) as (_ & _ & Hact). destruct (Hact Ha) as [Ha0 ->].
    apply I1; assumption.
  - intros p. unfold active_sessions. simpl.
    etransitivity; [apply length_filter_update_where | apply (I2 p)].
    intros gs Hp. apply andb_true_iff in Hp. destruct Hp as [Hp Ha].
    destruct (Hf gs) as (_ & Hpl & Hact). rewrite Hpl in Hp.
    rewrite Hp, (proj1 (Hact Ha)). reflexivity.
  - intros gs' Hin. apply In_update_where in Hin. destruct Hin as (gs & Hin & ->).
    specialize (I3 gs Hin). destruct (c gs); [rewrite (proj1 (Hf gs))|]; exact I3.
  - rewrite map_update_where_keep; [exact I4 | intros gs; apply (Hf gs)].
  - intros pa Hin. destruct (H5 pa Hin) as (gs & Hgs & Hid & Hpl).
    exists (if c gs then f gs else gs). split; [apply In_update_where_image; exact Hgs|].
    destruct (c gs); [|auto]. destruct (Hf gs) as (-> & -> & _). auto.
  - intros gs' Hin Hac. apply In_update_where in Hin. destruct Hin as (gs & Hin & ->).
    apply (H6 gs Hin). exact Hac.
Qed.

Lemma is_open_session_of_Some v gs :
  is_open_session_of v gs = true ->
  GameSession.player_id gs = v /\ v <> None
  /\ GameSession.is_completed gs = false /\ GameSession.is_active gs = true.
Proof.
  unfold is_open_session_of. rewrite !andb_true_iff, negb_true_iff.
  intros [[Hp Hc] Ha]. unfold sql_eq in Hp.
  destruct (GameSession.player_id gs) as [x|], v as [y|]; try discriminate.
  apply Z.eqb_eq in Hp. subst. repeat split; auto. discriminate.
Qed.

(** Under the invariant the lookup's row is the only row with its id. *)
Lemma open_session_row db v s gs :
  engine_invariant db -> select_active_session db v = Some s ->
  In gs (game_sessions db) -> GameSession.session_id gs = s ->
  is_open_session_of v gs = true.
Proof.
  intros I Hs Hin Hid. destruct (select_active_session_Some _ _ _ Hs) as (gs0 & Hin0 & Ho & Hid0).
  rewrite (NoDup_map_eq GameSession.session_id _ gs gs0 (inv_session_pk db I) Hin Hin0);
    [exact Ho | congruence].
Qed.

Lemma filter_delete_where_miss {A : Type} (P c : A -> bool) (l : list A) :
  (forall x, c x = true -> P x = false) ->
  filter P (delete_where c l) = filter P l.
Proof.
  intros H. unfold delete_where. induction l as [|x l IH]; simpl; [reflexivity|].
  destruct (c x) eqn:E; simpl.
  - rewrite (H x E). exact IH.
  - destruct (P x); rewrite IH; reflexivity.
Qed.

Lemma keeps_invariant_sp_completing_session u : keeps_invariant (sp_completing_session u).
Proof.
  intros db I. destruct (select_active_session db (select_player_id db u)) as [s|] eqn:Hs.
  - rewrite sp_completing_session_unfold, Hs. simpl. split; [|lia].
    match goal with
    | |- engine_invariant (set_game_sessions ?l db) =>
        apply (engine_invariant_ext
                 (set_game_sessions l (set_player_answers (player_answers db) db)));
          try reflexivity
    end.
    apply engine_invariant_update.
    + exact I.
    + apply keeps_session_set_completed.
    + apply (inv_answer_session db I).
    + intros gs Hin gs' Hac. subst gs'. rewrite has_session_id_Some in *.
      destruct (_ =? s) eqn:E.
      * apply Z.eqb_eq in E. simpl.
        apply (inv_solved db I gs Hin).
        destruct (is_open_session_of_Some _ _ (open_session_row db _ s gs I Hs Hin E))
          as (_ & _ & _ & ->). reflexivity.
      * apply (inv_solved db I gs Hin Hac).
  - rewrite (sp_completing_session_no_session u db Hs). simpl. split; [exact I | lia].
Qed.

Lemma keeps_invariant_sp_reset_player_answers u : keeps_invariant (sp_reset_player_answers u).
Proof.
  intros db I. destruct (select_active_session db (select_player_id db u)) as [s|] eqn:Hs.
  - rewrite sp_reset_player_answers_unfold, Hs. simpl. split; [|lia].
    apply engine_invariant_update.
    + exact I.
    + apply keeps_session_set_inactive.
    + intros pa Hin. apply (inv_answer_session db I). unfold delete_where in Hin.
      apply filter_In in Hin. tauto.
    + intros gs Hin gs' Hac. subst gs'. rewrite has_session_id_Some in *.
      destruct (_ =? s) eqn:E.
      * apply Z.eqb_eq in E. exfalso. simpl in Hac.
        destruct (is_open_session_of_Some _ _ (open_session_row db _ s gs I Hs Hin E))
          as (_ & _ & Hc & _). congruence.
      * rewrite filter_delete_where_miss; [apply (inv_solved db I gs Hin Hac)|].
        intros pa Hpa. unfold answer_of in Hpa. apply andb_true_iff in Hpa.
        destruct Hpa as [_ Hpa]. rewrite sql_eq_Some in Hpa. apply Z.eqb_eq in Hpa.
        rewrite Hpa. rewrite Z.eqb_sym. exact E.
  - rewrite (sp_reset_player_answers_no_session u db Hs). simpl. split; [exact I | lia].
Qed.

Lemma sp_record_player_answers_cases u q a now db :
  snd (sp_record_player_answers u q a now db) = db
  \/ exists p s c,
       select_player_id db u = Some p /\ select_active_session db (Some p) = Some s
       /\ snd (sp_record_player_answers u q a now db)
          = recorded db (PlayerAnswer.mk p q s a c now).
Proof.
  destruct (sp_record_player_answers u q a now db) as [[e|[]] db'] eqn:E.
  - left. revert E. rewrite sp_record_player_answers_unfold. unfold insert_player_answer, raise.
    destruct (select_player_id db u) as [p0|]; [|intros [= _ <-]; reflexivity].
    destruct (select_active_session db (Some p0)); [|intros [= _ <-]; reflexivity].
    destruct (option_map _ _); [|intros [= _ <-]; reflexivity].
    destruct (negb _); [intros [= _ <-]; reflexivity|].
    destruct (existsb _ _); [intros [= _ <-]; reflexivity | discriminate].
  - right. destruct (sp_record_player_answers_ok _ _ _ _ _ _ E)
      as (p & s & c & Hp & Hs & _ & _ & _ & ->).
    exists p, s, (Ascii.eqb a c). auto.
Qed.

Lemma keeps_invariant_sp_record_player_answers u q a now :
  keeps_invariant (sp_record_player_answers u q a now).
Proof.
  intros db I. destruct (sp_record_player_answers_cases u q a now db)
    as [-> | (p & s & c & Hp & Hs & ->)]; [split; [exact I | lia]|].
  split; [|simpl; lia]. unfold recorded. simpl PlayerAnswer.session_id.
  apply engine_invariant_update.
  - exact I.
  - apply keeps_session_set_questions_solved.
  - intros pa Hin. apply in_app_or in Hin. destruct Hin as [Hin | [<- | []]].
    + apply (inv_answer_session db I pa Hin).
    + destruct (select_active_session_Some _ _ _ Hs) as (gs & Hin & Ho & Hid).
      exists gs. simpl. destruct (is_open_session_of_Some _ _ Ho) as (Hpl & _). auto.
  - intros gs Hin gs' Hac. subst gs'. rewrite has_session_id_Some in *.
    destruct (_ =? s) eqn:E.
    + apply Z.eqb_eq in E. simpl. rewrite E. reflexivity.
    + rewrite filter_app. simpl. rewrite Z.eqb_sym, E, app_nil_r.
      apply (inv_solved db I gs Hin Hac).
Qed.

Lemma no_open_no_active db p :
  engine_invariant db -> select_active_session db (Some p) = None ->
  active_sessions db p = [].
Proof.
  intros I Hs. unfold active_sessions. apply existsb_false_filter, not_true_is_false.
  intros E. apply existsb_exists in E. destruct E as (gs & Hin & Hpa).
  apply andb_true_iff in Hpa. destruct Hpa as [Hp Ha].
  pose proof (proj1 (select_active_session_None db (Some p)) Hs gs Hin) as Ho.
  unfold is_open_session_of in Ho.
  rewrite Hp, Ha, (inv_active_open db I gs Hin Ha) in Ho. discriminate.
Qed.

Lemma engine_invariant_insert_session db v now :
  engine_invariant db -> select_active_session db v = None ->
  engine_invariant
    (set_game_sessions
       (game_sessions db ++ [GameSession.mk (session_id_seq db) v now None 0 false true])
       (set_session_id_seq (session_id_seq db + 1) db)).
Proof.
  intros I Hs. pose proof I as [I1 I2 I3 I4 I5 I6]. constructor; simpl.
  - intros gs Hin Ha. apply in_app_or in Hin. destruct Hin as [Hin | [<- | []]].
    + apply I1; assumption.
    + reflexivity.
  - intros p. unfold active_sessions. simpl. rewrite filter_app, length_app. simpl.
    destruct v as [p'|]; simpl.
    + destruct (p' =? p) eqn:E; simpl.
      * apply Z.eqb_eq in E. subst p'. fold (active_sessions db p).
        rewrite (no_open_no_active db p I Hs). simpl. lia.
      * specialize (I2 p). unfold active_sessions in I2. lia.
    + specialize (I2 p). unfold active_sessions in I2. lia.
  - intros gs Hin. apply in_app_or in Hin. destruct Hin as [Hin | [<- | []]].
    + specialize (I3 gs Hin). lia.
    + simpl. lia.
  - rewrite map_app. simpl. apply NoDup_app.
    + exact I4.
    + constructor; [intros [] | constructor].
    + intros x Hx [<- | []]. apply in_map_iff in Hx. destruct Hx as (gs & Hid & Hin).
      specialize (I3 gs Hin). lia.
  - intros pa Hin. destruct (I5 pa Hin) as (gs & Hgs & H). exists gs.
    split; [apply in_or_app; left; exact Hgs | exact H].
  - intros gs Hin Hac. apply in_app_or in Hin. destruct Hin as [Hin | [<- | []]].
    + apply I6; assumption.
    + simpl. unfold session_answers. simpl.
      replace (filter _ (player_answers db)) with (@nil PlayerAnswer.row); [reflexivity|].
      symmetry. apply existsb_false_filter, not_true_is_false. intros E.
      apply existsb_exists in E. destruct E as (pa & Hpa & Hid). apply Z.eqb_eq in Hid.
      destruct (I5 pa Hpa) as (gs & Hgs & Hgid & _). specialize (I3 gs Hgs). lia.
Qed.

Lemma snd_fn_get_unanswered_questions u now order db :
  snd (fn_get_unanswered_questions u now order db)
  = snd (get_or_create_session (select_player_id db u) now db).
Proof.
  unfold fn_get_unanswered_questions, bind, get.
  destruct (get_or_create_session _ now db) as [[e|s] db1]; [reflexivity|].
  unfold limit. destruct (_ <? 0); reflexivity.
Qed.

Lemma keeps_invariant_get_or_create_session v now :
  keeps_invariant (get_or_create_session v now).
Proof.
  intros db I. unfold get_or_create_session, bind, get.
  destruct (select_active_session db v) as [s|] eqn:Hs; [split; [exact I | simpl; lia]|].
  unfold insert_game_session. destruct (existsb _ _); simpl.
  - split; [apply engine_invariant_seq; [lia | exact I] | lia].
  - split; [apply engine_invariant_insert_session; assumption | lia].
Qed.

Lemma keeps_invariant_fn_get_unanswered_questions u now order :
  keeps_invariant (fn_get_unanswered_questions u now order).
Proof.
  intros db I. rewrite snd_fn_get_unanswered_questions.
  apply keeps_invariant_get_or_create_session. exact I.
Qed.

Lemma update_or_insert_high_score_frame score v t e db :
  same_but_high_scores db (snd (update_or_insert_high_score score v t e db)).
Proof.
  unfold update_or_insert_high_score, bind, get, update_high_score, insert_high_score, raise.
  destruct t, e; simpl;
    repeat match goal with
           | |- context [if ?b then _ else _] => destruct b
           end; repeat split.
Qed.

Lemma sp_update_high_scores_frame u db :
  same_but_high_scores db (snd (sp_update_high_scores u db)).
Proof.
  rewrite sp_update_high_scores_unfold. destruct (_ && _).
  - apply update_or_insert_high_score_frame.
  - repeat split.
Qed.

Lemma keeps_invariant_sp_update_high_scores u : keeps_invariant (sp_update_high_scores u).
Proof.
  intros db I. destruct (sp_update_high_scores_frame u db) as (_ & _ & Hg & Ha & Hq).
  split; [apply (engine_invariant_ext db); assumption | lia].
Qed.

Lemma keeps_invariant_fn_get_correct_answer_count u :
  keeps_invariant (fn_get_correct_answer_count u).
Proof. intros db I. simpl. split; [exact I | lia]. Qed.

Lemma connection_invariant_run_op c op :
  connection_invariant c -> connection_invariant (run_op c op).
Proof.
  intros I. destruct op; unfold run_op; apply keeps_invariant_execute; try exact I.
  - apply keeps_invariant_fn_get_unanswered_questions.
  - apply keeps_invariant_sp_record_player_answers.
  - apply keeps_invariant_sp_completing_session.
  - apply keeps_invariant_sp_reset_player_answers.
  - apply keeps_invariant_fn_get_correct_answer_count.
  - apply keeps_invariant_sp_update_high_scores.
Qed.

Lemma connection_invariant_run_ops ops : forall c,
  connection_invariant c -> connection_invariant (run_ops ops c).
Proof.
  induction ops as [|op ops IH]; intros c I; [exact I|].
  simpl. apply IH, connection_invariant_run_op, I.
Qed.

(** Every state the engine reaches satisfies the invariant. *)
Lemma engine_reachable_invariant c : engine_reachable c -> connection_invariant c.
Proof.
  intros (db0 & ops & Hf & ->). apply connection_invariant_run_ops.
  pose proof (engine_invariant_fresh db0 Hf) as I.
  split; [exact I|]. split; [exact I | simpl; lia].
Qed.

(** In a reachable state an open session's answers are its player's
    and its questions_solved is their number. *)
Lemma engine_reachable_open_session c p s :
  engine_reachable c -> select_active_session (working c) (Some p) = Some s ->
  session_answers_owned (working c) p s /\ solved_is_live_count (working c) s.
Proof.
  intros Hr Hs. destruct (engine_reachable_invariant c Hr) as (_ & I & _). split.
  - intros pa Hin Hid. destruct (inv_answer_session _ I pa Hin) as (gs & Hgs & Hgid & Hpl).
    assert (Ho : is_open_session_of (Some p) gs = true)
      by (apply (open_session_row _ _ s gs I Hs Hgs); congruence).
    destruct (is_open_session_of_Some _ _ Ho) as (Hp & _). congruence.
  - intros gs Hin Hid. rewrite <- Hid. apply (inv_solved _ I gs Hin).
    destruct (is_open_session_of_Some _ _ (open_session_row _ _ s gs I Hs Hin Hid))
      as (_ & _ & _ & ->). reflexivity.
Qed.

Lemma length_le_1_eq {A : Type} (l : list A) x y :
  (length l <= 1)%nat -> In x l -> In y l -> x = y.
Proof.
  destruct l as [|a [|b l]]; simpl; intros H Hx Hy; try lia; try contradiction.
  destruct Hx as [<- | []], Hy as [<- | []]. reflexivity.
Qed.

(** The session row the INSERT of [fn_get_unanswered_questions] adds. *)
Lemma fn_get_unanswered_questions_new db u now order :
  engine_invariant db ->
  select_active_session db (select_player_id db u) = None ->
  fn_get_unanswered_questions u now order db
  = (inr (map (fun q => (Question.question_id q, Question.correct_answer q))
            (firstn 20 (order (questions db)))),
     set_game_sessions
       (game_sessions db
        ++ [GameSession.mk (session_id_seq db) (select_player_id db u) now None 0 false true])
       (set_session_id_seq (session_id_seq db + 1) db)).
Proof.
  intros I Hs. unfold fn_get_unanswered_questions, get_or_create_session, bind, get.
  rewrite Hs. unfold insert_game_session.
  assert (Hid : existsb (fun gs => GameSession.session_id gs =? session_id_seq db)
                  (game_sessions (set_session_id_seq (session_id_seq db + 1) db)) = false).
  { apply not_true_is_false. intros E. apply existsb_exists in E.
    destruct E as (gs & Hin & Hid). apply Z.eqb_eq in Hid.
    pose proof (inv_session_ids _ I gs Hin). lia. }
  rewrite Hid. cbv beta iota zeta.
  assert (Hnone : filter (answer_of (select_player_id db u) (Some (session_id_seq db)))
                    (player_answers db) = []).
  { apply existsb_false_filter, not_true_is_false. intros E. apply existsb_exists in E.
    destruct E as (pa & Hin & Ha). unfold answer_of in Ha.
    apply andb_true_iff in Ha. destruct Ha as [_ Ha]. rewrite sql_eq_Some in Ha.
    apply Z.eqb_eq in Ha.
    destruct (inv_answer_session _ I pa Hin) as (gs & Hgs & Hgid & _).
    pose proof (inv_session_ids _ I gs Hgs). lia. }
  simpl player_answers. simpl questions. unfold not_answered. simpl player_answers.
  rewrite Hnone. simpl map. simpl existsb. simpl negb.
  replace (filter (fun _ : Question.row => true) (questions db)) with (questions db).
  2:{ induction (questions db) as [|x l IH]; simpl; [|rewrite <- IH]; reflexivity. }
  reflexivity.
Qed.

(** ** Whole games *)

(** Twenty right answers: the slot for score 20 is created with the
    time from the start of the session to its last answer. *)
Example all_correct_game :
  high_scores (working (quiz "alice" 0 3000000 20 (connect sample_database)))
  = [HighScore.mk 20 (Some 1) 60000000 60000000].
Proof. reflexivity. Qed.

(** Alice finishes with five right answers in 00:03:10, then Bob with
    five in 00:02:50: the slot for score 5 is Bob's. *)
Example faster_player_takes_slot :
  high_scores
    (working (quiz "bob" 500000000 8500000 5
                (quiz "alice" 0 9500000 5 (connect sample_database))))
  = [HighScore.mk 5 (Some 2) 170000000 670000000].
Proof. reflexivity. Qed.

(** The other way round Bob keeps it. *)
Example slower_player_leaves_slot :
  high_scores
    (working (quiz "alice" 500000000 9500000 5
                (quiz "bob" 0 8500000 5 (connect sample_database))))
  = [HighScore.mk 5 (Some 2) 170000000 170000000].
Proof. reflexivity. Qed.

(** No right answer: [finalize_game] does not call the scoring procedure. *)
Example no_correct_answer_no_score :
  high_scores (working (quiz "alice" 0 3000000 0 (connect sample_database))) = [].
Proof. reflexivity. Qed.

(** * Properties of the specification *)

(** ** Submissions made by [sp_update_high_scores] *)

(** A call that submits is the block [IF EXISTS ... UPDATE ... ELSE
    INSERT] run on what the call read. *)
Lemma sp_update_high_scores_submission db u score s :
  submission_of db u = Some (score, s) ->
  sp_update_high_scores u db = submit score s db.
Proof.
  unfold submission_of. rewrite sp_update_high_scores_unfold.
  destruct ((0 <? scored_correct db u) && (count (scored_answers db u) =? 20));
    [|discriminate].
  destruct (select_player_id db u) as [p|]; [|discriminate].
  destruct (scored_total_time db u) as [t|]; [|discriminate].
  destruct (scored_session db u) as [gs|]; [|discriminate].
  destruct (GameSession.end_time gs) as [e|]; [|discriminate].
  intros [= <- <-]. reflexivity.
Qed.

Lemma submission_of_set_high_scores hs tables u :
  submission_of (set_high_scores hs tables) u = submission_of tables u.
Proof. reflexivity. Qed.

Lemma update_high_scores_all_cons u tables rest db :
  update_high_scores_all ((u, tables) :: rest) db
  = bind (sp_update_high_scores u) (fun _ => update_high_scores_all rest)
      (set_high_scores (high_scores db) tables).
Proof. reflexivity. Qed.

(** The first of the fastest among the holder and the submitters is
    what keeping the faster, one submission at a time, ends with. *)
Lemma keep_faster_first_fastest subs : forall cur,
  exists before after,
    cur :: subs = before ++ fold_left keep_faster subs cur :: after
    /\ (forall s, In s before -> sub_time (fold_left keep_faster subs cur) < sub_time s)
    /\ (forall s, In s after -> sub_time (fold_left keep_faster subs cur) <= sub_time s).
Proof.
  induction subs as [|s subs IH]; intros cur.
  - exists [], []. cbn [fold_left app]. split; [reflexivity|]. split; intros x [].
  - cbn [fold_left]. unfold keep_faster at 2 4 6.
    destruct (sub_time s <? sub_time cur) eqn:E.
    + apply Z.ltb_lt in E. destruct (IH s) as (before & after & Hdec & Hb & Ha).
      remember (fold_left keep_faster subs s) as best eqn:Ebest.
      assert (Hbs : sub_time best <= sub_time s).
      { assert (Hin : In s (before ++ best :: after))
          by (rewrite <- Hdec; left; reflexivity).
        apply in_app_or in Hin. destruct Hin as [Hin | [E' | Hin]].
        - apply Hb in Hin. lia.
        - rewrite E'. lia.
        - apply Ha, Hin. }
      exists (cur :: before), after.
      split; [cbn [app]; rewrite <- Hdec; reflexivity|].
      split; [intros x [E' | Hx]; [rewrite <- E'; lia | apply Hb, Hx] | exact Ha].
    + apply Z.ltb_ge in E. destruct (IH cur) as (before & after & Hdec & Hb & Ha).
      remember (fold_left keep_faster subs cur) as best eqn:Ebest.
      destruct before as [|c before]; cbn [app] in Hdec; injection Hdec as Hc Hsubs.
      * exists [], (s :: subs). rewrite <- Hc. cbn [app].
        split; [reflexivity|]. split; [intros x []|].
        intros x [E' | Hx]; [rewrite <- E'; exact E|].
        rewrite Hc. apply Ha. rewrite <- Hsubs. exact Hx.
      * assert (Hbc : sub_time best < sub_time cur)
          by (apply Hb; left; symmetry; exact Hc).
        exists (cur :: s :: before), after.
        split; [cbn [app]; rewrite Hsubs; reflexivity|].
        split; [|exact Ha].
        intros x [E' | [E' | Hx]];
          [rewrite <- E'; exact Hbc | rewrite <- E'; lia | apply Hb; right; exact Hx].
Qed.

Lemma last_call_default (call : string * database) calls d d' :
  last (call :: calls) d = last (call :: calls) d'.
Proof.
  revert call. induction calls as [|c calls IH]; intros call; [reflexivity|].
  change (last (c :: calls) d = last (c :: calls) d'). apply IH.
Qed.

(** From an occupied slot, calls that each submit for [score] keep the
    faster of holder and submitter, call after call, and touch no
    other slot; every call succeeds and the other tables are those of
    the last call. *)
Lemma update_high_scores_all_occupied score calls subs :
  Forall2 (fun call s => submission_of (snd call) (fst call) = Some (score, s)) calls subs ->
  forall db cur,
    slot db score = [slot_of score cur] ->
    exists db',
      update_high_scores_all calls db = (inr tt, db')
      /\ slot db' score = [slot_of score (fold_left keep_faster subs cur)]
      /\ (forall score', score' <> score -> slot db' score' = slot db score')
      /\ same_but_high_scores (snd (last calls (EmptyString, db))) db'.
Proof.
  induction 1 as [|[u tables] s calls subs Hs Hrest IH]; intros db cur Hr.
  - exists db. cbn [update_high_scores_all fold_left last snd].
    split; [reflexivity|]. split; [exact Hr|]. split; [reflexivity|].
    apply same_but_high_scores_refl.
  - cbn [fst snd] in Hs. rewrite update_high_scores_all_cons. unfold bind.
    remember (set_high_scores (high_scores db) tables) as db0 eqn:E0.
    assert (Hs0 : submission_of db0 u = Some (score, s))
      by (rewrite E0, submission_of_set_high_scores; exact Hs).
    assert (Hr0 : slot db0 score = [slot_of score cur]) by (rewrite E0; exact Hr).
    rewrite (sp_update_high_scores_submission db0 u score s Hs0).
    destruct (submit_occupied db0 score cur s Hr0) as (db1 & Hrun & Hslot & Hother & Hsame).
    rewrite Hrun. fold (keep_faster cur s) in Hslot.
    destruct (IH db1 (keep_faster cur s) Hslot) as (db' & Hrun' & Hslot' & Hother' & Hsame').
    exists db'. split; [exact Hrun'|]. split; [exact Hslot'|]. split.
    + intros score' Hne. rewrite (Hother' score' Hne), (Hother score' Hne), E0.
      reflexivity.
    + destruct calls as [|call calls].
      * cbn [last snd] in *.
        apply (same_but_high_scores_trans tables db0 db');
          [rewrite E0; repeat split | ].
        apply (same_but_high_scores_trans db0 db1 db'); [exact Hsame | exact Hsame'].
      * change (last ((u, tables) :: call :: calls) (EmptyString, db))
          with (last (call :: calls) (EmptyString, db)).
        rewrite (last_call_default call calls _ (EmptyString, db1)). exact Hsame'.
Qed.

(** C1. For a score between 1 and 20, calls of [sp_update_high_scores]
    that each submit for that score (the caller's latest completed
    session has 20 answer rows, that many correct): a run of them into
    an empty slot succeeds call by call and leaves in the slot the
    least submitted time, with the player and timestamp of the first
    submission that had it, and changes no other slot; on an occupied
    slot, a call whose time is not strictly faster succeeds and leaves
    the database as it was, and a strictly faster one takes the slot
    over and changes nothing else. *)
Theorem leaderboard_slot_first_fastest :
  forall score, 1 <= score <= 20 ->
    (forall db calls subs,
       slot db score = [] -> calls <> [] ->
       Forall2 (fun call s => submission_of (snd call) (fst call) = Some (score, s))
         calls subs ->
       exists best db',
         first_fastest best subs
         /\ update_high_scores_all calls db = (inr tt, db')
         /\ slot db' score = [slot_of score best]
         /\ (forall score', score' <> score -> slot db' score' = slot db score')
         /\ same_but_high_scores (snd (last calls (EmptyString, db))) db')
    /\ (forall db u r0 s,
          slot db score = [r0] -> submission_of db u = Some (score, s) ->
          HighScore.total_time r0 <= sub_time s ->
          sp_update_high_scores u db = (inr tt, db))
    /\ (forall db u r0 s,
          slot db score = [r0] -> submission_of db u = Some (score, s) ->
          sub_time s < HighScore.total_time r0 ->
          exists db',
            sp_update_high_scores u db = (inr tt, db')
            /\ slot db' score = [slot_of score s]
            /\ (forall score', score' <> score -> slot db' score' = slot db score')
            /\ same_but_high_scores db db').
Proof.
  intros score Hs. split; [|split].
  - intros db calls subs He Hne Hall.
    destruct Hall as [|[u tables] s calls subs Hsub Hrest]; [contradiction|].
    cbn [fst snd] in Hsub.
    remember (set_high_scores (high_scores db) tables) as db0 eqn:E0.
    assert (Hs0 : submission_of db0 u = Some (score, s))
      by (rewrite E0, submission_of_set_high_scores; exact Hsub).
    assert (He0 : slot db0 score = []) by (rewrite E0; exact He).
    pose (db1 := set_high_scores (high_scores db0 ++ [slot_of score s]) db0).
    assert (H1 : slot db1 score = [slot_of score s]).
    { unfold db1. rewrite slot_set_high_scores, filter_app. fold (slot db0 score).
      rewrite He0. cbn [app filter slot_of HighScore.score_id]. rewrite Z.eqb_refl.
      reflexivity. }
    destruct (update_high_scores_all_occupied score calls subs Hrest db1 s H1)
      as (db' & Hrun & Hslot & Hother & Hsame).
    destruct (keep_faster_first_fastest subs s) as (before & after & Hdec & Hb & Ha).
    exists (fold_left keep_faster subs s), db'.
    split; [exists before, after; auto|].
    split.
    { rewrite update_high_scores_all_cons. unfold bind. rewrite <- E0.
      rewrite (sp_update_high_scores_submission db0 u score s Hs0).
      rewrite (submit_empty_slot db0 score s Hs He0). exact Hrun. }
    split; [exact Hslot|]. split.
    + intros score' Hne'. rewrite (Hother score' Hne').
      unfold db1. rewrite slot_set_high_scores, filter_app.
      cbn [filter slot_of HighScore.score_id].
      replace (score =? score') with false by (symmetry; apply Z.eqb_neq; lia).
      rewrite app_nil_r, E0. reflexivity.
    + destruct calls as [|call calls].
      * cbn [last snd] in *.
        apply (same_but_high_scores_trans tables db1 db'); [|exact Hsame].
        unfold db1. rewrite E0. repeat split.
      * change (last ((u, tables) :: call :: calls) (EmptyString, db))
          with (last (call :: calls) (EmptyString, db)).
        rewrite (last_call_default call calls _ (EmptyString, db1)). exact Hsame.
  - intros db u r0 s Hr Hsub Hle.
    rewrite (sp_update_high_scores_submission db u score s Hsub).
    apply (submit_not_faster _ _ _ _ Hr Hle).
  - intros db u r0 s Hr Hsub Hlt.
    rewrite (sp_update_high_scores_submission db u score s Hsub).
    eexists. split; [|split; [|split]].
    + apply (submit_faster _ _ _ _ Hr Hlt).
    + rewrite slot_set_high_scores. apply (slot_after_faster _ _ _ _ Hr Hlt).
    + intros score' Hne. rewrite slot_set_high_scores.
      apply other_slot_after_faster. exact Hne.
    + repeat split.
Qed.

Lemma leaderboard_slot_first_fastest_witness :
  1 <= 10 <= 20
  /\ submission_of alice_done "alice" = Some (10, mk_submission 1 20000000 20000100)
  /\ submission_of bob_done "bob" = Some (10, mk_submission 2 10000000 60000000)
  /\ exists best db',
       first_fastest best
         [mk_submission 1 20000000 20000100; mk_submission 2 10000000 60000000]
       /\ update_high_scores_all [("alice"%string, alice_done); ("bob"%string, bob_done)]
            sample_database
          = (inr tt, db')
       /\ slot db' 10 = [slot_of 10 best]
       /\ (forall score', score' <> 10 -> slot db' score' = slot sample_database score')
       /\ same_but_high_scores bob_done db'.
Proof.
  assert (Ha : submission_of alice_done "alice"
               = Some (10, mk_submission 1 20000000 20000100))
    by (vm_compute; reflexivity).
  assert (Hb : submission_of bob_done "bob"
               = Some (10, mk_submission 2 10000000 60000000))
    by (vm_compute; reflexivity).
  split; [lia|]. split; [exact Ha|]. split; [exact Hb|].
  apply (proj1 (leaderboard_slot_first_fastest 10 ltac:(lia))
           sample_database [("alice"%string, alice_done); ("bob"%string, bob_done)]
           [mk_submission 1 20000000 20000100; mk_submission 2 10000000 60000000]).
  - reflexivity.
  - discriminate.
  - constructor; [exact Ha|]. constructor; [exact Hb | constructor].
Defined.

(** Alice scores 10 in 20 seconds, then bob scores 10 in 10 seconds:
    bob holds the slot. *)
Example score_10_faster_second :
  slot (snd (update_high_scores_all [("alice"%string, alice_done); ("bob"%string, bob_done)]
               sample_database)) 10
  = [HighScore.mk 10 (Some 2) 10000000 60000000].
Proof. vm_compute. reflexivity. Qed.

(** The other way round: bob, who was first and faster, stays. *)
Example score_10_slower_second :
  slot (snd (update_high_scores_all [("bob"%string, bob_done); ("alice"%string, alice_done)]
               sample_database)) 10
  = [HighScore.mk 10 (Some 2) 10000000 60000000].
Proof. vm_compute. reflexivity. Qed.

(** A submits 00:03:10, then B submits 00:02:50: B holds the slot. *)
Example score_5_faster_second :
  submit_all 5 [player_A_5; player_B_5] empty_database
  = (inr tt, set_high_scores [slot_of 5 player_B_5] empty_database).
Proof. reflexivity. Qed.

(** The other way round, and a tie: the earlier holder stays. *)
Example score_5_slower_second :
  submit_all 5 [player_B_5; player_A_5; mk_submission 3 170000000 3000] empty_database
  = (inr tt, set_high_scores [slot_of 5 player_B_5] empty_database).
Proof. reflexivity. Qed.

(** C2. After every successful [sp_record_player_answers] the session
    it recorded into exists and its questions_solved is the number of
    answer rows of that session, in the very state that
    [execute_pg_procedure] commits, whatever the counter was before; K
    calls with distinct existing question ids and valid letters against
    an open session that has no answer row yet all succeed and leave K
    rows and questions_solved = K; and in every state the engine
    reaches, every session that is active or completed has
    questions_solved equal to its number of answer rows. *)
Theorem questions_solved_is_live_count :
  (forall db u q a now db1,
     sp_record_player_answers u q a now db = (inr tt, db1) ->
     exists p s,
       select_player_id db u = Some p
       /\ select_active_session db (Some p) = Some s
       /\ session_rows db1 s <> []
       /\ solved_is_live_count db1 s
       /\ forall conn, working conn = db ->
            execute_pg_procedure conn "sp_record_player_answers"
              (sp_record_player_answers u q a now)
            = (inr None, mk_connection db1 db1))
  /\ (forall db u p s calls,
        select_player_id db u = Some p ->
        select_active_session db (Some p) = Some s ->
        session_answers db s = [] ->
        calls <> [] ->
        NoDup (map (fun x => fst (fst x)) calls) ->
        (forall q a now, In (q, a, now) calls ->
           is_abcd a = true /\ select_correct_answer db q <> None) ->
        exists db',
          record_all u calls db = (inr tt, db')
          /\ count (session_answers db' s) = count calls
          /\ session_rows db' s <> []
          /\ forall gs, In gs (game_sessions db') -> GameSession.session_id gs = s ->
               GameSession.questions_solved gs = count calls)
  /\ (forall c, engine_reachable c ->
        forall gs, In gs (game_sessions (working c)) ->
          GameSession.is_active gs || GameSession.is_completed gs = true ->
          GameSession.questions_solved gs
          = count (session_answers (working c) (GameSession.session_id gs))).
Proof.
  split; [|split].
  - intros db u q a now db1 H1.
    destruct (sp_record_player_answers_ok _ _ _ _ _ _ H1)
      as (p & s & c & Hp & Hs & Hc & Ha & Hnew & ->).
    exists p, s. split; [exact Hp|]. split; [exact Hs|]. split; [|split].
    + apply session_rows_recorded_nonempty, (select_active_session_rows _ _ _ Hs).
    + apply (solved_is_live_count_recorded db (PlayerAnswer.mk p q s a (Ascii.eqb a c) now)).
    + intros conn Hw. unfold execute_pg_procedure. simpl String.prefix. cbv iota.
      rewrite Hw, H1. reflexivity.
  - intros db u p s calls Hp Hs Hempty Hne Hnd Hcalls.
    destruct (record_all_run u p s calls db Hp Hs Hnd)
      as (db' & Hrun & Hcount & Hrows & Hsolved).
    + intros q a now Hin. destruct (Hcalls q a now Hin) as [Ha Hc].
      split; [exact Ha|]. split; [exact Hc|].
      unfold answer_rows. apply existsb_false_filter, not_true_is_false.
      intros E. apply existsb_exists in E. destruct E as (pa & Hpa & Hk).
      unfold same_answer_key in Hk. apply andb_true_iff in Hk. destruct Hk as [_ Hk].
      assert (Hin' : In pa (session_answers db s)) by (apply filter_In; auto).
      rewrite Hempty in Hin'. contradiction.
    + rewrite Hempty in Hcount. change (count (@nil PlayerAnswer.row)) with 0 in Hcount.
      exists db'. split; [exact Hrun|]. split; [lia|]. split; [exact Hrows|].
      intros gs Hin Hid. rewrite (Hsolved (or_introl Hne) gs Hin Hid). lia.
  - intros c Hr. destruct (engine_reachable_invariant c Hr) as (_ & I & _).
    apply (inv_solved _ I).
Qed.

Lemma questions_solved_is_live_count_witness :
  (sp_record_player_answers "alice" 3 "b" 555 (working (playing 2))
   = (inr tt, snd (sp_record_player_answers "alice" 3 "b" 555 (working (playing 2))))
   /\ exists p s,
        select_player_id (working (playing 2)) "alice" = Some p
        /\ select_active_session (working (playing 2)) (Some p) = Some s
        /\ session_rows (snd (sp_record_player_answers "alice" 3 "b" 555
                                (working (playing 2)))) s <> []
        /\ solved_is_live_count (snd (sp_record_player_answers "alice" 3 "b" 555
                                        (working (playing 2)))) s
        /\ forall conn, working conn = working (playing 2) ->
             execute_pg_procedure conn "sp_record_player_answers"
               (sp_record_player_answers "alice" 3 "b" 555)
             = (inr None,
                mk_connection
                  (snd (sp_record_player_answers "alice" 3 "b" 555 (working (playing 2))))
                  (snd (sp_record_player_answers "alice" 3 "b" 555 (working (playing 2))))))
  /\ (exists db',
        record_all "alice" three_calls (working (playing 0)) = (inr tt, db')
        /\ count (session_answers db' 1) = count three_calls
        /\ session_rows db' 1 <> []
        /\ forall gs, In gs (game_sessions db') -> GameSession.session_id gs = 1 ->
             GameSession.questions_solved gs = count three_calls)
  /\ (forall gs, In gs (game_sessions (working completed_game)) ->
        GameSession.is_active gs || GameSession.is_completed gs = true ->
        GameSession.questions_solved gs
        = count (session_answers (working completed_game) (GameSession.session_id gs))).
Proof.
  split; [|split].
  - assert (H : sp_record_player_answers "alice" 3 "b" 555 (working (playing 2))
                = (inr tt, snd (sp_record_player_answers "alice" 3 "b" 555
                                  (working (playing 2)))))
      by (vm_compute; reflexivity).
    split; [exact H|].
    exact (proj1 questions_solved_is_live_count _ _ _ _ _ _ H).
  - apply (proj1 (proj2 questions_solved_is_live_count) (working (playing 0)) "alice"%string 1 1).
    + vm_compute; reflexivity.
    + vm_compute; reflexivity.
    + vm_compute; reflexivity.
    + discriminate.
    + simpl. repeat constructor; simpl; intuition discriminate.
    + intros q a now [H | [H | [H | []]]]; injection H as <- <- <-;
        (split; [reflexivity | vm_compute; discriminate]).
  - apply (proj2 (proj2 questions_solved_is_live_count) completed_game).
    exists sample_database, (game "alice" 100 20 ++ [completing_session "alice"%string]).
    split; [repeat split | reflexivity].
Defined.

(** A reset deletes the rows of the session and leaves its counter:
    after alice's next recorded answer, session 1 still says that two
    questions are solved and has no answer row. *)
Lemma reset_session_keeps_questions_solved :
  engine_reachable reset_then_play
  /\ reset_then_play
     = run_op (run_ops (removelast reset_then_play_ops) (connect sample_database))
         (record_answer "alice" 3 "a" 201)
  /\ fst (sp_record_player_answers "alice" 3 "a" 201
            (working (run_ops (removelast reset_then_play_ops) (connect sample_database))))
     = inr tt
  /\ In (GameSession.mk 1 (Some 1) 100 None 2 false false)
       (game_sessions (working reset_then_play))
  /\ count (session_answers (working reset_then_play) 1) = 0
  /\ committed reset_then_play = working reset_then_play.
Proof.
  split; [exists sample_database, reset_then_play_ops; split; [repeat split | reflexivity]|].
  split; [reflexivity|]. split; [vm_compute; reflexivity|].
  split; [vm_compute; left; reflexivity|]. split; vm_compute; reflexivity.
Qed.



(** C4. After a successful [sp_record_player_answers], a second call
    for the same player and question (any valid letter, any clock)
    fails with the primary key's unique violation and changes nothing:
    the key still has exactly one row, the first call's;
    [execute_pg_procedure] raises the error and leaves the connection
    at the first call's commit. *)
Theorem record_twice_unique_violation :
  forall db u q a now db1,
    sp_record_player_answers u q a now db = (inr tt, db1) ->
    forall a' now', is_abcd a' = true ->
      sp_record_player_answers u q a' now' db1 = (inl unique_violation, db1)
      /\ (exists p s c,
            select_player_id db1 u = Some p
            /\ select_active_session db1 (Some p) = Some s
            /\ answer_rows db1 p q s = [PlayerAnswer.mk p q s a c now])
      /\ forall conn,
           working conn = db ->
           let conn1 := snd (execute_pg_procedure conn "sp_record_player_answers"
                               (sp_record_player_answers u q a now)) in
           execute_pg_procedure conn1 "sp_record_player_answers"
             (sp_record_player_answers u q a' now')
           = (inl (DatabaseError unique_violation), conn1)
           /\ conn1 = mk_connection db1 db1.
Proof.
  intros db u q a now db1 H1 a' now' Ha'.
  destruct (sp_record_player_answers_ok _ _ _ _ _ _ H1)
    as (p & s & c & Hp & Hs & Hc & Ha & Hnew & ->).
  set (NEW := PlayerAnswer.mk p q s a (Ascii.eqb a c) now) in *.
  assert (Hrows : answer_rows (recorded db NEW) p q s = [NEW]).
  { unfold answer_rows. rewrite player_answers_recorded, filter_app.
    fold (answer_rows db p q s). rewrite Hnew. simpl.
    unfold NEW at 1. rewrite same_answer_key_refl. reflexivity. }
  assert (H2 : sp_record_player_answers u q a' now' (recorded db NEW)
               = (inl unique_violation, recorded db NEW)).
  { rewrite (sp_record_player_answers_run u q a' now' _ p s c);
      rewrite ?select_active_session_recorded; auto.
    destruct (existsb _ _) eqn:E; [reflexivity|].
    apply existsb_false_filter in E. fold (answer_rows (recorded db NEW) p q s) in E.
    rewrite Hrows in E. discriminate. }
  split; [exact H2|]. split.
  - exists p, s, (Ascii.eqb a c). rewrite select_active_session_recorded. auto.
  - intros conn Hw. unfold execute_pg_procedure. simpl String.prefix. cbv iota.
    rewrite Hw, H1. simpl. rewrite H2. unfold rollback. simpl committed.
    rewrite set_session_id_seq_same. split; reflexivity.
Qed.

Lemma record_twice_unique_violation_witness :
  sp_record_player_answers "alice" 3 "b" 555 (working (playing 2))
  = (inr tt, snd (sp_record_player_answers "alice" 3 "b" 555 (working (playing 2))))
  /\ is_abcd "c" = true
  /\ sp_record_player_answers "alice" 3 "c" 777
       (snd (sp_record_player_answers "alice" 3 "b" 555 (working (playing 2))))
     = (inl unique_violation,
        snd (sp_record_player_answers "alice" 3 "b" 555 (working (playing 2))))
  /\ (exists p s c,
        select_player_id
          (snd (sp_record_player_answers "alice" 3 "b" 555 (working (playing 2)))) "alice"
        = Some p
        /\ select_active_session
             (snd (sp_record_player_answers "alice" 3 "b" 555 (working (playing 2))))
             (Some p) = Some s
        /\ answer_rows
             (snd (sp_record_player_answers "alice" 3 "b" 555 (working (playing 2)))) p 3 s
           = [PlayerAnswer.mk p 3 s "b" c 555])
  /\ forall conn,
       working conn = working (playing 2) ->
       let conn1 := snd (execute_pg_procedure conn "sp_record_player_answers"
                           (sp_record_player_answers "alice" 3 "b" 555)) in
       execute_pg_procedure conn1 "sp_record_player_answers"
         (sp_record_player_answers "alice" 3 "c" 777)
       = (inl (DatabaseError unique_violation), conn1)
       /\ conn1 = mk_connection
                    (snd (sp_record_player_answers "alice" 3 "b" 555 (working (playing 2))))
                    (snd (sp_record_player_answers "alice" 3 "b" 555 (working (playing 2)))).
Proof.
  assert (H : sp_record_player_answers "alice" 3 "b" 555 (working (playing 2))
              = (inr tt, snd (sp_record_player_answers "alice" 3 "b" 555
                                (working (playing 2)))))
    by (vm_compute; reflexivity).
  split; [exact H|]. split; [reflexivity|].
  exact (record_twice_unique_violation _ _ _ _ _ _ H "c"%char 777 eq_refl).
Defined.

(** C5. [sp_completing_session] on a player's open session (whatever
    its questions_solved, 20 included) marks every row of that session
    completed and inactive and sets its end_time to the latest
    answered_at of the session's answer rows, keeping its other columns
    and every other row and table; without an open session the call
    succeeds and changes nothing, so a second call right after the
    first is a no-op. *)
Theorem completing_session_finalizes :
  forall db u,
    (forall s, select_active_session db (select_player_id db u) = Some s ->
       exists db',
         sp_completing_session u db = (inr tt, db')
         /\ same_but_game_sessions db db'
         /\ session_rows db' s <> []
         /\ Forall2
              (fun gs gs' =>
                 if GameSession.session_id gs =? s
                 then same_but_completion gs gs'
                      /\ GameSession.is_completed gs' = true
                      /\ GameSession.is_active gs' = false
                      /\ latest_answer_time db s (GameSession.end_time gs')
                 else gs' = gs)
              (game_sessions db) (game_sessions db'))
    /\ (select_active_session db (select_player_id db u) = None ->
        sp_completing_session u db = (inr tt, db))
    /\ (forall gs db',
          filter (is_open_session_of (select_player_id db u)) (game_sessions db) = [gs] ->
          sp_completing_session u db = (inr tt, db') ->
          sp_completing_session u db' = (inr tt, db')).
Proof.
  intros db u. split; [|split].
  - intros s Hs. eexists. split; [apply sp_completing_session_unfold|].
    rewrite Hs. split; [repeat split|]. split.
    + destruct (select_active_session_Some _ _ _ Hs) as (gs & Hin & _ & Hid).
      apply (session_rows_nonempty _ s (set_completed
               (sql_max (map PlayerAnswer.answered_at
                           (filter (answer_in_session (Some s)) (player_answers db)))) gs));
        [|exact Hid].
      simpl. unfold update_where. apply in_map_iff. exists gs. split; [|exact Hin].
      rewrite has_session_id_Some, Hid, Z.eqb_refl. reflexivity.
    + simpl. apply Forall2_update_where. intros gs _.
      rewrite has_session_id_Some. destruct (_ =? s); [|reflexivity].
      split; [repeat split|]. split; [reflexivity|]. split; [reflexivity|].
      apply latest_answer_time_sql_max.
  - apply sp_completing_session_no_session.
  - intros gs db' Hone. rewrite sp_completing_session_unfold. intros [= <-].
    apply sp_completing_session_no_session.
    match goal with
    | |- select_active_session ?d _ = None =>
        change (select_player_id d u) with (select_player_id db u)
    end.
    apply select_active_session_None. simpl. intros gs' Hin.
    apply In_update_where in Hin. destruct Hin as (r0 & Hr0 & ->).
    destruct (has_session_id _ r0) eqn:Hc.
    + unfold is_open_session_of. simpl. apply andb_false_r.
    + destruct (is_open_session_of (select_player_id db u) r0) eqn:Ho; [|reflexivity].
      assert (Hf : In r0 (filter (is_open_session_of (select_player_id db u))
                            (game_sessions db))) by (apply filter_In; auto).
      rewrite Hone in Hf. destruct Hf as [<- | []].
      unfold select_active_session in Hc. rewrite find_hd_filter, Hone in Hc.
      simpl in Hc. rewrite has_session_id_Some, Z.eqb_refl in Hc. discriminate.
Qed.

Lemma completing_session_finalizes_witness :
  (select_active_session (working (playing 20))
     (select_player_id (working (playing 20)) "alice") = Some 1
   /\ exists db',
        sp_completing_session "alice" (working (playing 20)) = (inr tt, db')
        /\ same_but_game_sessions (working (playing 20)) db'
        /\ session_rows db' 1 <> []
        /\ Forall2
             (fun gs gs' =>
                if GameSession.session_id gs =? 1
                then same_but_completion gs gs'
                     /\ GameSession.is_completed gs' = true
                     /\ GameSession.is_active gs' = false
                     /\ latest_answer_time (working (playing 20)) 1 (GameSession.end_time gs')
                else gs' = gs)
             (game_sessions (working (playing 20))) (game_sessions db'))
  /\ (select_active_session (working completed_game)
        (select_player_id (working completed_game) "alice") = None
      /\ sp_completing_session "alice" (working completed_game)
         = (inr tt, working completed_game))
  /\ (filter (is_open_session_of (select_player_id (working (playing 20)) "alice"))
        (game_sessions (working (playing 20)))
      = [GameSession.mk 1 (Some 1) 100 None 20 false true]
      /\ sp_completing_session "alice" (working completed_game)
         = (inr tt, working completed_game)).
Proof.
  split; [|split].
  - assert (H : select_active_session (working (playing 20))
                  (select_player_id (working (playing 20)) "alice") = Some 1)
      by (vm_compute; reflexivity).
    split; [exact H|].
    exact (proj1 (completing_session_finalizes (working (playing 20)) "alice") 1 H).
  - assert (H : select_active_session (working completed_game)
                  (select_player_id (working completed_game) "alice") = None)
      by (vm_compute; reflexivity).
    split; [exact H|].
    exact (proj1 (proj2 (completing_session_finalizes (working completed_game) "alice")) H).
  - assert (H : filter (is_open_session_of (select_player_id (working (playing 20)) "alice"))
                  (game_sessions (working (playing 20)))
                = [GameSession.mk 1 (Some 1) 100 None 20 false true])
      by (vm_compute; reflexivity).
    split; [exact H|].
    apply (proj2 (proj2 (completing_session_finalizes (working (playing 20)) "alice"))
             _ _ H).
    vm_compute; reflexivity.
Defined.

(** C6. In every state the engine reaches, for a player with an open
    session of at most 20 answer rows: [fn_get_unanswered_questions]
    succeeds, changes nothing, and returns distinct question ids that
    no answer row of the session mentions; it returns
    20 - questions_solved of them when that many unanswered questions
    exist and all of them, without error, when fewer do; on a session
    without answer rows it returns 20 ids as soon as the table holds 20
    questions. *)
Theorem unanswered_questions_for_session :
  forall c u now order p s,
    engine_reachable c ->
    select_player_id (working c) u = Some p ->
    select_active_session (working c) (Some p) = Some s ->
    (forall l, Permutation l (order l)) ->
    NoDup (map Question.question_id (questions (working c))) ->
    count (session_answers (working c) s) <= 20 ->
    exists rows,
      fn_get_unanswered_questions u now order (working c) = (inr rows, working c)
      /\ NoDup (map fst rows)
      /\ (forall q, In q (map fst rows) ->
            In q (map Question.question_id (questions (working c)))
            /\ forall pa, In pa (player_answers (working c)) ->
                 PlayerAnswer.session_id pa = s -> PlayerAnswer.question_id pa <> q)
      /\ (forall gs, In gs (game_sessions (working c)) -> GameSession.session_id gs = s ->
            (20 - GameSession.questions_solved gs <= count (unanswered (working c) s) ->
             count rows = 20 - GameSession.questions_solved gs)
            /\ (count (unanswered (working c) s) < 20 - GameSession.questions_solved gs ->
                Permutation (map Question.question_id (unanswered (working c) s))
                  (map fst rows)))
      /\ (session_answers (working c) s = [] -> 20 <= count (questions (working c)) ->
          count rows = 20).
Proof.
  intros c u now order p s Hr Hp Hs Hperm Hpk Hle.
  destruct (engine_reachable_open_session c p s Hr Hs) as [Hown Hsolved].
  apply (unanswered_questions_general (working c) u now order p s); assumption.
Qed.

Lemma unanswered_questions_for_session_witness :
  engine_reachable (playing 3)
  /\ select_player_id (working (playing 3)) "alice" = Some 1
  /\ select_active_session (working (playing 3)) (Some 1) = Some 1
  /\ count (session_answers (working (playing 3)) 1) <= 20
  /\ exists rows,
       fn_get_unanswered_questions "alice" 5 same_order (working (playing 3))
       = (inr rows, working (playing 3))
       /\ NoDup (map fst rows)
       /\ (forall q, In q (map fst rows) ->
             In q (map Question.question_id (questions (working (playing 3))))
             /\ forall pa, In pa (player_answers (working (playing 3))) ->
                  PlayerAnswer.session_id pa = 1 -> PlayerAnswer.question_id pa <> q)
       /\ (forall gs, In gs (game_sessions (working (playing 3))) ->
             GameSession.session_id gs = 1 ->
             (20 - GameSession.questions_solved gs <= count (unanswered (working (playing 3)) 1)
              -> count rows = 20 - GameSession.questions_solved gs)
             /\ (count (unanswered (working (playing 3)) 1)
                 < 20 - GameSession.questions_solved gs ->
                 Permutation (map Question.question_id (unanswered (working (playing 3)) 1))
                   (map fst rows)))
       /\ (session_answers (working (playing 3)) 1 = [] ->
           20 <= count (questions (working (playing 3))) -> count rows = 20).
Proof.
  assert (Hr : engine_reachable (playing 3)).
  { exists sample_database, (game "alice" 100 3). split; [repeat split | reflexivity]. }
  assert (Hp : select_player_id (working (playing 3)) "alice" = Some 1)
    by (vm_compute; reflexivity).
  assert (Hs : select_active_session (working (playing 3)) (Some 1) = Some 1)
    by (vm_compute; reflexivity).
  assert (Hle : count (session_answers (working (playing 3)) 1) <= 20)
    by (vm_compute; discriminate).
  split; [exact Hr|]. split; [exact Hp|]. split; [exact Hs|]. split; [exact Hle|].
  apply (unanswered_questions_for_session (playing 3) "alice" 5 same_order 1 1 Hr Hp Hs).
  - intros l. apply Permutation_refl.
  - change (questions (working (playing 3))) with sample_questions.
    unfold sample_questions. rewrite map_map. simpl Question.question_id.
    apply Finite.Injective_map_NoDup; [intros x y; apply Nat2Z.inj | apply seq_NoDup].
  - exact Hle.
Defined.

(** With 21 answer rows in her open session (nothing in
    [sp_record_player_answers] stops the 21st), the call for alice
    fails: [LIMIT 20 - 21]. *)
Lemma unanswered_questions_overfull_session :
  engine_reachable overfull
  /\ select_player_id (working overfull) "alice" = Some 1
  /\ select_active_session (working overfull) (Some 1) = Some 1
  /\ count (session_answers (working overfull) 1) = 21
  /\ count (unanswered (working overfull) 1) = 1
  /\ fn_get_unanswered_questions "alice" 30000000 same_order (working overfull)
     = (inl invalid_row_count_in_limit_clause, working overfull).
Proof.
  split; [exists sample_database, overfull_ops; split; [repeat split | reflexivity]|].
  split; [vm_compute; reflexivity|]. split; [vm_compute; reflexivity|].
  split; [vm_compute; reflexivity|]. split; vm_compute; reflexivity.
Qed.

(** C7. When the player has no session with is_completed = FALSE and
    is_active = TRUE, [sp_record_player_answers] fails on the NULL
    session_id of the row it tries to insert and inserts nothing;
    [execute_pg_procedure] raises the error and rolls back to the last
    commit. *)
Theorem record_without_open_session_fails :
  forall db u q a now,
    (forall gs, In gs (game_sessions db) ->
       sql_eq (GameSession.player_id gs) (select_player_id db u) = true ->
       GameSession.is_completed gs = false -> GameSession.is_active gs = true -> False) ->
    sp_record_player_answers u q a now db = (inl not_null_violation, db)
    /\ forall c, working c = db ->
         execute_pg_procedure c "sp_record_player_answers"
           (sp_record_player_answers u q a now)
         = (inl (DatabaseError not_null_violation), rollback c db)
         /\ player_answers (working (rollback c db)) = player_answers (committed c).
Proof.
  intros db u q a now Hnone.
  assert (H : sp_record_player_answers u q a now db = (inl not_null_violation, db)).
  { apply sp_record_player_answers_no_session, select_active_session_None.
    intros gs Hin. unfold is_open_session_of.
    destruct (sql_eq _ _) eqn:E1; [|reflexivity].
    destruct (GameSession.is_completed gs) eqn:E2; [reflexivity|].
    destruct (GameSession.is_active gs) eqn:E3; [|reflexivity].
    exfalso. apply (Hnone gs); assumption. }
  split; [exact H|]. intros c Hc. split; [|reflexivity].
  unfold execute_pg_procedure. simpl String.prefix. cbv iota.
  rewrite Hc, H. reflexivity.
Qed.

Lemma record_without_open_session_fails_witness :
  (forall gs, In gs (game_sessions sample_database) ->
     sql_eq (GameSession.player_id gs) (select_player_id sample_database "alice") = true ->
     GameSession.is_completed gs = false -> GameSession.is_active gs = true -> False)
  /\ sp_record_player_answers "alice" 1 "a" 555 sample_database
     = (inl not_null_violation, sample_database)
  /\ forall c, working c = sample_database ->
       execute_pg_procedure c "sp_record_player_answers"
         (sp_record_player_answers "alice" 1 "a" 555)
       = (inl (DatabaseError not_null_violation), rollback c sample_database)
       /\ player_answers (working (rollback c sample_database))
          = player_answers (committed c).
Proof.
  assert (H : forall gs, In gs (game_sessions sample_database) ->
                sql_eq (GameSession.player_id gs)
                  (select_player_id sample_database "alice") = true ->
                GameSession.is_completed gs = false ->
                GameSession.is_active gs = true -> False)
    by (intros gs []).
  split; [exact H|].
  exact (record_without_open_session_fails sample_database "alice" 1 "a"%char 555 H).
Defined.

(** C8. [fn_get_least_correctly_answered_question] returns, once each,
    exactly the questions whose number of correct answers is positive
    and least among the questions that have a correct answer, with that
    number: every question tied for the fewest is in the result. *)
Theorem least_correct_returns_all_tied :
  forall db,
    NoDup (map fst (fn_get_least_correctly_answered_question db))
    /\ forall q c,
         In (q, c) (fn_get_least_correctly_answered_question db)
         <-> (c = number_correct db q /\ 0 < c
              /\ forall q', 0 < number_correct db q' -> c <= number_correct db q').
Proof.
  intros db. unfold fn_get_least_correctly_answered_question. split.
  - apply NoDup_keys_filter, NoDup_correct_counts.
  - intros q c. rewrite filter_In, In_correct_counts. simpl. split.
    + intros [[-> Hpos] Hmin]. split; [reflexivity|]. split; [exact Hpos|].
      intros q' Hq'. destruct (sql_min _) as [m|] eqn:E; [|discriminate].
      simpl in Hmin. apply Z.eqb_eq in Hmin. rewrite Hmin.
      apply (proj2 (sql_min_Some _ _ E)).
      apply in_map_iff. exists (q', number_correct db q'). split; [reflexivity|].
      apply In_correct_counts. auto.
    + intros (-> & Hpos & Hle). split; [auto|].
      destruct (sql_min _) as [m|] eqn:E.
      * simpl. apply Z.eqb_eq. destruct (sql_min_Some _ _ E) as [Hin Hm].
        apply in_map_iff in Hin. destruct Hin as ([q' c'] & Hc' & Hin). simpl in Hc'. subst c'.
        apply In_correct_counts in Hin. destruct Hin as [-> Hpos'].
        assert (H1 : number_correct db q' <= number_correct db q).
        { apply Hm. apply in_map_iff. exists (q, number_correct db q).
          split; [reflexivity|]. apply In_correct_counts. auto. }
        specialize (Hle q' Hpos'). lia.
      * apply sql_min_None in E.
        assert (Hin : In (q, number_correct db q) (correct_counts db))
          by (apply In_correct_counts; auto).
        apply (in_map snd) in Hin. rewrite E in Hin. contradiction.
Qed.

(** Questions 2 and 3 are tied at one correct answer: both are returned. *)
Example least_correct_tied_answers :
  fn_get_least_correctly_answered_question tied_answers = [(2, 1); (3, 1)].
Proof. reflexivity. Qed.

Lemma least_correct_returns_all_tied_witness :
  In (2, 1) (fn_get_least_correctly_answered_question tied_answers)
  /\ 1 = number_correct tied_answers 2 /\ 0 < 1
  /\ forall q', 0 < number_correct tied_answers q' -> 1 <= number_correct tied_answers q'.
Proof.
  assert (H : In (2, 1) (fn_get_least_correctly_answered_question tied_answers))
    by (vm_compute; auto).
  split; [exact H|].
  exact (proj1 (proj2 (least_correct_returns_all_tied tied_answers) 2 1) H).
Defined.

(** C9. [sp_reset_player_answers] for a player with an open session
    deletes exactly the answer rows of that player and session, which
    in every state the engine reaches are all the rows of the session,
    and sets is_active to false on the session, every other column,
    row and table staying as it was; without an open session it
    changes nothing.  The call never fails, and [execute_pg_procedure]
    commits the state in which both changes are made: no committed
    state has one without the other. *)
Theorem reset_deletes_and_deactivates :
  forall db u,
    (forall p s, select_player_id db u = Some p ->
       select_active_session db (Some p) = Some s ->
       exists db',
         sp_reset_player_answers u db = (inr tt, db')
         /\ same_but_sessions_and_answers db db'
         /\ (forall pa, In pa (player_answers db') <->
               In pa (player_answers db)
               /\ ~ (PlayerAnswer.player_id pa = p /\ PlayerAnswer.session_id pa = s))
         /\ ((forall pa, In pa (player_answers db) -> PlayerAnswer.session_id pa = s ->
                PlayerAnswer.player_id pa = p) ->
             forall pa, In pa (player_answers db') -> PlayerAnswer.session_id pa <> s)
         /\ session_rows db' s <> []
         /\ Forall2
              (fun gs gs' =>
                 if GameSession.session_id gs =? s
                 then same_but_is_active gs gs' /\ GameSession.is_active gs' = false
                 else gs' = gs)
              (game_sessions db) (game_sessions db'))
    /\ (select_active_session db (select_player_id db u) = None ->
        sp_reset_player_answers u db = (inr tt, db))
    /\ (forall c, exists db',
          sp_reset_player_answers u (working c) = (inr tt, db')
          /\ execute_pg_procedure c "sp_reset_player_answers" (sp_reset_player_answers u)
             = (inr None, mk_connection db' db'))
    /\ (forall c p s, engine_reachable c -> working c = db ->
          select_player_id db u = Some p -> select_active_session db (Some p) = Some s ->
          session_answers (snd (sp_reset_player_answers u db)) s = []).
Proof.
  intros db u. split; [|split; [|split]].
  - intros p s Hp Hs. eexists. split; [apply sp_reset_player_answers_unfold|].
    rewrite Hp, Hs. split; [repeat split|].
    assert (Hdel : forall pa,
               In pa (delete_where (answer_of (Some p) (Some s)) (player_answers db)) <->
               In pa (player_answers db)
               /\ ~ (PlayerAnswer.player_id pa = p /\ PlayerAnswer.session_id pa = s)).
    { intros pa. unfold delete_where. rewrite filter_In, answer_of_Some.
      rewrite negb_true_iff, andb_false_iff, !Z.eqb_neq.
      destruct (Z.eq_dec (PlayerAnswer.player_id pa) p),
        (Z.eq_dec (PlayerAnswer.session_id pa) s); tauto. }
    split; [exact Hdel|]. split; [|split].
    + simpl. intros Hown pa Hin Hsid. apply Hdel in Hin. destruct Hin as [Hin Hn].
      apply Hn. split; [apply Hown; assumption | exact Hsid].
    + destruct (select_active_session_Some _ _ _ Hs) as (gs & Hin & _ & Hid).
      apply (session_rows_nonempty _ s (set_inactive gs)); [|exact Hid].
      simpl. unfold update_where. apply in_map_iff. exists gs. split; [|exact Hin].
      rewrite has_session_id_Some, Hid, Z.eqb_refl. reflexivity.
    + simpl. apply Forall2_update_where. intros gs _.
      rewrite has_session_id_Some. destruct (_ =? s); [|reflexivity].
      split; [repeat split | reflexivity].
  - apply sp_reset_player_answers_no_session.
  - intros c. eexists. split; [apply sp_reset_player_answers_unfold|].
    unfold execute_pg_procedure. simpl String.prefix. cbv iota.
    rewrite sp_reset_player_answers_unfold. reflexivity.
  - intros c p s Hr <- Hp Hs.
    destruct (engine_reachable_open_session c p s Hr Hs) as [Hown _].
    rewrite sp_reset_player_answers_unfold, Hp, Hs. unfold session_answers. simpl.
    apply existsb_false_filter, not_true_is_false. intros E.
    apply existsb_exists in E. destruct E as (pa & Hin & Hid). apply Z.eqb_eq in Hid.
    unfold delete_where in Hin. apply filter_In in Hin. destruct Hin as [Hin Hkeep].
    rewrite answer_of_Some, (Hown pa Hin Hid), Hid, !Z.eqb_refl in Hkeep. discriminate.
Qed.

Lemma reset_deletes_and_deactivates_witness :
  (select_player_id (working (playing 2)) "alice" = Some 1
   /\ select_active_session (working (playing 2)) (Some 1) = Some 1
   /\ exists db',
        sp_reset_player_answers "alice" (working (playing 2)) = (inr tt, db')
        /\ same_but_sessions_and_answers (working (playing 2)) db'
        /\ (forall pa, In pa (player_answers db') <->
              In pa (player_answers (working (playing 2)))
              /\ ~ (PlayerAnswer.player_id pa = 1 /\ PlayerAnswer.session_id pa = 1))
        /\ ((forall pa, In pa (player_answers (working (playing 2))) ->
               PlayerAnswer.session_id pa = 1 -> PlayerAnswer.player_id pa = 1) ->
            forall pa, In pa (player_answers db') -> PlayerAnswer.session_id pa <> 1)
        /\ session_rows db' 1 <> []
        /\ Forall2
             (fun gs gs' =>
                if GameSession.session_id gs =? 1
                then same_but_is_active gs gs' /\ GameSession.is_active gs' = false
                else gs' = gs)
             (game_sessions (working (playing 2))) (game_sessions db'))
  /\ (select_active_session sample_database (select_player_id sample_database "alice") = None
      /\ sp_reset_player_answers "alice" sample_database = (inr tt, sample_database))
  /\ (engine_reachable (playing 2)
      /\ session_answers (snd (sp_reset_player_answers "alice" (working (playing 2)))) 1 = []).
Proof.
  assert (Hp : select_player_id (working (playing 2)) "alice" = Some 1)
    by (vm_compute; reflexivity).
  assert (Hs : select_active_session (working (playing 2)) (Some 1) = Some 1)
    by (vm_compute; reflexivity).
  split; [|split].
  - split; [exact Hp|]. split; [exact Hs|].
    exact (proj1 (reset_deletes_and_deactivates (working (playing 2)) "alice") 1 1 Hp Hs).
  - assert (H : select_active_session sample_database
                  (select_player_id sample_database "alice") = None)
      by (vm_compute; reflexivity).
    split; [exact H|].
    exact (proj1 (proj2 (reset_deletes_and_deactivates sample_database "alice")) H).
  - assert (Hr : engine_reachable (playing 2)).
    { exists sample_database, (game "alice" 100 2). split; [repeat split | reflexivity]. }
    split; [exact Hr|].
    exact (proj2 (proj2 (proj2 (reset_deletes_and_deactivates (working (playing 2)) "alice")))
             (playing 2) 1 1 Hr eq_refl Hp Hs).
Defined.

(** C10. [sp_update_high_scores] touches [high_scores] only when the
    completed session it selects has exactly 20 answer rows, at least
    one of them correct; with any other number of rows the call
    succeeds and the whole database is as before, whatever the number
    of correct answers. *)
Theorem high_scores_only_for_20_answers :
  forall db u,
    (count (scored_answers db u) <> 20 -> sp_update_high_scores u db = (inr tt, db))
    /\ (forall r db', sp_update_high_scores u db = (r, db') ->
          high_scores db' <> high_scores db ->
          0 < scored_correct db u /\ count (scored_answers db u) = 20).
Proof.
  intros db u. rewrite sp_update_high_scores_unfold. split.
  - intros Hne. apply Z.eqb_neq in Hne. rewrite Hne, andb_false_r. reflexivity.
  - intros r db'. destruct (_ && _) eqn:G.
    + apply andb_true_iff in G. destruct G as [G1 G2].
      apply Z.ltb_lt in G1. apply Z.eqb_eq in G2. auto.
    + intros [= _ <-] Hne. contradiction.
Qed.

(** A game completed after two answers, one of them right: no score. *)
Example short_game_scores_nothing :
  run_op short_game (update_high_scores "alice") = short_game
  /\ scored_correct (working short_game) "alice" = 1.
Proof. split; reflexivity. Qed.

(** Twenty answers, ten of them right: the slot for score 10 is taken,
    with the time from the session's start to its last answer. *)
Example completed_game_scores :
  high_scores (working (run_op completed_game (update_high_scores "alice")))
  = [HighScore.mk 10 (Some 1) 20000000 20000100].
Proof. reflexivity. Qed.

Lemma high_scores_only_for_20_answers_witness :
  (count (scored_answers (working short_game) "alice") <> 20
   /\ sp_update_high_scores "alice" (working short_game) = (inr tt, working short_game))
  /\ (high_scores (snd (sp_update_high_scores "alice" (working completed_game)))
      <> high_scores (working completed_game)
      /\ 0 < scored_correct (working completed_game) "alice"
      /\ count (scored_answers (working completed_game) "alice") = 20).
Proof.
  split.
  - assert (H : count (scored_answers (working short_game) "alice") <> 20)
      by (vm_compute; discriminate).
    split; [exact H|].
    exact (proj1 (high_scores_only_for_20_answers (working short_game) "alice") H).
  - assert (H : high_scores (snd (sp_update_high_scores "alice" (working completed_game)))
                <> high_scores (working completed_game))
      by (vm_compute; discriminate).
    split; [exact H|].
    exact (proj2 (high_scores_only_for_20_answers (working completed_game) "alice")
             (fst (sp_update_high_scores "alice" (working completed_game)))
             (snd (sp_update_high_scores "alice" (working completed_game)))
             (surjective_pairing _) H).
Defined.

(** * Further properties of the code *)

(** ** ORDER BY *)

Section OrderBy.
Context {A : Type} (leb : A -> A -> bool).

Lemma insert_by_perm x l : Permutation (x :: l) (insert_by leb x l).
Proof.
  induction l as [|y l IH]; simpl; [apply Permutation_refl|].
  destruct (leb x y); [apply Permutation_refl|].
  apply (perm_trans (perm_swap y x l)). apply perm_skip, IH.
Qed.

Lemma order_by_perm l : Permutation l (order_by leb l).
Proof.
  induction l as [|x l IH]; simpl; [constructor|].
  apply (perm_trans (perm_skip x IH)), insert_by_perm.
Qed.

Lemma In_order_by l x : In x (order_by leb l) <-> In x l.
Proof.
  split; apply Permutation_in; [apply Permutation_sym|]; apply order_by_perm.
Qed.

Lemma count_order_by l : count (order_by leb l) = count l.
Proof. symmetry. apply count_Permutation, order_by_perm. Qed.

Hypothesis leb_total : forall x y, leb x y = true \/ leb y x = true.
Hypothesis leb_trans : forall x y z, leb x y = true -> leb y z = true -> leb x z = true.

Lemma insert_by_sorted x l :
  StronglySorted (fun a b => leb a b = true) l ->
  StronglySorted (fun a b => leb a b = true) (insert_by leb x l).
Proof.
  induction 1 as [|y l Hs IH Hy]; simpl.
  - constructor; constructor.
  - destruct (leb x y) eqn:E.
    + constructor; [constructor; assumption|].
      constructor; [exact E|].
      apply Forall_forall. intros z Hz.
      apply (leb_trans x y z E). revert z Hz. apply Forall_forall. exact Hy.
    + constructor; [exact IH|].
      apply Forall_forall. intros z Hz.
      apply (Permutation_in _ (Permutation_sym (insert_by_perm x l))) in Hz.
      destruct Hz as [<- | Hz].
      * destruct (leb_total x y) as [H | H]; [congruence | exact H].
      * revert z Hz. apply Forall_forall. exact Hy.
Qed.

Lemma order_by_sorted l : StronglySorted (fun a b => leb a b = true) (order_by leb l).
Proof.
  induction l as [|x l IH]; simpl; [constructor | apply insert_by_sorted, IH].
Qed.

End OrderBy.

Lemma order_by_desc_sorted {A : Type} (key : A -> Z) (l : list A) :
  StronglySorted (fun a b => key b <= key a) (order_by (desc key) l).
Proof.
  assert (H : StronglySorted (fun a b => desc key a b = true) (order_by (desc key) l)).
  { apply order_by_sorted; unfold desc; intros; rewrite ?Z.leb_le in *; lia. }
  induction H as [|x l' Hs IH Hx]; constructor; [exact IH|].
  apply Forall_forall. intros z Hz. rewrite Forall_forall in Hx.
  specialize (Hx z Hz). unfold desc in Hx. apply Z.leb_le. exact Hx.
Qed.

Lemma order_by_asc_sorted {A : Type} (key : A -> Z) (l : list A) :
  StronglySorted (fun a b => key a <= key b) (order_by (asc key) l).
Proof.
  assert (H : StronglySorted (fun a b => asc key a b = true) (order_by (asc key) l)).
  { apply order_by_sorted; unfold asc; intros; rewrite ?Z.leb_le in *; lia. }
  induction H as [|x l' Hs IH Hx]; constructor; [exact IH|].
  apply Forall_forall. intros z Hz. rewrite Forall_forall in Hx.
  specialize (Hx z Hz). unfold asc in Hx. apply Z.leb_le. exact Hx.
Qed.

(** ** The most and the least correctly answered questions *)

(** X1. [fn_get_most_correctly_answered_question] returns, once each,
    exactly the questions whose number of correct answers is positive
    and greatest, with that number: every question tied for the most
    is in the result. *)
Theorem most_correct_returns_all_tied :
  forall db,
    NoDup (map fst (fn_get_most_correctly_answered_question db))
    /\ forall q c,
         In (q, c) (fn_get_most_correctly_answered_question db)
         <-> (c = number_correct db q /\ 0 < c
              /\ forall q', number_correct db q' <= c).
Proof.
  intros db. unfold fn_get_most_correctly_answered_question. split.
  - apply NoDup_keys_filter, NoDup_correct_counts.
  - intros q c. rewrite filter_In, In_correct_counts. simpl. split.
    + intros [[-> Hpos] Hmax]. split; [reflexivity|]. split; [exact Hpos|].
      intros q'. destruct (sql_max _) as [m|] eqn:E; [|discriminate].
      simpl in Hmax. apply Z.eqb_eq in Hmax. rewrite Hmax.
      destruct (Z_lt_le_dec 0 (number_correct db q')) as [Hq' | Hq'].
      * apply (proj2 (sql_max_Some _ _ E)).
        apply in_map_iff. exists (q', number_correct db q'). split; [reflexivity|].
        apply In_correct_counts. auto.
      * lia.
    + intros (-> & Hpos & Hle). split; [auto|].
      destruct (sql_max _) as [m|] eqn:E.
      * simpl. apply Z.eqb_eq. destruct (sql_max_Some _ _ E) as [Hin Hm].
        apply in_map_iff in Hin. destruct Hin as ([q' c'] & Hc' & Hin). simpl in Hc'. subst c'.
        apply In_correct_counts in Hin. destruct Hin as [-> Hpos'].
        assert (H1 : number_correct db q <= number_correct db q').
        { apply Hm. apply in_map_iff. exists (q, number_correct db q).
          split; [reflexivity|]. apply In_correct_counts. auto. }
        specialize (Hle q'). lia.
      * apply sql_max_None in E.
        assert (Hin : In (q, number_correct db q) (correct_counts db))
          by (apply In_correct_counts; auto).
        apply (in_map snd) in Hin. rewrite E in Hin. contradiction.
Qed.

Lemma most_correct_returns_all_tied_witness :
  In (1, 3) (fn_get_most_correctly_answered_question tied_answers)
  /\ 3 = number_correct tied_answers 1 /\ 0 < 3
  /\ forall q', number_correct tied_answers q' <= 3.
Proof.
  assert (H : In (1, 3) (fn_get_most_correctly_answered_question tied_answers))
    by (vm_compute; auto).
  split; [exact H|].
  exact (proj1 (proj2 (most_correct_returns_all_tied tied_answers) 1 3) H).
Defined.

Lemma correct_counts_nil db :
  correct_counts db = [] <->
  (forall pa, In pa (player_answers db) -> PlayerAnswer.is_correct pa = false).
Proof.
  split.
  - intros E pa Hin. destruct (PlayerAnswer.is_correct pa) eqn:Hc; [|reflexivity].
    assert (H : In (PlayerAnswer.question_id pa,
                    number_correct db (PlayerAnswer.question_id pa)) (correct_counts db)).
    { apply In_correct_counts. split; [reflexivity|]. unfold number_correct.
      apply count_pos_iff. exists pa. rewrite Hc, Z.eqb_refl. auto. }
    rewrite E in H. contradiction.
  - intros H. destruct (correct_counts db) as [|[q c] l] eqn:E; [reflexivity|].
    assert (Hin : In (q, c) (correct_counts db)) by (rewrite E; left; reflexivity).
    apply In_correct_counts in Hin. destruct Hin as [-> Hpos].
    unfold number_correct in Hpos. apply count_pos_iff in Hpos.
    destruct Hpos as (pa & Hpa & Hc). apply andb_true_iff in Hc.
    rewrite (H pa Hpa) in Hc. destruct Hc; discriminate.
Qed.

(** X2. The two statistics are empty together, exactly when no answer
    row is correct; otherwise both name at least one question, and no
    count in the least-correct result exceeds one in the most-correct
    result. *)
Theorem least_and_most_correct_agree :
  forall db,
    (fn_get_least_correctly_answered_question db = [] <->
     forall pa, In pa (player_answers db) -> PlayerAnswer.is_correct pa = false)
    /\ (fn_get_most_correctly_answered_question db = [] <->
        forall pa, In pa (player_answers db) -> PlayerAnswer.is_correct pa = false)
    /\ (forall q c q' c',
          In (q, c) (fn_get_least_correctly_answered_question db) ->
          In (q', c') (fn_get_most_correctly_answered_question db) -> c <= c').
Proof.
  intros db. rewrite <- (correct_counts_nil db).
  unfold fn_get_least_correctly_answered_question, fn_get_most_correctly_answered_question.
  split; [|split].
  - split; [|intros ->; reflexivity].
    intros E. destruct (sql_min (map snd (correct_counts db))) as [m|] eqn:Em.
    + destruct (sql_min_Some _ _ Em) as [Hin _]. apply in_map_iff in Hin.
      destruct Hin as (g & Hg & Hin).
      assert (H : In g (filter (fun g => sql_eq (Some (snd g)) (Some m)) (correct_counts db))).
      { apply filter_In. split; [exact Hin|]. simpl. rewrite Hg. apply Z.eqb_refl. }
      rewrite E in H. contradiction.
    + apply sql_min_None, map_eq_nil in Em. exact Em.
  - split; [|intros ->; reflexivity].
    intros E. destruct (sql_max (map snd (correct_counts db))) as [m|] eqn:Em.
    + destruct (sql_max_Some _ _ Em) as [Hin _]. apply in_map_iff in Hin.
      destruct Hin as (g & Hg & Hin).
      assert (H : In g (filter (fun g => sql_eq (Some (snd g)) (Some m)) (correct_counts db))).
      { apply filter_In. split; [exact Hin|]. simpl. rewrite Hg. apply Z.eqb_refl. }
      rewrite E in H. contradiction.
    + apply sql_max_None, map_eq_nil in Em. exact Em.
  - intros q c q' c' Hl Hm. apply filter_In in Hl, Hm.
    destruct Hl as [_ Hl], Hm as [_ Hm]. simpl in Hl, Hm.
    destruct (sql_min _) as [m|] eqn:Emin; [|discriminate].
    destruct (sql_max _) as [m'|] eqn:Emax; [|discriminate].
    simpl in Hl, Hm. apply Z.eqb_eq in Hl, Hm. subst m m'.
    apply (proj2 (sql_min_Some _ _ Emin)), (proj1 (sql_max_Some _ _ Emax)).
Qed.

Lemma least_and_most_correct_agree_witness :
  In (2, 1) (fn_get_least_correctly_answered_question tied_answers)
  /\ In (1, 3) (fn_get_most_correctly_answered_question tied_answers)
  /\ 1 <= 3.
Proof.
  assert (Hl : In (2, 1) (fn_get_least_correctly_answered_question tied_answers))
    by (vm_compute; auto).
  assert (Hm : In (1, 3) (fn_get_most_correctly_answered_question tied_answers))
    by (vm_compute; auto).
  split; [exact Hl|]. split; [exact Hm|].
  exact (proj2 (proj2 (least_and_most_correct_agree tied_answers)) 2 1 1 3 Hl Hm).
Defined.

(** ** Calls and reachable states *)

Lemma execute_pg_procedure_sp {A : Type} c name (body : M A) :
  String.prefix "sp_" name = true ->
  snd (execute_pg_procedure c name body)
  = if raised (body (working c)) then rollback c (snd (body (working c)))
    else mk_connection (snd (body (working c))) (snd (body (working c))).
Proof.
  intros H. unfold execute_pg_procedure, raised. rewrite H.
  destruct (body (working c)) as [[e|r] db]; reflexivity.
Qed.

Lemma execute_pg_procedure_fn {A : Type} c name (body : M A) :
  String.prefix "sp_" name = false -> String.prefix "fn_" name = true ->
  snd (execute_pg_procedure c name body)
  = if raised (body (working c)) then rollback c (snd (body (working c)))
    else mk_connection (committed c) (snd (body (working c))).
Proof.
  intros H1 H2. unfold execute_pg_procedure, raised. rewrite H1, H2.
  destruct (body (working c)) as [[e|r] db]; reflexivity.
Qed.

Lemma run_op_cases c op :
  run_op c op
  = if op_raises op (working c) then rollback c (op_effect op (working c))
    else if is_procedure op
         then mk_connection (op_effect op (working c)) (op_effect op (working c))
         else mk_connection (committed c) (op_effect op (working c)).
Proof.
  destruct op; unfold run_op, op_raises, op_effect, is_procedure;
    first [apply execute_pg_procedure_sp; reflexivity
          | apply execute_pg_procedure_fn; reflexivity].
Qed.

Lemma run_ops_app ops ops' c : run_ops (ops ++ ops') c = run_ops ops' (run_ops ops c).
Proof. apply fold_left_app. Qed.

Lemma engine_reachable_step c op : engine_reachable c -> engine_reachable (run_op c op).
Proof.
  intros (db0 & ops & Hf & ->). exists db0, (ops ++ [op]). split; [exact Hf|].
  rewrite run_ops_app. reflexivity.
Qed.

Lemma engine_reachable_connect db0 : fresh db0 -> engine_reachable (connect db0).
Proof. intros Hf. exists db0, []. split; [exact Hf | reflexivity]. Qed.

(** Induction on the calls that led to a state. *)
Lemma engine_reachable_induction (R : connection -> Prop) :
  (forall db0, fresh db0 -> R (connect db0)) ->
  (forall c op, engine_reachable c -> R c -> R (run_op c op)) ->
  forall c, engine_reachable c -> R c.
Proof.
  intros Hinit Hstep c (db0 & ops & Hf & ->).
  assert (H : forall ops c0, engine_reachable c0 -> R c0 -> R (run_ops ops c0)).
  { clear - Hstep. induction ops as [|op ops IH]; intros c0 Hr H0; [exact H0|].
    simpl. apply IH; [apply engine_reachable_step, Hr | apply Hstep; assumption]. }
  apply H; [apply engine_reachable_connect, Hf | apply Hinit, Hf].
Qed.

(** What each routine leaves alone. *)
Lemma get_or_create_session_frame v now db :
  let db' := snd (get_or_create_session v now db) in
  questions db' = questions db /\ players db' = players db
  /\ player_answers db' = player_answers db /\ high_scores db' = high_scores db.
Proof.
  unfold get_or_create_session, bind, get.
  destruct (select_active_session db v); [repeat split|].
  unfold insert_game_session. destruct (existsb _ _); repeat split.
Qed.

Lemma op_effect_frame op db :
  questions (op_effect op db) = questions db
  /\ players (op_effect op db) = players db
  /\ ((forall u, op <> update_high_scores u) ->
      high_scores (op_effect op db) = high_scores db).
Proof.
  destruct op as [u now order | u q a now | u | u | u | u]; unfold op_effect.
  - rewrite snd_fn_get_unanswered_questions.
    destruct (get_or_create_session_frame (select_player_id db u) now db)
      as (H1 & H2 & _ & H4). auto.
  - destruct (sp_record_player_answers_cases u q a now db)
      as [-> | (p & s & c & _ & _ & ->)]; repeat split.
  - rewrite sp_completing_session_unfold. repeat split.
  - rewrite sp_reset_player_answers_unfold. repeat split.
  - repeat split.
  - destruct (sp_update_high_scores_frame u db) as (H1 & H2 & _).
    split; [exact H1|]. split; [exact H2|]. intros H. exfalso. apply (H u). reflexivity.
Qed.

(** Only a recorded answer and a reset change [player_answers]: the
    first appends one row, nothing else touches a row. *)
Lemma op_effect_answers op db :
  (forall u, op <> reset_game u) ->
  exists new,
    player_answers (op_effect op db) = player_answers db ++ new
    /\ (length new <= 1)%nat
    /\ (is_procedure op = false -> new = []).
Proof.
  intros Hop. destruct op as [u now order | u q a now | u | u | u | u]; unfold op_effect.
  - exists []. rewrite app_nil_r, snd_fn_get_unanswered_questions.
    destruct (get_or_create_session_frame (select_player_id db u) now db)
      as (_ & _ & H3 & _). simpl. auto.
  - destruct (sp_record_player_answers_cases u q a now db)
      as [-> | (p & s & c & _ & _ & ->)].
    + exists []. rewrite app_nil_r. simpl. split; [reflexivity|]. split; [lia | discriminate].
    + eexists. split; [apply player_answers_recorded|]. simpl. split; [lia | discriminate].
  - exists []. rewrite app_nil_r, sp_completing_session_unfold. simpl.
    split; [reflexivity|]. split; [lia | reflexivity].
  - exfalso. apply (Hop u). reflexivity.
  - exists []. rewrite app_nil_r. simpl. split; [reflexivity|]. split; [lia | reflexivity].
  - exists []. rewrite app_nil_r.
    destruct (sp_update_high_scores_frame u db) as (_ & _ & _ & H4 & _).
    simpl. split; [exact H4|]. split; [lia | reflexivity].
Qed.

Lemma only_sessions_pending_same db : only_sessions_pending (mk_connection db db).
Proof.
  unfold only_sessions_pending. simpl. repeat split.
  exists []. rewrite app_nil_r. split; [reflexivity | constructor].
Qed.

Lemma get_or_create_session_sessions v now db :
  exists new,
    game_sessions (snd (get_or_create_session v now db)) = game_sessions db ++ new
    /\ Forall is_new_session new.
Proof.
  unfold get_or_create_session, bind, get.
  destruct (select_active_session db v).
  - exists []. rewrite app_nil_r. split; [reflexivity | constructor].
  - unfold insert_game_session. destruct (existsb _ _); simpl.
    + exists []. rewrite app_nil_r. split; [reflexivity | constructor].
    + eexists. split; [reflexivity|]. constructor; [repeat split | constructor].
Qed.

(** In every reachable state answers and high scores are committed;
    only sessions just created can be pending. *)
Lemma engine_reachable_pending c : engine_reachable c -> only_sessions_pending c.
Proof.
  apply engine_reachable_induction.
  - intros db0 _. apply only_sessions_pending_same.
  - intros c0 op _ (Hq & Hp & Ha & Hh & pending & Hs & Hnew). rewrite run_op_cases.
    destruct (op_raises op (working c0)); [apply only_sessions_pending_same|].
    destruct (is_procedure op) eqn:Hproc; [apply only_sessions_pending_same|].
    destruct op as [u now order | u q a now | u | u | u | u]; try discriminate;
      unfold only_sessions_pending, op_effect; simpl committed; simpl working.
    + rewrite snd_fn_get_unanswered_questions.
      destruct (get_or_create_session_frame (select_player_id (working c0) u) now (working c0))
        as (H1 & H2 & H3 & H4).
      destruct (get_or_create_session_sessions (select_player_id (working c0) u) now
                  (working c0)) as (new & H5 & H6).
      simpl in H1, H2, H3, H4. rewrite H1, H2, H3, H4, H5, Hs.
      repeat split; try assumption.
      exists (pending ++ new). rewrite app_assoc. split; [reflexivity|].
      apply Forall_app. auto.
    + simpl. repeat split; try assumption. exists pending. auto.
Qed.

(** ** The high scores table in reachable states *)

Lemma high_scores_valid_ext db db' :
  high_scores db' = high_scores db -> high_scores_valid db -> high_scores_valid db'.
Proof. unfold high_scores_valid. intros ->. tauto. Qed.

Lemma update_or_insert_high_score_valid score v t e db :
  high_scores_valid db ->
  high_scores_valid (snd (update_or_insert_high_score score v t e db)).
Proof.
  intros Hv. pose proof Hv as [Hpk Hck]. unfold update_or_insert_high_score, bind, get.
  destruct (existsb (fun r => HighScore.score_id r =? score) (high_scores db)) eqn:Hex.
  - unfold update_high_score.
    destruct (existsb (is_slower_slot score t) (high_scores db)); [|exact Hv].
    destruct t as [t|], e as [e|]; try exact Hv.
    unfold high_scores_valid. simpl. split.
    + rewrite map_update_where_keep; [exact Hpk | reflexivity].
    + intros r Hin. apply In_update_where in Hin. destruct Hin as (r0 & Hr0 & ->).
      specialize (Hck r0 Hr0). destruct (is_slower_slot _ _ r0); exact Hck.
  - unfold insert_high_score, raise. destruct t as [t|], e as [e|]; try exact Hv.
    destruct (negb _) eqn:Hb; [exact Hv|]. rewrite Hex.
    unfold high_scores_valid. simpl. split.
    + rewrite map_app. simpl. apply NoDup_app.
      * exact Hpk.
      * constructor; [intros [] | constructor].
      * intros x Hx [<- | []]. apply in_map_iff in Hx. destruct Hx as (r & Hr & Hin).
        assert (H : existsb (fun r => HighScore.score_id r =? score) (high_scores db) = true).
        { apply existsb_exists. exists r. split; [exact Hin | apply Z.eqb_eq; exact Hr]. }
        congruence.
    + intros r Hin. apply in_app_or in Hin. destruct Hin as [Hin | [<- | []]].
      * apply Hck, Hin.
      * simpl. apply negb_false_iff, andb_true_iff in Hb. lia.
Qed.

Lemma op_effect_high_scores_valid op db :
  high_scores_valid db -> high_scores_valid (op_effect op db).
Proof.
  intros H. destruct op as [u now order | u q a now | u | u | u | u];
    try (apply (high_scores_valid_ext db); [|exact H];
         apply op_effect_frame; intros u' Hu; discriminate).
  unfold op_effect. rewrite sp_update_high_scores_unfold.
  destruct (_ && _); [apply update_or_insert_high_score_valid, H | exact H].
Qed.

Lemma engine_reachable_high_scores_valid c :
  engine_reachable c -> high_scores_valid (committed c) /\ high_scores_valid (working c).
Proof.
  apply (engine_reachable_induction
           (fun c => high_scores_valid (committed c) /\ high_scores_valid (working c))).
  - intros db0 (_ & _ & Hh). unfold high_scores_valid. simpl. rewrite Hh.
    repeat split; try constructor; contradiction.
  - intros c0 op _ [Hc Hw]. rewrite run_op_cases.
    pose proof (op_effect_high_scores_valid op (working c0) Hw) as He.
    destruct (op_raises op (working c0)); [split; exact Hc|].
    destruct (is_procedure op); split; assumption.
Qed.

Lemma NoDup_bounded_count (l : list Z) (n : nat) :
  NoDup l -> (forall x, In x l -> 1 <= x <= Z.of_nat n) -> count l <= Z.of_nat n.
Proof.
  intros Hnd Hb. unfold count. apply Nat2Z.inj_le.
  assert (H : (length l <= length (map Z.of_nat (seq 1 n)))%nat).
  { apply NoDup_incl_length; [exact Hnd|].
    intros x Hx. specialize (Hb x Hx). apply in_map_iff. exists (Z.to_nat x).
    split; [lia|]. apply in_seq. lia. }
  rewrite length_map, length_seq in H. exact H.
Qed.

Lemma completed_have_end_time_ext db db' :
  game_sessions db' = game_sessions db -> player_answers db' = player_answers db ->
  completed_have_end_time db -> completed_have_end_time db'.
Proof.
  unfold completed_have_end_time, session_answers. intros -> ->. tauto.
Qed.

Lemma op_effect_completed_have_end_time op db :
  engine_invariant db -> completed_have_end_time db ->
  completed_have_end_time (op_effect op db).
Proof.
  intros I Q. destruct op as [u now order | u q a now | u | u | u | u]; unfold op_effect.
  - rewrite snd_fn_get_unanswered_questions.
    unfold get_or_create_session, bind, get.
    destruct (select_active_session db (select_player_id db u)); [exact Q|].
    unfold insert_game_session. destruct (existsb _ _); simpl; [exact Q|].
    intros gs Hin Hc. simpl in Hin. apply in_app_or in Hin.
    destruct Hin as [Hin | [<- | []]]; [apply (Q gs Hin Hc) | discriminate].
  - destruct (sp_record_player_answers_cases u q a now db)
      as [-> | (p & s & c & Hp & Hs & ->)]; [exact Q|].
    intros gs' Hin Hc. unfold recorded in Hin. simpl in Hin.
    apply In_update_where in Hin. destruct Hin as (gs & Hin & ->).
    assert (Hgs : GameSession.is_completed gs = true /\ GameSession.session_id gs <> s).
    { assert (Hc0 : GameSession.is_completed gs = true)
        by (destruct (has_session_id _ gs); exact Hc).
      split; [exact Hc0|]. intros Hid.
      destruct (is_open_session_of_Some _ _ (open_session_row db _ s gs I Hs Hin Hid))
        as (_ & _ & Hopen & _). congruence. }
    destruct Hgs as [Hc0 Hid].
    rewrite has_session_id_Some. simpl PlayerAnswer.session_id.
    replace (GameSession.session_id gs =? s) with false by (symmetry; apply Z.eqb_neq; exact Hid).
    unfold session_answers. rewrite player_answers_recorded, filter_app. simpl.
    replace (s =? GameSession.session_id gs) with false by (symmetry; apply Z.eqb_neq; lia).
    rewrite app_nil_r. apply (Q gs Hin Hc0).
  - rewrite sp_completing_session_unfold.
    destruct (select_active_session db (select_player_id db u)) as [s|] eqn:Hs.
    + intros gs' Hin Hc. simpl in Hin. apply In_update_where in Hin.
      destruct Hin as (gs & Hin & ->). rewrite has_session_id_Some in *.
      destruct (GameSession.session_id gs =? s) eqn:E.
      * apply Z.eqb_eq in E. simpl. unfold session_answers. simpl.
        rewrite E. intros Hne Hmax. apply Hne.
        apply sql_max_None, map_eq_nil in Hmax. exact Hmax.
      * apply (Q gs Hin Hc).
    + rewrite update_where_null_id, set_game_sessions_same. exact Q.
  - destruct (select_active_session db (select_player_id db u)) as [s|] eqn:Hs.
    + rewrite sp_reset_player_answers_unfold, Hs.
      intros gs' Hin Hc. simpl in Hin. apply In_update_where in Hin.
      destruct Hin as (gs & Hin & ->). rewrite has_session_id_Some in *.
      assert (Hgs : GameSession.is_completed gs = true /\ GameSession.session_id gs <> s).
      { assert (Hc0 : GameSession.is_completed gs = true)
          by (destruct (_ =? s); exact Hc).
        split; [exact Hc0|]. intros Hid.
        destruct (is_open_session_of_Some _ _ (open_session_row db _ s gs I Hs Hin Hid))
          as (_ & _ & Hopen & _). congruence. }
      destruct Hgs as [Hc0 Hid].
      replace (GameSession.session_id gs =? s) with false
        by (symmetry; apply Z.eqb_neq; exact Hid).
      unfold session_answers. simpl.
      rewrite filter_delete_where_miss; [apply (Q gs Hin Hc0)|].
      intros pa Hpa. unfold answer_of in Hpa. apply andb_true_iff in Hpa.
      destruct Hpa as [_ Hpa]. rewrite sql_eq_Some in Hpa. apply Z.eqb_eq in Hpa.
      apply Z.eqb_neq. lia.
    + rewrite (sp_reset_player_answers_no_session u db Hs). exact Q.
  - exact Q.
  - destruct (sp_update_high_scores_frame u db) as (_ & _ & Hg & Ha & _).
    apply (completed_have_end_time_ext db); assumption.
Qed.

Lemma engine_reachable_completed_have_end_time c :
  engine_reachable c ->
  completed_have_end_time (committed c) /\ completed_have_end_time (working c).
Proof.
  apply (engine_reachable_induction
           (fun c => completed_have_end_time (committed c)
                     /\ completed_have_end_time (working c))).
  - intros db0 (Hg & _ & _). unfold completed_have_end_time. simpl. rewrite Hg.
    split; intros gs [].
  - intros c0 op Hr [Hc Hw]. rewrite run_op_cases.
    destruct (engine_reachable_invariant c0 Hr) as (_ & Iw & _).
    pose proof (op_effect_completed_have_end_time op (working c0) Iw Hw) as He.
    destruct (op_raises op (working c0)); [split; exact Hc|].
    destruct (is_procedure op); split; assumption.
Qed.

Lemma count_filter_andb_le {A : Type} (f g : A -> bool) (l : list A) :
  count (filter (fun x => f x && g x) l) <= count (filter f l).
Proof.
  unfold count. apply Nat2Z.inj_le.
  induction l as [|x l IH]; simpl; [lia|].
  destruct (f x), (g x); simpl; lia.
Qed.

(** When the guard of [sp_update_high_scores] passes in a reachable
    state, the session it scores has an end time and a duration. *)
Lemma scored_session_times c u :
  engine_reachable c ->
  count (scored_answers (working c) u) = 20 ->
  exists gs e,
    scored_session (working c) u = Some gs
    /\ GameSession.end_time gs = Some e
    /\ scored_total_time (working c) u = Some (e - GameSession.start_time gs).
Proof.
  intros Hr H20. set (db := working c) in *.
  destruct (engine_reachable_invariant c Hr) as (_ & I & _). fold db in I.
  destruct (engine_reachable_completed_have_end_time c Hr) as [_ Q]. fold db in Q.
  destruct (scored_answers db u) as [|pa l] eqn:Ea; [discriminate|].
  assert (Hpa : In pa (scored_answers db u)) by (rewrite Ea; left; reflexivity).
  unfold scored_answers in Hpa. apply filter_In in Hpa. destruct Hpa as [Hin Hof].
  destruct (scored_session db u) as [gs|] eqn:Egs;
    [|simpl in Hof; rewrite answer_of_null_session in Hof; discriminate].
  pose proof (first_greatest_In _ _ _ Egs) as Hgs. apply filter_In in Hgs.
  destruct Hgs as [Hgs Hcompl]. unfold is_completed_session_of in Hcompl.
  apply andb_true_iff in Hcompl. destruct Hcompl as [_ Hcompl].
  assert (Hend : GameSession.end_time gs <> None).
  { apply (Q gs Hgs Hcompl). intros E.
    assert (H : In pa (session_answers db (GameSession.session_id gs))).
    { apply filter_In. split; [exact Hin|]. unfold answer_of in Hof. simpl in Hof.
      apply andb_true_iff in Hof. destruct Hof as [_ Hof]. exact Hof. }
    rewrite E in H. contradiction. }
  destruct (GameSession.end_time gs) as [e|] eqn:Ee; [|contradiction].
  exists gs, e. split; [reflexivity|]. split; [exact Ee|].
  unfold scored_total_time. rewrite Egs. simpl option_map.
  rewrite (find_session_by_id _ gs (inv_session_pk db I) Hgs), Ee. reflexivity.
Qed.

(** X3. In every state the engine reaches, [sp_update_high_scores]
    never raises: it returns normally, changes no table but
    [high_scores], and leaves that table with one row per score, every
    score between 1 and 20, hence at most 20 rows. *)
Theorem update_high_scores_never_raises :
  forall c u, engine_reachable c ->
    exists db',
      sp_update_high_scores u (working c) = (inr tt, db')
      /\ same_but_high_scores (working c) db'
      /\ NoDup (map HighScore.score_id (high_scores db'))
      /\ (forall r, In r (high_scores db') -> 1 <= HighScore.score_id r <= 20)
      /\ count (high_scores db') <= 20.
Proof.
  intros c u Hr.
  destruct (engine_reachable_high_scores_valid c Hr) as [_ Hv].
  assert (Hrun : exists db', sp_update_high_scores u (working c) = (inr tt, db')).
  { rewrite sp_update_high_scores_unfold. destruct (_ && _) eqn:G; [|eauto].
    apply andb_true_iff in G. destruct G as [G1 G2].
    apply Z.ltb_lt in G1. apply Z.eqb_eq in G2.
    destruct (scored_session_times c u Hr G2) as (gs & e & -> & -> & ->).
    unfold update_or_insert_high_score, bind, get.
    destruct (existsb (fun r => HighScore.score_id r =? scored_correct (working c) u)
                (high_scores (working c))) eqn:Hex.
    - unfold update_high_score.
      destruct (existsb (is_slower_slot _ _) (high_scores (working c)));
        eexists; reflexivity.
    - unfold insert_high_score. rewrite Hex.
      assert (Hle : scored_correct (working c) u <= 20).
      { rewrite <- G2. apply count_filter_andb_le. }
      replace ((1 <=? scored_correct (working c) u) && (scored_correct (working c) u <=? 20))
        with true by (symmetry; apply andb_true_iff; lia).
      simpl. eexists; reflexivity. }
  destruct Hrun as (db' & Hrun). exists db'. split; [exact Hrun|].
  pose proof (sp_update_high_scores_frame u (working c)) as Hf.
  pose proof (op_effect_high_scores_valid (update_high_scores u) (working c) Hv) as [Hpk Hck].
  unfold op_effect in Hpk, Hck. rewrite Hrun in Hf, Hpk, Hck. simpl in Hf, Hpk, Hck.
  split; [exact Hf|]. split; [exact Hpk|]. split; [exact Hck|].
  rewrite <- (count_map HighScore.score_id).
  apply (NoDup_bounded_count _ 20 Hpk). intros x Hx. apply in_map_iff in Hx.
  destruct Hx as (r & <- & Hin). apply Hck, Hin.
Qed.

Lemma update_high_scores_never_raises_witness :
  engine_reachable completed_game
  /\ exists db',
       sp_update_high_scores "alice" (working completed_game) = (inr tt, db')
       /\ same_but_high_scores (working completed_game) db'
       /\ NoDup (map HighScore.score_id (high_scores db'))
       /\ (forall r, In r (high_scores db') -> 1 <= HighScore.score_id r <= 20)
       /\ count (high_scores db') <= 20.
Proof.
  assert (Hr : engine_reachable completed_game).
  { exists sample_database, (game "alice" 100 20 ++ [completing_session "alice"%string]).
    split; [repeat split | reflexivity]. }
  split; [exact Hr|].
  exact (update_high_scores_never_raises completed_game "alice" Hr).
Defined.

(** ** The high scores listing *)

Lemma select_player_id_In db u pid :
  select_player_id db u = Some pid ->
  exists p, In p (players db) /\ Player.player_id p = pid /\ Player.username p = u.
Proof.
  unfold select_player_id. destruct (find _ _) as [p|] eqn:E; [|discriminate].
  intros [= <-]. apply find_some in E. destruct E as [Hin Hu].
  apply String.eqb_eq in Hu. exists p. auto.
Qed.

Lemma update_or_insert_high_score_held score pid t e db :
  (exists p, In p (players db) /\ Player.player_id p = pid) ->
  high_scores_held db ->
  high_scores_held (snd (update_or_insert_high_score score (Some pid) t e db)).
Proof.
  intros (p & Hp & Hpid) Hh. unfold update_or_insert_high_score, bind, get.
  destruct (existsb (fun r => HighScore.score_id r =? score) (high_scores db)).
  - unfold update_high_score.
    destruct (existsb (is_slower_slot score t) (high_scores db)); [|exact Hh].
    destruct t as [t|], e as [e|]; try exact Hh.
    intros r Hin. simpl in Hin. apply In_update_where in Hin.
    destruct Hin as (r0 & Hr0 & ->).
    destruct (is_slower_slot _ _ r0); [|apply Hh, Hr0].
    exists p. simpl. split; [exact Hp | congruence].
  - unfold insert_high_score, raise. destruct t as [t|], e as [e|]; try exact Hh.
    destruct (negb _); [exact Hh|]. destruct (existsb _ _); [exact Hh|].
    intros r Hin. simpl in Hin. apply in_app_or in Hin.
    destruct Hin as [Hin | [<- | []]]; [apply Hh, Hin|].
    exists p. simpl. split; [exact Hp | congruence].
Qed.

Lemma op_effect_high_scores_held op db :
  high_scores_held db -> high_scores_held (op_effect op db).
Proof.
  intros H. destruct (op_effect_frame op db) as (_ & Hp & Hh).
  destruct op as [u now order | u q a now | u | u | u | u];
    try (unfold high_scores_held; rewrite Hp, Hh; [exact H | intros u' Hu; discriminate]).
  clear Hp Hh. unfold op_effect. rewrite sp_update_high_scores_unfold.
  destruct (_ && _) eqn:G; [|exact H].
  apply andb_true_iff in G. destruct G as [_ G]. apply Z.eqb_eq in G.
  destruct (select_player_id db u) as [pid|] eqn:Ep.
  - apply update_or_insert_high_score_held; [|exact H].
    destruct (select_player_id_In db u pid Ep) as (p & Hin & Hid & _). eauto.
  - exfalso. unfold scored_answers in G. rewrite Ep in G.
    rewrite (proj1 (existsb_false_filter _ _)) in G; [discriminate|].
    apply not_true_is_false. intros E. apply existsb_exists in E.
    destruct E as (pa & _ & Hpa). unfold answer_of in Hpa. rewrite sql_eq_None_r in Hpa.
    discriminate.
Qed.

Lemma engine_reachable_high_scores_held c :
  engine_reachable c -> high_scores_held (committed c) /\ high_scores_held (working c).
Proof.
  apply (engine_reachable_induction
           (fun c => high_scores_held (committed c) /\ high_scores_held (working c))).
  - intros db0 (_ & _ & Hh). unfold high_scores_held. simpl. rewrite Hh.
    split; intros r [].
  - intros c0 op _ [Hc Hw]. rewrite run_op_cases.
    pose proof (op_effect_high_scores_held op (working c0) Hw) as He.
    destruct (op_raises op (working c0)); [split; exact Hc|].
    destruct (is_procedure op); split; assumption.
Qed.

Lemma filter_player_by_id (l : list Player.row) p :
  NoDup (map Player.player_id l) -> In p l ->
  filter (fun p' => Player.player_id p =? Player.player_id p') l = [p].
Proof.
  induction l as [|x l IH]; simpl; intros Hnd Hin; [contradiction|].
  inversion Hnd as [|? ? Hx Hl]; subst. destruct Hin as [-> | Hin].
  - rewrite Z.eqb_refl. f_equal. apply existsb_false_filter, not_true_is_false.
    intros E. apply existsb_exists in E. destruct E as (y & Hy & Hid).
    apply Z.eqb_eq in Hid. apply Hx. rewrite Hid. apply in_map, Hy.
  - destruct (_ =? _) eqn:E; [|apply IH; assumption].
    apply Z.eqb_eq in E. exfalso. apply Hx. rewrite <- E. apply in_map, Hin.
Qed.

Lemma In_high_scores_join_players db line :
  In line (high_scores_join_players db) <->
  exists hs p, In hs (high_scores db) /\ In p (players db)
               /\ HighScore.player_id hs = Some (Player.player_id p)
               /\ line = score_line hs p.
Proof.
  unfold high_scores_join_players. rewrite in_flat_map. split.
  - intros (hs & Hhs & Hin). apply in_map_iff in Hin. destruct Hin as (p & <- & Hp).
    apply filter_In in Hp. destruct Hp as [Hp Heq]. exists hs, p.
    split; [exact Hhs|]. split; [exact Hp|]. split; [|reflexivity].
    unfold sql_eq in Heq. destruct (HighScore.player_id hs); [|discriminate].
    apply Z.eqb_eq in Heq. congruence.
  - intros (hs & p & Hhs & Hp & Heq & ->). exists hs. split; [exact Hhs|].
    apply in_map_iff. exists p. split; [reflexivity|]. apply filter_In.
    split; [exact Hp|]. rewrite Heq. simpl. apply Z.eqb_refl.
Qed.

Lemma scores_of_join db :
  NoDup (map Player.player_id (players db)) -> high_scores_held db ->
  map ScoreLine.score (high_scores_join_players db) = map HighScore.score_id (high_scores db).
Proof.
  intros Hpk Hh. unfold high_scores_join_players, high_scores_held in *.
  induction (high_scores db) as [|hs l IH]; simpl; [reflexivity|].
  rewrite map_app, IH by (intros r Hr; apply Hh; right; exact Hr).
  destruct (Hh hs (or_introl eq_refl)) as (p & Hp & Heq). rewrite Heq.
  simpl sql_eq. rewrite (filter_player_by_id _ p Hpk Hp). reflexivity.
Qed.

Lemma StronglySorted_strict {A : Type} (key : A -> Z) (l : list A) :
  NoDup (map key l) -> StronglySorted (fun a b => key b <= key a) l ->
  StronglySorted (fun a b => key b < key a) l.
Proof.
  induction l as [|x l IH]; simpl; intros Hnd Hs; [constructor|].
  inversion Hnd as [|? ? Hx Hl]; subst. inversion Hs as [|? ? Hs' Hall]; subst.
  constructor; [apply IH; assumption|].
  rewrite Forall_forall in *. intros y Hy. specialize (Hall y Hy).
  assert (key y <> key x) by (intros E; apply Hx; rewrite <- E; apply in_map, Hy). lia.
Qed.

(** X4. In every state the engine reaches, with distinct player ids:
    [fn_get_high_scores] lists every slot of [high_scores] exactly
    once, with its holder's name and email, in strictly decreasing
    order of score, so at most 20 lines. *)
Theorem high_scores_listing :
  forall c, engine_reachable c ->
    NoDup (map Player.player_id (players (working c))) ->
    StronglySorted (fun a b => ScoreLine.score b < ScoreLine.score a)
      (fn_get_high_scores (working c))
    /\ Permutation (map ScoreLine.score (fn_get_high_scores (working c)))
         (map HighScore.score_id (high_scores (working c)))
    /\ count (fn_get_high_scores (working c)) <= 20
    /\ (forall line, In line (fn_get_high_scores (working c)) <->
          exists hs p, In hs (high_scores (working c)) /\ In p (players (working c))
                       /\ HighScore.player_id hs = Some (Player.player_id p)
                       /\ line = score_line hs p).
Proof.
  intros c Hr Hpk. set (db := working c) in *.
  destruct (engine_reachable_high_scores_valid c Hr) as [_ [Hnd Hck]]. fold db in Hnd, Hck.
  destruct (engine_reachable_high_scores_held c Hr) as [_ Hh]. fold db in Hh.
  assert (Hperm : Permutation (map ScoreLine.score (fn_get_high_scores db))
                    (map HighScore.score_id (high_scores db))).
  { rewrite <- (scores_of_join db Hpk Hh). apply Permutation_map, Permutation_sym.
    apply order_by_perm. }
  split; [|split; [exact Hperm|split]].
  - apply StronglySorted_strict; [|apply order_by_desc_sorted].
    apply (Permutation_NoDup (Permutation_sym Hperm)), Hnd.
  - rewrite <- (count_map ScoreLine.score), (count_Permutation _ _ Hperm).
    apply (NoDup_bounded_count _ 20 Hnd). intros x Hx. apply in_map_iff in Hx.
    destruct Hx as (r & <- & Hin). apply Hck, Hin.
  - intros line. unfold fn_get_high_scores. rewrite In_order_by.
    apply In_high_scores_join_players.
Qed.

Lemma high_scores_listing_witness :
  engine_reachable two_quizzes
  /\ NoDup (map Player.player_id (players (working two_quizzes)))
  /\ StronglySorted (fun a b => ScoreLine.score b < ScoreLine.score a)
       (fn_get_high_scores (working two_quizzes))
  /\ Permutation (map ScoreLine.score (fn_get_high_scores (working two_quizzes)))
       (map HighScore.score_id (high_scores (working two_quizzes)))
  /\ count (fn_get_high_scores (working two_quizzes)) <= 20
  /\ (forall line, In line (fn_get_high_scores (working two_quizzes)) <->
        exists hs p, In hs (high_scores (working two_quizzes))
                     /\ In p (players (working two_quizzes))
                     /\ HighScore.player_id hs = Some (Player.player_id p)
                     /\ line = score_line hs p).
Proof.
  assert (Hr : engine_reachable two_quizzes).
  { exists sample_database, two_quizzes_ops. split; [repeat split | reflexivity]. }
  assert (Hpk : NoDup (map Player.player_id (players (working two_quizzes)))).
  { vm_compute. repeat constructor; simpl; intuition discriminate. }
  split; [exact Hr|]. split; [exact Hpk|].
  exact (high_scores_listing two_quizzes Hr Hpk).
Defined.

(** After both quizzes the one slot, score 10, is Alice's: Bob was not
    faster. *)
Example two_quizzes_listing :
  fn_get_high_scores (working two_quizzes)
  = [ScoreLine.mk 1 "alice" "alice@example.com" 10 20000000 20000100].
Proof. vm_compute. reflexivity. Qed.

(** ** Scoring the same session again *)

Lemma scored_ext db db' u :
  same_but_high_scores db db' ->
  select_player_id db' u = select_player_id db u
  /\ scored_session db' u = scored_session db u
  /\ scored_answers db' u = scored_answers db u
  /\ scored_correct db' u = scored_correct db u
  /\ scored_total_time db' u = scored_total_time db u.
Proof.
  intros (_ & Hp & Hg & Ha & _).
  assert (H1 : select_player_id db' u = select_player_id db u)
    by (unfold select_player_id; rewrite Hp; reflexivity).
  assert (H2 : scored_session db' u = scored_session db u)
    by (unfold scored_session; rewrite H1, Hg; reflexivity).
  unfold scored_answers, scored_correct, scored_total_time.
  rewrite H1, H2, Ha, Hg. repeat split.
Qed.

Lemma no_slower_slot_after_update score v t e hs :
  existsb (is_slower_slot score (Some t))
    (update_where (is_slower_slot score (Some t)) (set_holder v t e) hs) = false.
Proof.
  unfold update_where. induction hs as [|r hs IH]; simpl; [reflexivity|].
  rewrite IH, orb_false_r. destruct (is_slower_slot score (Some t) r) eqn:E; [|exact E].
  unfold is_slower_slot, set_holder. simpl. rewrite Z.ltb_irrefl. apply andb_false_r.
Qed.

Lemma update_or_insert_high_score_present score v t e db :
  existsb (fun r => HighScore.score_id r =? score) (high_scores db) = true ->
  update_or_insert_high_score score v t e db = update_high_score score v t e db.
Proof. intros H. unfold update_or_insert_high_score, bind, get. rewrite H. reflexivity. Qed.

Lemma update_or_insert_high_score_absent score v t e db :
  existsb (fun r => HighScore.score_id r =? score) (high_scores db) = false ->
  update_or_insert_high_score score v t e db = insert_high_score score v t e db.
Proof. intros H. unfold update_or_insert_high_score, bind, get. rewrite H. reflexivity. Qed.

Lemma update_high_score_miss score v t e db :
  existsb (is_slower_slot score t) (high_scores db) = false ->
  update_high_score score v t e db = (inr tt, db).
Proof. intros H. unfold update_high_score. rewrite H. reflexivity. Qed.

Lemma high_scores_set_high_scores l db : high_scores (set_high_scores l db) = l.
Proof. reflexivity. Qed.

Lemma no_slower_slot_null score hs : existsb (is_slower_slot score None) hs = false.
Proof.
  induction hs as [|r hs IH]; simpl; [reflexivity|].
  rewrite IH. unfold is_slower_slot. simpl. rewrite andb_false_r. reflexivity.
Qed.

Lemma update_high_score_hit score v t e db :
  existsb (is_slower_slot score (Some t)) (high_scores db) = true ->
  update_high_score score v (Some t) (Some e) db
  = (inr tt,
     set_high_scores
       (update_where (is_slower_slot score (Some t)) (set_holder v t e) (high_scores db)) db).
Proof. intros H. unfold update_high_score. rewrite H. reflexivity. Qed.

Lemma update_high_score_null score v t e db :
  t = None \/ e = None ->
  snd (update_high_score score v t e db) = db.
Proof.
  intros H. unfold update_high_score. destruct (existsb _ _); [|reflexivity].
  destruct t, e; try reflexivity. destruct H; discriminate.
Qed.

Lemma insert_high_score_cases score v t e db :
  (snd (insert_high_score score v t e db) = db
   /\ raised (insert_high_score score v t e db) = true)
  \/ (exists t' e',
        t = Some t' /\ e = Some e'
        /\ insert_high_score score v t e db
           = (inr tt, set_high_scores (high_scores db ++ [HighScore.mk score v t' e']) db)).
Proof.
  unfold insert_high_score, raise, raised.
  destruct t as [t'|], e as [e'|]; try (left; split; reflexivity).
  destruct (negb _); [left; split; reflexivity|].
  destruct (existsb _ _); [left; split; reflexivity|].
  right. exists t', e'. auto.
Qed.

Lemma update_or_insert_high_score_twice score v t e db :
  let r1 := update_or_insert_high_score score v t e db in
  let r2 := update_or_insert_high_score score v t e (snd r1) in
  snd r2 = snd r1 /\ (raised r1 = false -> raised r2 = false).
Proof.
  cbv zeta.
  destruct (existsb (fun r => HighScore.score_id r =? score) (high_scores db)) eqn:Hex.
  - rewrite (update_or_insert_high_score_present _ _ _ _ db Hex).
    destruct (existsb (is_slower_slot score t) (high_scores db)) eqn:Hhit.
    + destruct t as [t|]; [|rewrite no_slower_slot_null in Hhit; discriminate].
      destruct e as [e|].
      * rewrite (update_high_score_hit _ v _ e db Hhit). cbn [snd].
        rewrite update_or_insert_high_score_present.
        -- rewrite update_high_score_miss; [split; reflexivity|].
           rewrite high_scores_set_high_scores. apply no_slower_slot_after_update.
        -- rewrite high_scores_set_high_scores. apply existsb_exists.
           apply existsb_exists in Hex. destruct Hex as (r & Hin & Hr).
           exists (if is_slower_slot score (Some t) r then set_holder v t e r else r).
           split; [apply In_update_where_image, Hin|].
           destruct (is_slower_slot _ _ r); exact Hr.
      * rewrite (update_high_score_null _ _ _ _ db (or_intror eq_refl)).
        rewrite (update_or_insert_high_score_present _ _ _ _ db Hex).
        split; [apply update_high_score_null; auto|].
        unfold update_high_score, raised. rewrite Hhit. discriminate.
    + rewrite (update_high_score_miss _ _ _ _ db Hhit). cbn [snd].
      rewrite (update_or_insert_high_score_present _ _ _ _ db Hex).
      rewrite (update_high_score_miss _ _ _ _ db Hhit). split; reflexivity.
  - rewrite (update_or_insert_high_score_absent _ _ _ _ db Hex).
    destruct (insert_high_score_cases score v t e db)
      as [[Hsame Hraised] | (t' & e' & -> & -> & Hrun)].
    + rewrite Hsame, (update_or_insert_high_score_absent _ _ _ _ db Hex), Hsame, Hraised.
      split; [reflexivity | discriminate].
    + rewrite Hrun. cbn [snd].
      rewrite update_or_insert_high_score_present
        by (rewrite high_scores_set_high_scores, existsb_app; simpl;
            rewrite Z.eqb_refl; apply orb_true_r).
      rewrite update_high_score_miss; [split; reflexivity|].
      rewrite high_scores_set_high_scores, existsb_app. simpl.
      unfold is_slower_slot at 2. simpl. rewrite Z.ltb_irrefl, andb_false_r, !orb_false_r.
      apply not_true_is_false. intros E. apply existsb_exists in E.
      destruct E as (r & Hin & Hr). unfold is_slower_slot in Hr.
      apply andb_true_iff in Hr. destruct Hr as [Hr _].
      assert (H : existsb (fun r => HighScore.score_id r =? score) (high_scores db) = true)
        by (apply existsb_exists; eauto).
      congruence.
Qed.

(** X5. Calling [sp_update_high_scores] a second time for the same
    player changes nothing: the state after two calls is the state
    after one, and the second call succeeds when the first did. *)
Theorem update_high_scores_twice :
  forall db u,
    snd (sp_update_high_scores u (snd (sp_update_high_scores u db)))
    = snd (sp_update_high_scores u db)
    /\ (raised (sp_update_high_scores u db) = false ->
        raised (sp_update_high_scores u (snd (sp_update_high_scores u db))) = false).
Proof.
  intros db u.
  destruct (scored_ext db _ u (sp_update_high_scores_frame u db))
    as (E1 & E2 & E3 & E4 & E5).
  rewrite (sp_update_high_scores_unfold u (snd (sp_update_high_scores u db))).
  rewrite E1, E2, E3, E4, E5. rewrite (sp_update_high_scores_unfold u db).
  destruct (_ && _); [|auto].
  apply update_or_insert_high_score_twice.
Qed.

Lemma update_high_scores_twice_witness :
  raised (sp_update_high_scores "alice" (working completed_game)) = false
  /\ snd (sp_update_high_scores "alice"
            (snd (sp_update_high_scores "alice" (working completed_game))))
     = snd (sp_update_high_scores "alice" (working completed_game))
  /\ raised (sp_update_high_scores "alice"
               (snd (sp_update_high_scores "alice" (working completed_game)))) = false.
Proof.
  assert (H : raised (sp_update_high_scores "alice" (working completed_game)) = false)
    by (vm_compute; reflexivity).
  split; [exact H|].
  split; [exact (proj1 (update_high_scores_twice (working completed_game) "alice"))
         | exact (proj2 (update_high_scores_twice (working completed_game) "alice") H)].
Defined.

(** ** The outcomes of sp_record_player_answers *)

Local Ltac record_case :=
  repeat match goal with
         | |- _ /\ _ => split
         | |- _ <-> _ => split
         end;
  try discriminate; try reflexivity;
  try (intros _; auto; fail);
  try (intros _; repeat split; (discriminate || reflexivity); fail);
  try (intros [H | H]; discriminate H);
  try (intros (H1 & H2 & H3); first [congruence | discriminate]);
  try (intros (p' & s' & H1 & H2 & H3 & H4 & H5); first [congruence | discriminate]).


(** X6. What [sp_record_player_answers] returns, case by case: a
    not-null violation exactly when the player, an open session of
    theirs or the question is missing; else a check violation exactly
    when the letter is not one of a, b, c, d; else a unique violation
    exactly when the session already has an answer to the question;
    else success.  Whenever it raises, the database is as before. *)
Theorem record_outcomes :
  forall db u q a now,
    let v := select_player_id db u in
    let s := select_active_session db v in
    let c := select_correct_answer db q in
    let r := sp_record_player_answers u q a now db in
    (fst r = inl not_null_violation <-> (s = None \/ c = None))
    /\ (fst r = inl check_violation <-> (s <> None /\ c <> None /\ is_abcd a = false))
    /\ (fst r = inl unique_violation <->
        exists p s', v = Some p /\ s = Some s' /\ c <> None /\ is_abcd a = true
                     /\ answer_rows db p q s' <> [])
    /\ (fst r = inr tt <->
        exists p s', v = Some p /\ s = Some s' /\ c <> None /\ is_abcd a = true
                     /\ answer_rows db p q s' = [])
    /\ fst r <> inl invalid_row_count_in_limit_clause
    /\ (raised r = true -> snd r = db).
Proof.
  intros db u q a now. cbv zeta. unfold raised, answer_rows.
  destruct (select_active_session db (select_player_id db u)) as [s|] eqn:Es;
    [|rewrite (sp_record_player_answers_no_session _ _ _ _ _ Es); cbn [fst snd]; record_case].
  destruct (select_player_id db u) as [p|] eqn:Ep;
    [|rewrite select_active_session_null in Es; discriminate].
  destruct (select_correct_answer db q) as [c|] eqn:Ec.
  2:{ assert (E : sp_record_player_answers u q a now db = (inl not_null_violation, db))
        by (rewrite sp_record_player_answers_unfold, Ep, Es, Ec; reflexivity).
      rewrite E. cbn [fst snd]. record_case. }
  destruct (is_abcd a) eqn:Ea.
  2:{ assert (E : sp_record_player_answers u q a now db = (inl check_violation, db))
        by (rewrite sp_record_player_answers_unfold, Ep, Es, Ec; simpl; rewrite Ea;
            reflexivity).
      rewrite E. cbn [fst snd]. record_case. }
  rewrite (sp_record_player_answers_run _ _ _ _ _ _ _ _ Ep Es Ec Ea).
  destruct (existsb (same_answer_key p q s) (player_answers db)) eqn:Ex.
  - assert (Hne : filter (same_answer_key p q s) (player_answers db) <> []).
    { intros E. apply existsb_false_filter in E. congruence. }
    cbn [fst snd]. record_case.
    intros _. exists p, s. repeat split; auto; discriminate.
  - apply existsb_false_filter in Ex. cbn [fst snd]. record_case.
    intros _. exists p, s. repeat split; auto; discriminate.
Qed.

Lemma record_outcomes_witness :
  select_active_session sample_database (select_player_id sample_database "alice") = None
  /\ fst (sp_record_player_answers "alice" 1 "a" 5 sample_database) = inl not_null_violation.
Proof.
  assert (H : select_active_session sample_database
                (select_player_id sample_database "alice") = None)
    by (vm_compute; reflexivity).
  split; [exact H|].
  exact (proj2 (proj1 (record_outcomes sample_database "alice" 1 "a"%char 5))
           (or_introl H)).
Defined.

(** ** fn_get_unanswered_questions: new sessions and the LIMIT *)

(** X7. In every state the engine reaches, [fn_get_unanswered_questions]
    fails exactly when the player's open session holds more than 20
    answer rows: the LIMIT is then negative.  Nothing else makes it
    fail, and the failed call leaves the database as it was. *)
Theorem unanswered_raises_iff_overfull :
  forall c u now order,
    engine_reachable c ->
    (raised (fn_get_unanswered_questions u now order (working c)) = true <->
     exists s,
       select_active_session (working c) (select_player_id (working c) u) = Some s
       /\ 20 < count (session_answers (working c) s))
    /\ (raised (fn_get_unanswered_questions u now order (working c)) = true ->
        fn_get_unanswered_questions u now order (working c)
        = (inl invalid_row_count_in_limit_clause, working c)).
Proof.
  intros c u now order Hr.
  destruct (engine_reachable_invariant c Hr) as (_ & I & _).
  destruct (select_active_session (working c) (select_player_id (working c) u))
    as [s|] eqn:Hs.
  - rewrite (fn_get_unanswered_questions_existing u now order _ s Hs).
    destruct (select_player_id (working c) u) as [p|] eqn:Hp;
      [|rewrite select_active_session_null in Hs; discriminate].
    destruct (engine_reachable_open_session c p s Hr Hs) as [Hown _].
    rewrite (answer_of_owned _ p s Hown).
    destruct (20 - count (session_answers (working c) s) <? 0) eqn:E; unfold raised; simpl.
    + apply Z.ltb_lt in E. split; [|reflexivity].
      split; [intros _; exists s; split; [reflexivity | lia] | reflexivity].
    + apply Z.ltb_ge in E. split; [|discriminate].
      split; [discriminate|]. intros (s' & [= <-] & H). lia.
  - rewrite (fn_get_unanswered_questions_new _ u now order I Hs). unfold raised. simpl.
    split; [|discriminate]. split; [discriminate|]. intros (s & H & _). discriminate.
Qed.

Lemma unanswered_raises_iff_overfull_witness :
  engine_reachable overfull
  /\ fn_get_unanswered_questions "alice" 30000000 same_order (working overfull)
     = (inl invalid_row_count_in_limit_clause, working overfull).
Proof.
  assert (Hr : engine_reachable overfull).
  { exists sample_database, overfull_ops. split; [repeat split | reflexivity]. }
  split; [exact Hr|].
  apply (proj2 (unanswered_raises_iff_overfull overfull "alice" 30000000 same_order Hr)).
  vm_compute. reflexivity.
Defined.

Lemma select_active_session_app_new db v id now seq' :
  select_active_session db v = None ->
  select_active_session
    (set_game_sessions (game_sessions db ++ [GameSession.mk id v now None 0 false true])
       (set_session_id_seq seq' db)) v
  = match v with Some _ => Some id | None => None end.
Proof.
  intros Hs. destruct v as [p|]; [|apply select_active_session_null].
  unfold select_active_session in *. simpl game_sessions.
  destruct (find (is_open_session_of (Some p)) (game_sessions db)) eqn:E; [discriminate|].
  clear Hs. induction (game_sessions db) as [|gs l IH]; simpl.
  - unfold is_open_session_of. simpl. rewrite Z.eqb_refl. reflexivity.
  - simpl in E. destruct (is_open_session_of (Some p) gs); [discriminate|]. apply IH, E.
Qed.

(** X8. In every state the engine reaches, for a user without an open
    session, [fn_get_unanswered_questions] succeeds: it appends one
    session row (id from the sequence, started now, nothing solved,
    active) and returns the first 20 questions of the random order,
    that is 20 questions, or all of them when the table has fewer.
    The new session is then the open session of a known player.  For a
    name that [players] lacks the row has a NULL player: it is never
    found again, and recording an answer then fails on the NULL
    player id. *)
Theorem unanswered_opens_session :
  forall c u now order,
    engine_reachable c ->
    select_active_session (working c) (select_player_id (working c) u) = None ->
    let db := working c in
    let NEW := GameSession.mk (session_id_seq db) (select_player_id db u) now None 0 false
                 true in
    let db' := set_game_sessions (game_sessions db ++ [NEW])
                 (set_session_id_seq (session_id_seq db + 1) db) in
    fn_get_unanswered_questions u now order db
    = (inr (map (fun q => (Question.question_id q, Question.correct_answer q))
              (firstn 20 (order (questions db)))), db')
    /\ ((forall l, Permutation l (order l)) ->
        count (firstn 20 (order (questions db))) = Z.min 20 (count (questions db)))
    /\ (select_player_id db u <> None ->
        select_active_session db' (select_player_id db' u) = Some (session_id_seq db))
    /\ (select_player_id db u = None ->
        select_active_session db' (select_player_id db' u) = None
        /\ forall q a now', sp_record_player_answers u q a now' db'
                            = (inl not_null_violation, db')).
Proof.
  intros c u now order Hr Hs. cbv zeta.
  destruct (engine_reachable_invariant c Hr) as (_ & I & _).
  split; [apply (fn_get_unanswered_questions_new _ u now order I Hs)|].
  assert (Hp : forall gs seq',
             select_player_id (set_game_sessions gs (set_session_id_seq seq' (working c))) u
             = select_player_id (working c) u) by reflexivity.
  split; [|split].
  - intros Hperm. unfold count. rewrite length_firstn, <- (Permutation_length (Hperm _)). lia.
  - intros Hsome. rewrite Hp, (select_active_session_app_new _ _ _ _ _ Hs).
    destruct (select_player_id (working c) u); [reflexivity | contradiction].
  - intros Hnone. rewrite Hp, Hnone.
    split; [apply select_active_session_null|]. intros q a now'.
    apply sp_record_player_answers_no_session. rewrite Hp, Hnone.
    apply select_active_session_null.
Qed.

Lemma unanswered_opens_session_witness :
  engine_reachable (connect sample_database)
  /\ select_player_id (working (connect sample_database)) "carol" = None
  /\ fst (fn_get_unanswered_questions "carol" 7 same_order sample_database)
     = inr (map (fun q => (Question.question_id q, Question.correct_answer q))
              (firstn 20 sample_questions)).
Proof.
  assert (Hr : engine_reachable (connect sample_database)).
  { exists sample_database, []. split; [repeat split | reflexivity]. }
  split; [exact Hr|]. split; [reflexivity|].
  exact (f_equal fst
           (proj1 (unanswered_opens_session (connect sample_database) "carol" 7 same_order
                     Hr eq_refl))).
Defined.

(** ** Failed calls, and what no call undoes *)

Lemma update_or_insert_high_score_raised score v t e db :
  raised (update_or_insert_high_score score v t e db) = true ->
  snd (update_or_insert_high_score score v t e db) = db.
Proof.
  unfold raised, update_or_insert_high_score, bind, get.
  destruct (existsb _ (high_scores db)).
  - unfold update_high_score. destruct (existsb _ _); [|discriminate].
    destruct t, e; try reflexivity. discriminate.
  - unfold insert_high_score, raise. destruct t, e; try reflexivity.
    destruct (negb _); [reflexivity|]. destruct (existsb _ _); [reflexivity | discriminate].
Qed.

Lemma sp_record_player_answers_raised u q a now db :
  raised (sp_record_player_answers u q a now db) = true ->
  snd (sp_record_player_answers u q a now db) = db.
Proof.
  destruct (sp_record_player_answers u q a now db) as [[e|[]] db'] eqn:E;
    unfold raised; simpl; [intros _ | discriminate].
  revert E. rewrite sp_record_player_answers_unfold. unfold insert_player_answer, raise.
  destruct (select_player_id db u) as [p0|]; [|intros [= _ <-]; reflexivity].
  destruct (select_active_session db (Some p0)); [|intros [= _ <-]; reflexivity].
  destruct (option_map _ _); [|intros [= _ <-]; reflexivity].
  destruct (negb _); [intros [= _ <-]; reflexivity|].
  destruct (existsb _ _); [intros [= _ <-]; reflexivity | discriminate].
Qed.

(** Under the invariant a routine that raises has changed nothing. *)
Lemma op_raises_unchanged db op :
  engine_invariant db -> op_raises op db = true -> op_effect op db = db.
Proof.
  intros I. destruct op as [u now order | u q a now | u | u | u | u];
    unfold op_raises, op_effect.
  - destruct (select_active_session db (select_player_id db u)) as [s|] eqn:Hs.
    + rewrite (fn_get_unanswered_questions_existing u now order _ s Hs).
      destruct (_ <? 0); reflexivity.
    + rewrite (fn_get_unanswered_questions_new _ u now order I Hs). discriminate.
  - apply sp_record_player_answers_raised.
  - rewrite sp_completing_session_unfold. discriminate.
  - rewrite sp_reset_player_answers_unfold. discriminate.
  - discriminate.
  - rewrite sp_update_high_scores_unfold. destruct (_ && _); [|discriminate].
    apply update_or_insert_high_score_raised.
Qed.

(** X9. In every state the engine reaches, a call that raises leaves the
    connection at its last commit, the sequence apart: no answer and
    no high score is lost, since those are always committed; what is
    lost are the sessions that [fn_get_unanswered_questions] opened
    since the last commit, rows without an answer, whose ids stay
    used. *)
Theorem failed_call_rolls_back :
  forall c op,
    engine_reachable c ->
    op_raises op (working c) = true ->
    run_op c op = connect (set_session_id_seq (session_id_seq (working c)) (committed c))
    /\ questions (working (run_op c op)) = questions (working c)
    /\ players (working (run_op c op)) = players (working c)
    /\ player_answers (working (run_op c op)) = player_answers (working c)
    /\ high_scores (working (run_op c op)) = high_scores (working c)
    /\ exists pending,
         game_sessions (working c) = game_sessions (working (run_op c op)) ++ pending
         /\ Forall is_new_session pending
         /\ forall gs, In gs pending -> session_answers (working c) (GameSession.session_id gs) = [].
Proof.
  intros c op Hr Hraise.
  destruct (engine_reachable_invariant c Hr) as (_ & I & _).
  destruct (engine_reachable_pending c Hr) as (Hq & Hp & Ha & Hh & pending & Hs & Hnew).
  rewrite run_op_cases, Hraise, (op_raises_unchanged _ _ I Hraise).
  unfold rollback, connect. simpl working.
  split; [reflexivity|]. simpl. repeat split; try (symmetry; assumption).
  exists pending. split; [exact Hs|]. split; [exact Hnew|].
  intros gs Hin. rewrite Forall_forall in Hnew.
  destruct (Hnew gs Hin) as (_ & H0 & _ & Hact).
  assert (Hgs : In gs (game_sessions (working c)))
    by (rewrite Hs; apply in_or_app; right; exact Hin).
  pose proof (inv_solved _ I gs Hgs) as Hsolved. rewrite Hact in Hsolved.
  specialize (Hsolved eq_refl). rewrite H0 in Hsolved.
  unfold count in Hsolved. destruct (session_answers _ _); [reflexivity | discriminate].
Qed.

Lemma failed_call_rolls_back_witness :
  engine_reachable opened
  /\ op_raises (record_answer "alice" 99 "a" 200) (working opened) = true
  /\ count (game_sessions (working opened)) = 1
  /\ game_sessions (working (run_op opened (record_answer "alice" 99 "a" 200))) = []
  /\ session_id_seq (working (run_op opened (record_answer "alice" 99 "a" 200))) = 2.
Proof.
  assert (Hr : engine_reachable opened).
  { exists sample_database, opened_ops. split; [repeat split | reflexivity]. }
  assert (Hraise : op_raises (record_answer "alice" 99 "a" 200) (working opened) = true)
    by (vm_compute; reflexivity).
  split; [exact Hr|]. split; [exact Hraise|]. split; [vm_compute; reflexivity|].
  rewrite (proj1 (failed_call_rolls_back opened _ Hr Hraise)).
  split; vm_compute; reflexivity.
Defined.

(** ** What a finished game keeps *)

Lemma In_update_where_miss {A : Type} (c : A -> bool) (f : A -> A) (l : list A) x :
  In x l -> c x = false -> In x (update_where c f l).
Proof.
  intros Hin Hc. unfold update_where. apply in_map_iff. exists x. rewrite Hc. auto.
Qed.

Lemma In_delete_where {A : Type} (c : A -> bool) (l : list A) x :
  In x (delete_where c l) <-> In x l /\ c x = false.
Proof. unfold delete_where. rewrite filter_In, negb_true_iff. reflexivity. Qed.

(** A closed session is not the one a lookup of the open session finds. *)
Lemma has_session_id_completed db v gs :
  engine_invariant db -> In gs (game_sessions db) -> is_closed gs ->
  has_session_id (select_active_session db v) gs = false.
Proof.
  intros I Hin Hc. destruct (select_active_session db v) as [s|] eqn:Hs.
  - rewrite has_session_id_Some. apply Z.eqb_neq. intros Hid.
    pose proof (open_session_row db v s gs I Hs Hin Hid) as Ho.
    destruct (is_open_session_of_Some _ _ Ho) as (_ & _ & H & H').
    destruct Hc; congruence.
  - unfold has_session_id. apply sql_eq_None_r.
Qed.

Lemma session_answers_completed db v v' gs :
  engine_invariant db -> In gs (game_sessions db) -> is_closed gs ->
  forall pa, answer_of v' (select_active_session db v) pa = true ->
    (PlayerAnswer.session_id pa =? GameSession.session_id gs) = false.
Proof.
  intros I Hin Hc pa Ha. pose proof (has_session_id_completed db v gs I Hin Hc) as H.
  unfold answer_of in Ha. apply andb_true_iff in Ha. destruct Ha as [_ Ha].
  destruct (select_active_session db v) as [s|]; [|rewrite sql_eq_None_r in Ha; discriminate].
  rewrite has_session_id_Some in H. rewrite sql_eq_Some in Ha.
  apply Z.eqb_eq in Ha. apply Z.eqb_neq in H. apply Z.eqb_neq. congruence.
Qed.

(** No routine touches the row or the answers of a closed session. *)
Lemma op_effect_completed db op gs :
  engine_invariant db -> In gs (game_sessions db) -> is_closed gs ->
  In gs (game_sessions (op_effect op db))
  /\ session_answers (op_effect op db) (GameSession.session_id gs)
     = session_answers db (GameSession.session_id gs).
Proof.
  intros I Hin Hc.
  destruct op as [u now order | u q a now | u | u | u | u]; unfold op_effect.
  - rewrite snd_fn_get_unanswered_questions.
    destruct (get_or_create_session_frame (select_player_id db u) now db)
      as (_ & _ & Ha & _).
    destruct (get_or_create_session_sessions (select_player_id db u) now db)
      as (new & Hs & _).
    unfold session_answers. simpl in Ha. rewrite Ha, Hs.
    split; [apply in_or_app; left; exact Hin | reflexivity].
  - destruct (sp_record_player_answers_cases u q a now db)
      as [-> | (p & s & c & Hp & Hs & ->)]; [split; [exact Hin | reflexivity]|].
    pose proof (has_session_id_completed db (Some p) gs I Hin Hc) as Hmiss.
    rewrite Hs in Hmiss. unfold recorded. simpl PlayerAnswer.session_id. split.
    + simpl. apply In_update_where_miss; assumption.
    + unfold session_answers. simpl. rewrite filter_app. simpl.
      rewrite has_session_id_Some, Z.eqb_sym in Hmiss. rewrite Hmiss. apply app_nil_r.
  - rewrite sp_completing_session_unfold. simpl. split; [|reflexivity].
    apply In_update_where_miss; [exact Hin | apply has_session_id_completed; assumption].
  - rewrite sp_reset_player_answers_unfold. simpl. split.
    + apply In_update_where_miss; [exact Hin | apply has_session_id_completed; assumption].
    + unfold session_answers. simpl. apply filter_delete_where_miss.
      apply (session_answers_completed db _ _ gs I Hin Hc).
  - split; [exact Hin | reflexivity].
  - destruct (sp_update_high_scores_frame u db) as (_ & _ & Hs & Ha & _).
    unfold session_answers. rewrite Hs, Ha. split; [exact Hin | reflexivity].
Qed.

Lemma run_op_completed c op gs :
  engine_reachable c ->
  In gs (game_sessions (working c)) -> is_closed gs ->
  In gs (game_sessions (working (run_op c op)))
  /\ session_answers (working (run_op c op)) (GameSession.session_id gs)
     = session_answers (working c) (GameSession.session_id gs).
Proof.
  intros Hr Hin Hc.
  destruct (engine_reachable_invariant c Hr) as (_ & I & _).
  destruct (engine_reachable_pending c Hr) as (_ & _ & Ha & _ & pending & Hs & Hnew).
  rewrite run_op_cases. destruct (op_raises op (working c)).
  - unfold rollback, session_answers. simpl. rewrite Ha. split; [|reflexivity].
    rewrite Hs in Hin. apply in_app_or in Hin. destruct Hin as [Hin | Hin]; [exact Hin|].
    rewrite Forall_forall in Hnew. destruct (Hnew gs Hin) as (_ & _ & H & H').
    destruct Hc; congruence.
  - destruct (is_procedure op); simpl working; apply op_effect_completed; assumption.
Qed.

(** X10. A closed game is final: in every state the engine reaches,
    whatever calls follow (of any player, failed or not, resets
    included), the row of a session that is completed, or that a reset
    has made inactive, stays as it is and its answer rows stay the
    same. *)
Theorem completed_game_is_final :
  forall ops c gs,
    engine_reachable c ->
    In gs (game_sessions (working c)) ->
    GameSession.is_completed gs = true \/ GameSession.is_active gs = false ->
    In gs (game_sessions (working (run_ops ops c)))
    /\ session_answers (working (run_ops ops c)) (GameSession.session_id gs)
       = session_answers (working c) (GameSession.session_id gs).
Proof.
  induction ops as [|op ops IH]; intros c gs Hr Hin Hc; [split; [exact Hin | reflexivity]|].
  destruct (run_op_completed c op gs Hr Hin Hc) as [Hin' Ha'].
  destruct (IH (run_op c op) gs (engine_reachable_step c op Hr) Hin' Hc) as [Hin2 Ha2].
  simpl. split; [exact Hin2 | rewrite Ha2; exact Ha'].
Qed.

Lemma completed_game_is_final_witness :
  engine_reachable completed_game
  /\ In (GameSession.mk 1 (Some 1) 100 (Some 20000100) 20 true false)
       (game_sessions (working completed_game))
  /\ In (GameSession.mk 1 (Some 1) 100 (Some 20000100) 20 true false)
       (game_sessions
          (working (run_ops [reset_game "alice"; check_unanswered "alice" 9 same_order;
                             reset_game "alice"] completed_game))).
Proof.
  assert (Hr : engine_reachable completed_game).
  { exists sample_database, (game "alice" 100 20 ++ [completing_session "alice"%string]).
    split; [repeat split | reflexivity]. }
  assert (Hin : In (GameSession.mk 1 (Some 1) 100 (Some 20000100) 20 true false)
                  (game_sessions (working completed_game)))
    by (vm_compute; left; reflexivity).
  split; [exact Hr|]. split; [exact Hin|].
  exact (proj1 (completed_game_is_final _ completed_game _ Hr Hin (or_introl eq_refl))).
Defined.

(** X11. In every state the engine reaches, an answer row is lost by
    one call only: [sp_reset_player_answers] for the player whose open
    session holds it.  Any other call, failed or not, keeps it. *)
Theorem answers_only_lost_by_reset :
  forall c op pa,
    engine_reachable c ->
    In pa (player_answers (working c)) ->
    In pa (player_answers (working (run_op c op)))
    \/ exists u,
         op = reset_game u
         /\ select_player_id (working c) u = Some (PlayerAnswer.player_id pa)
         /\ select_active_session (working c) (Some (PlayerAnswer.player_id pa))
            = Some (PlayerAnswer.session_id pa).
Proof.
  intros c op pa Hr Hin.
  destruct (engine_reachable_pending c Hr) as (_ & _ & Ha & _).
  rewrite run_op_cases. destruct (op_raises op (working c)).
  - left. unfold rollback. simpl. rewrite <- Ha. exact Hin.
  - assert (Hw : forall b, working (if b : bool
                                    then mk_connection (op_effect op (working c))
                                           (op_effect op (working c))
                                    else mk_connection (committed c)
                                           (op_effect op (working c)))
                           = op_effect op (working c)) by (intros []; reflexivity).
    rewrite Hw. clear Hw.
    assert (Hkeep : (forall u, op <> reset_game u) ->
                    In pa (player_answers (op_effect op (working c)))).
    { intros Hop. destruct (op_effect_answers op (working c) Hop) as (new & -> & _).
      apply in_or_app. left. exact Hin. }
    destruct op as [u now order | u q a now | u | u | u | u];
      try (left; apply Hkeep; intros u'; discriminate).
    unfold op_effect. rewrite sp_reset_player_answers_unfold. simpl.
    destruct (answer_of (select_player_id (working c) u)
                (select_active_session (working c) (select_player_id (working c) u)) pa)
      eqn:E.
    + right. exists u. unfold answer_of in E. apply andb_true_iff in E.
      destruct E as [E1 E2].
      destruct (select_player_id (working c) u) as [p|]; [|discriminate].
      rewrite sql_eq_Some in E1. apply Z.eqb_eq in E1. subst p.
      destruct (select_active_session (working c) (Some (PlayerAnswer.player_id pa)))
        as [s|]; [|discriminate].
      rewrite sql_eq_Some in E2. apply Z.eqb_eq in E2. subst s. auto.
    + left. apply In_delete_where. auto.
Qed.

Lemma answers_only_lost_by_reset_witness :
  engine_reachable (playing 2)
  /\ In (PlayerAnswer.mk 1 1 1 "b" false 1000100) (player_answers (working (playing 2)))
  /\ (In (PlayerAnswer.mk 1 1 1 "b" false 1000100)
        (player_answers (working (run_op (playing 2) (reset_game "bob"))))
      \/ exists u,
           reset_game "bob" = reset_game u
           /\ select_player_id (working (playing 2)) u = Some 1
           /\ select_active_session (working (playing 2)) (Some 1) = Some 1).
Proof.
  assert (Hr : engine_reachable (playing 2)).
  { exists sample_database, (game "alice" 100 2). split; [repeat split | reflexivity]. }
  assert (Hin : In (PlayerAnswer.mk 1 1 1 "b" false 1000100)
                  (player_answers (working (playing 2))))
    by (vm_compute; left; reflexivity).
  split; [exact Hr|]. split; [exact Hin|].
  exact (answers_only_lost_by_reset (playing 2) (reset_game "bob") _ Hr Hin).
Defined.

(** ** Statistics of the current game *)

Lemma count_filter_split {A : Type} (p : A -> bool) (l : list A) :
  count (filter p l) + count (filter (fun x => negb (p x)) l) = count l.
Proof.
  unfold count. induction l as [|x l IH]; [reflexivity|].
  simpl. destruct (p x); simpl length; lia.
Qed.

(** X12. In every state the engine reaches, [fn_get_answer_stats]
    returns one pair and changes nothing.  For a player with an open
    session the two counts add up to the answer rows of that session,
    which is its [questions_solved]; the first is the number of its
    correct answers.  Without an open session (a game just completed
    or reset, an unknown name) the pair is (0, 0). *)
Theorem answer_stats_of_open_session :
  forall c u,
    engine_reachable c ->
    exists right wrong,
      fn_get_answer_stats u (working c) = (inr (right, wrong), working c)
      /\ 0 <= right /\ 0 <= wrong
      /\ (forall s,
            select_active_session (working c) (select_player_id (working c) u) = Some s ->
            right = count (filter PlayerAnswer.is_correct (session_answers (working c) s))
            /\ right + wrong = count (session_answers (working c) s)
            /\ forall gs, In gs (game_sessions (working c)) ->
                 GameSession.session_id gs = s ->
                 GameSession.questions_solved gs = right + wrong)
      /\ (select_active_session (working c) (select_player_id (working c) u) = None ->
          right = 0 /\ wrong = 0).
Proof.
  intros c u Hr. destruct (engine_reachable_invariant c Hr) as (_ & I & _).
  unfold fn_get_answer_stats, bind, get, ret. eexists. eexists.
  split; [reflexivity|]. split; [unfold count; lia|]. split; [unfold count; lia|]. split.
  - intros s Hs. rewrite Hs.
    destruct (select_player_id (working c) u) as [p|] eqn:Hp;
      [|rewrite select_active_session_null in Hs; discriminate].
    destruct (engine_reachable_open_session c p s Hr Hs) as [Hown Hsolved].
    rewrite (answer_of_owned _ p s Hown).
    split; [reflexivity|]. rewrite count_filter_split. split; [reflexivity|].
    intros gs Hin Hid. rewrite <- Hid. apply (inv_solved _ I gs Hin).
    pose proof (open_session_row _ _ s gs I Hs Hin Hid) as Ho.
    destruct (is_open_session_of_Some _ _ Ho) as (_ & _ & _ & ->). reflexivity.
  - intros Hs. rewrite Hs.
    assert (E : filter (answer_of (select_player_id (working c) u) None)
                  (player_answers (working c)) = []).
    { apply existsb_false_filter, not_true_is_false. intros E.
      apply existsb_exists in E. destruct E as (pa & _ & Ha).
      rewrite answer_of_null_session in Ha. discriminate. }
    rewrite E. split; reflexivity.
Qed.

Lemma answer_stats_of_open_session_witness :
  engine_reachable (playing 2)
  /\ fn_get_answer_stats "alice" (working (playing 2)) = (inr (1, 1), working (playing 2)).
Proof.
  assert (Hr : engine_reachable (playing 2)).
  { exists sample_database, (game "alice" 100 2). split; [repeat split | reflexivity]. }
  split; [exact Hr|].
  destruct (answer_stats_of_open_session (playing 2) "alice" Hr)
    as (right & wrong & E & _).
  rewrite E. vm_compute in E. injection E as <- <-. reflexivity.
Defined.

(** ** The statistics menu *)

Lemma sql_sum_indicator {A : Type} (p : A -> bool) (l : list A) :
  sql_sum (map (fun x => if p x then 1 else 0) l) = count (filter p l).
Proof.
  unfold count. induction l as [|x l IH]; [reflexivity|].
  simpl. destruct (p x); simpl length; lia.
Qed.

Lemma sql_sum_cons x l : sql_sum (x :: l) = x + sql_sum l.
Proof. reflexivity. Qed.

Lemma sql_sum_Permutation l l' : Permutation l l' -> sql_sum l = sql_sum l'.
Proof. induction 1; simpl; lia. Qed.

Lemma sql_sum_one_key (k : Z) (keys : list Z) :
  NoDup keys -> In k keys -> sql_sum (map (fun k' => if k =? k' then 1 else 0) keys) = 1.
Proof.
  induction keys as [|k' keys IH]; simpl; intros Hnd Hin; [contradiction|].
  inversion Hnd as [|? ? Hfresh Hrest]; subst. destruct (k =? k') eqn:E.
  - apply Z.eqb_eq in E. subst k'.
    assert (H0 : sql_sum (map (fun k' => if k =? k' then 1 else 0) keys) = 0).
    { clear - Hfresh. induction keys as [|x keys IH]; simpl; [reflexivity|].
      destruct (k =? x) eqn:E.
      - apply Z.eqb_eq in E. subst x. exfalso. apply Hfresh. left. reflexivity.
      - apply IH. intros H. apply Hfresh. right. exact H. }
    lia.
  - apply Z.eqb_neq in E. destruct Hin as [-> | Hin]; [contradiction|].
    rewrite IH by assumption. lia.
Qed.

(** GROUP BY partitions the rows: the sizes of the groups add up. *)
Lemma sql_sum_groups {A : Type} (key : A -> Z) (l : list A) (keys : list Z) :
  NoDup keys -> (forall x, In x l -> In (key x) keys) ->
  sql_sum (map (fun k => count (filter (fun x => key x =? k) l)) keys) = count l.
Proof.
  intros Hnd. induction l as [|x l IH]; intros Hin.
  - simpl. clear. induction keys as [|k keys IH]; simpl; [reflexivity | exact IH].
  - assert (E : sql_sum (map (fun k => count (filter (fun y => key y =? k) (x :: l))) keys)
                = sql_sum (map (fun k => if key x =? k then 1 else 0) keys)
                  + sql_sum (map (fun k => count (filter (fun y => key y =? k) l)) keys)).
    { clear. induction keys as [|k keys IH]; [reflexivity|].
      rewrite !map_cons, !sql_sum_cons, IH. simpl filter. unfold count.
      destruct (key x =? k); simpl length; lia. }
    rewrite E, IH by (intros y Hy; apply Hin; right; exact Hy).
    rewrite sql_sum_one_key by (try assumption; apply Hin; left; reflexivity).
    unfold count. simpl length. lia.
Qed.

Lemma most_correct_is_max db q c :
  In (q, c) (fn_get_most_correctly_answered_question db) ->
  c = number_correct db q /\ 0 < c /\ forall q', number_correct db q' <= c.
Proof.
  unfold fn_get_most_correctly_answered_question. rewrite filter_In, In_correct_counts.
  simpl. intros [[-> Hpos] Hmax]. split; [reflexivity|]. split; [exact Hpos|].
  intros q'. destruct (sql_max _) as [m|] eqn:E; [|discriminate].
  simpl in Hmax. apply Z.eqb_eq in Hmax. rewrite Hmax.
  destruct (Z_lt_le_dec 0 (number_correct db q')) as [Hq' | Hq']; [|lia].
  apply (proj2 (sql_max_Some _ _ E)).
  apply in_map_iff. exists (q', number_correct db q'). split; [reflexivity|].
  apply In_correct_counts. auto.
Qed.

(** The line of [fn_get_question_answers_statistics] for question [q]. *)
Lemma In_question_statistics db line :
  In line (fn_get_question_answers_statistics db) <->
  (exists pa, In pa (player_answers db)
              /\ PlayerAnswer.question_id pa = QuestionStats.question_id line)
  /\ line = QuestionStats.mk (QuestionStats.question_id line)
              (count (filter (fun pa => PlayerAnswer.question_id pa
                                        =? QuestionStats.question_id line)
                        (player_answers db)))
              (number_correct db (QuestionStats.question_id line))
              (count (filter (fun pa => PlayerAnswer.question_id pa
                                        =? QuestionStats.question_id line)
                        (player_answers db))
               - number_correct db (QuestionStats.question_id line)).
Proof.
  assert (Hc : forall q,
             sql_sum (map (fun pa => if PlayerAnswer.is_correct pa then 1 else 0)
                        (filter (fun pa => PlayerAnswer.question_id pa =? q)
                           (player_answers db)))
             = number_correct db q).
  { intros q. rewrite sql_sum_indicator, filter_filter_andb. unfold number_correct.
    f_equal. apply filter_ext_in_eq. intros pa _. apply andb_comm. }
  assert (Hw : forall q,
             sql_sum (map (fun pa => if negb (PlayerAnswer.is_correct pa) then 1 else 0)
                        (filter (fun pa => PlayerAnswer.question_id pa =? q)
                           (player_answers db)))
             = count (filter (fun pa => PlayerAnswer.question_id pa =? q) (player_answers db))
               - number_correct db q).
  { intros q. rewrite <- Hc, !sql_sum_indicator.
    pose proof (count_filter_split PlayerAnswer.is_correct
                  (filter (fun pa => PlayerAnswer.question_id pa =? q) (player_answers db))).
    lia. }
  unfold fn_get_question_answers_statistics. rewrite In_order_by, in_map_iff. split.
  - intros (q & <- & Hin). simpl. rewrite Hc, Hw. split; [|reflexivity].
    apply nodup_In, in_map_iff in Hin. destruct Hin as (pa & Hq & Hin). eauto.
  - intros [(pa & Hin & Hq) E]. exists (QuestionStats.question_id line).
    split; [rewrite Hc, Hw; symmetry; exact E|].
    apply nodup_In, in_map_iff. eauto.
Qed.

(** X13. The table of [fn_get_question_answers_statistics], in every
    database: one line for each question that has an answer row and
    for no other; the lines are in descending order of total_answered;
    in a line total_answered is positive and is the sum of
    correct_answers and incorrect_answers; the totals add up to the
    number of answer rows.  A question that
    [fn_get_most_correctly_answered_question] names has the greatest
    correct_answers of the table, the number it reports. *)
Theorem question_statistics_table :
  forall db,
    StronglySorted
      (fun a b => QuestionStats.total_answered b <= QuestionStats.total_answered a)
      (fn_get_question_answers_statistics db)
    /\ NoDup (map QuestionStats.question_id (fn_get_question_answers_statistics db))
    /\ (forall q,
          In q (map QuestionStats.question_id (fn_get_question_answers_statistics db))
          <-> exists pa, In pa (player_answers db) /\ PlayerAnswer.question_id pa = q)
    /\ (forall line, In line (fn_get_question_answers_statistics db) ->
          0 < QuestionStats.total_answered line
          /\ 0 <= QuestionStats.correct_answers line
          /\ 0 <= QuestionStats.incorrect_answers line
          /\ QuestionStats.correct_answers line
             = number_correct db (QuestionStats.question_id line)
          /\ QuestionStats.total_answered line
             = QuestionStats.correct_answers line + QuestionStats.incorrect_answers line)
    /\ sql_sum (map QuestionStats.total_answered (fn_get_question_answers_statistics db))
       = count (player_answers db)
    /\ (forall q c,
          In (q, c) (fn_get_most_correctly_answered_question db) ->
          exists line,
            In line (fn_get_question_answers_statistics db)
            /\ QuestionStats.question_id line = q
            /\ QuestionStats.correct_answers line = c
            /\ forall line', In line' (fn_get_question_answers_statistics db) ->
                 QuestionStats.correct_answers line' <= c).
Proof.
  intros db.
  assert (Hperm : forall f : QuestionStats.row -> Z,
             Permutation
               (map f (fn_get_question_answers_statistics db))
               (map (fun q => f (QuestionStats.mk q
                      (count (filter (fun pa => PlayerAnswer.question_id pa =? q)
                                (player_answers db)))
                      (sql_sum (map (fun pa => if PlayerAnswer.is_correct pa then 1 else 0)
                                  (filter (fun pa => PlayerAnswer.question_id pa =? q)
                                     (player_answers db))))
                      (sql_sum (map (fun pa => if negb (PlayerAnswer.is_correct pa)
                                               then 1 else 0)
                                  (filter (fun pa => PlayerAnswer.question_id pa =? q)
                                     (player_answers db))))))
                  (nodup Z.eq_dec (map PlayerAnswer.question_id (player_answers db))))).
  { intros f. unfold fn_get_question_answers_statistics.
    eapply perm_trans; [apply Permutation_map, Permutation_sym, order_by_perm|].
    rewrite map_map. apply Permutation_refl. }
  assert (Hids : Permutation
                   (map QuestionStats.question_id (fn_get_question_answers_statistics db))
                   (nodup Z.eq_dec (map PlayerAnswer.question_id (player_answers db)))).
  { apply (perm_trans (Hperm QuestionStats.question_id)). simpl. rewrite map_id.
    apply Permutation_refl. }
  split; [apply order_by_desc_sorted|].
  split; [apply (Permutation_NoDup (Permutation_sym Hids)), NoDup_nodup|].
  split; [|split; [|split]].
  - intros q. split.
    + intros Hin. apply (Permutation_in _ Hids), nodup_In, in_map_iff in Hin.
      destruct Hin as (pa & Hq & Hin). eauto.
    + intros (pa & Hin & Hq). apply (Permutation_in _ (Permutation_sym Hids)).
      apply nodup_In, in_map_iff. eauto.
  - intros line Hin. apply In_question_statistics in Hin.
    destruct Hin as [(pa & Hpa & Hq) E]. rewrite E. simpl.
    assert (Hpos : 0 < count (filter (fun pa => PlayerAnswer.question_id pa
                                                =? QuestionStats.question_id line)
                                (player_answers db))).
    { apply count_pos_iff. exists pa. split; [exact Hpa | apply Z.eqb_eq; exact Hq]. }
    assert (Hle : number_correct db (QuestionStats.question_id line)
                  <= count (filter (fun pa => PlayerAnswer.question_id pa
                                              =? QuestionStats.question_id line)
                              (player_answers db))).
    { unfold number_correct.
      replace (filter (fun pa => PlayerAnswer.is_correct pa
                                 && (PlayerAnswer.question_id pa
                                     =? QuestionStats.question_id line))
                 (player_answers db))
        with (filter PlayerAnswer.is_correct
                (filter (fun pa => PlayerAnswer.question_id pa
                                   =? QuestionStats.question_id line) (player_answers db))).
      - pose proof (count_filter_split PlayerAnswer.is_correct
                      (filter (fun pa => PlayerAnswer.question_id pa
                                         =? QuestionStats.question_id line)
                         (player_answers db))) as H.
        unfold count in *. lia.
      - rewrite filter_filter_andb. apply filter_ext_in_eq. intros x _. apply andb_comm. }
    assert (H0 : 0 <= number_correct db (QuestionStats.question_id line))
      by (unfold number_correct, count; lia).
    repeat split; lia.
  - rewrite (sql_sum_Permutation _ _ (Hperm QuestionStats.total_answered)). simpl.
    apply sql_sum_groups; [apply NoDup_nodup|].
    intros pa Hin. apply nodup_In, in_map. exact Hin.
  - intros q c Hin. destruct (most_correct_is_max db q c Hin) as (-> & Hpos & Hmax).
    unfold number_correct in Hpos. apply count_pos_iff in Hpos.
    destruct Hpos as (pa & Hpa & Hc). apply andb_true_iff in Hc. destruct Hc as [_ Hq].
    apply Z.eqb_eq in Hq.
    eexists (QuestionStats.mk q _ (number_correct db q) _).
    split; [apply In_question_statistics; simpl; split; [eauto | reflexivity]|].
    split; [reflexivity|]. split; [reflexivity|].
    intros line' Hin'. apply In_question_statistics in Hin'. destruct Hin' as [_ ->].
    simpl. apply Hmax.
Qed.

(** ** Foreign keys *)

Lemma select_correct_answer_Some db q c :
  select_correct_answer db q = Some c -> question_exists db q.
Proof.
  unfold select_correct_answer. destruct (find _ _) as [r|] eqn:E; [|discriminate].
  intros _. apply find_some in E. destruct E as [Hin Hq]. apply Z.eqb_eq in Hq.
  exists r. auto.
Qed.

Lemma sessions_held_update db (c : GameSession.row -> bool) f db' :
  keeps_session f -> sessions_held db -> players db' = players db ->
  game_sessions db' = update_where c f (game_sessions db) ->
  sessions_held db'.
Proof.
  intros Hf H Hp Hs gs' p Hin Hpl. unfold player_exists. rewrite Hp.
  rewrite Hs in Hin. apply In_update_where in Hin. destruct Hin as (gs & Hin & ->).
  apply (H gs p Hin). destruct (c gs); [|exact Hpl].
  destruct (Hf gs) as (_ & <- & _). exact Hpl.
Qed.

Lemma op_effect_sessions_held op db : sessions_held db -> sessions_held (op_effect op db).
Proof.
  intros H. destruct op as [u now order | u q a now | u | u | u | u]; unfold op_effect.
  - rewrite snd_fn_get_unanswered_questions. unfold get_or_create_session, bind, get.
    destruct (select_active_session db (select_player_id db u)); [exact H|].
    unfold insert_game_session. destruct (existsb _ _); [exact H|].
    intros gs p Hin Hp. simpl in Hin. apply in_app_or in Hin.
    destruct Hin as [Hin | [<- | []]]; [apply (H gs p Hin Hp)|].
    simpl in Hp. destruct (select_player_id_In db u p Hp) as (pl & Hpl & Hid & _).
    exists pl. auto.
  - destruct (sp_record_player_answers_cases u q a now db)
      as [-> | (p & s & c & _ & _ & ->)]; [exact H|].
    eapply sessions_held_update; [apply keeps_session_set_questions_solved | exact H | |];
      reflexivity.
  - rewrite sp_completing_session_unfold.
    eapply sessions_held_update; [apply keeps_session_set_completed | exact H | |];
      reflexivity.
  - rewrite sp_reset_player_answers_unfold.
    eapply sessions_held_update; [apply keeps_session_set_inactive | exact H | |];
      reflexivity.
  - exact H.
  - destruct (sp_update_high_scores_frame u db) as (_ & Hp & Hs & _).
    intros gs p Hin Hpl. unfold player_exists. rewrite Hp. rewrite Hs in Hin.
    apply (H gs p Hin Hpl).
Qed.

Lemma op_effect_answers_of_questions op db :
  answers_of_questions db -> answers_of_questions (op_effect op db).
Proof.
  intros H. destruct (op_effect_frame op db) as (Hq & _).
  intros pa Hin. unfold question_exists. rewrite Hq. revert pa Hin.
  destruct op as [u now order | u q a now | u | u | u | u]; unfold op_effect.
  - rewrite snd_fn_get_unanswered_questions.
    destruct (get_or_create_session_frame (select_player_id db u) now db)
      as (_ & _ & Ha & _). simpl in Ha. rewrite Ha. exact H.
  - destruct (sp_record_player_answers u q a now db) as [[e|[]] db'] eqn:E.
    + assert (Hsame : snd (sp_record_player_answers u q a now db) = db)
        by (apply sp_record_player_answers_raised; unfold raised; rewrite E; reflexivity).
      rewrite E in Hsame. simpl in *. subst db'. exact H.
    + destruct (sp_record_player_answers_ok _ _ _ _ _ _ E)
        as (p & s & c & _ & _ & Hc & _ & _ & ->).
      intros pa Hin. simpl in Hin. apply in_app_or in Hin.
      destruct Hin as [Hin | [<- | []]]; [apply H, Hin|].
      apply (select_correct_answer_Some db q c Hc).
  - rewrite sp_completing_session_unfold. exact H.
  - rewrite sp_reset_player_answers_unfold. simpl. intros pa Hin.
    apply In_delete_where in Hin. apply H, Hin.
  - exact H.
  - destruct (sp_update_high_scores_frame u db) as (_ & _ & _ & Ha & _).
    rewrite Ha. exact H.
Qed.

Lemma engine_reachable_references c :
  engine_reachable c ->
  (sessions_held (committed c) /\ answers_of_questions (committed c))
  /\ (sessions_held (working c) /\ answers_of_questions (working c)).
Proof.
  apply (engine_reachable_induction
           (fun c => (sessions_held (committed c) /\ answers_of_questions (committed c))
                     /\ (sessions_held (working c) /\ answers_of_questions (working c)))).
  - intros db0 (Hs & Ha & _).
    assert (H : sessions_held db0 /\ answers_of_questions db0).
    { split; [intros gs p Hin | intros pa Hin]; [rewrite Hs in Hin | rewrite Ha in Hin];
        contradiction. }
    split; exact H.
  - intros c0 op _ [Hc [Hw1 Hw2]]. rewrite run_op_cases.
    pose proof (op_effect_sessions_held op _ Hw1) as H1.
    pose proof (op_effect_answers_of_questions op _ Hw2) as H2.
    destruct (op_raises op (working c0)); [split; exact Hc|].
    destruct (is_procedure op); split; auto.
Qed.

(** X14. The foreign keys hold in every state the engine reaches, in
    the working and in the committed state, although no routine checks
    them: a session with a player id, an answer row and a high score
    refer to rows of [players]; an answer row refers to a row of
    [questions] and to a row of [game_sessions]. *)
Theorem foreign_keys_hold :
  forall c, engine_reachable c ->
    references_hold (committed c) /\ references_hold (working c).
Proof.
  intros c Hr.
  destruct (engine_reachable_references c Hr) as [[Hc1 Hc2] [Hw1 Hw2]].
  destruct (engine_reachable_high_scores_held c Hr) as [Hc3 Hw3].
  destruct (engine_reachable_invariant c Hr) as (Ic & Iw & _).
  assert (H : forall db, engine_invariant db -> sessions_held db ->
                answers_of_questions db -> high_scores_held db -> references_hold db).
  { intros db I H1 H2 H3. split; [exact H1|]. split.
    - intros pa Hin. destruct (inv_answer_session _ I pa Hin) as (gs & Hgs & Hid & Hpl).
      split; [apply (H1 gs _ Hgs Hpl)|]. split; [apply H2, Hin|]. exists gs. auto.
    - intros hs p Hin Hp. destruct (H3 hs Hin) as (pl & Hpl & Hid).
      exists pl. split; [exact Hpl | congruence]. }
  split; apply H; assumption.
Qed.

Lemma foreign_keys_hold_witness :
  engine_reachable two_quizzes
  /\ references_hold (committed two_quizzes) /\ references_hold (working two_quizzes).
Proof.
  assert (Hr : engine_reachable two_quizzes).
  { exists sample_database, two_quizzes_ops. split; [repeat split | reflexivity]. }
  split; [exact Hr|]. exact (foreign_keys_hold two_quizzes Hr).
Defined.

(** ** Statistics of one player *)

Lemma count_filter_Permutation {A : Type} (f : A -> bool) (l l' : list A) :
  Permutation l l' -> count (filter f l) = count (filter f l').
Proof.
  unfold count. induction 1 as [|x l l' _ IH|x y l|l l' l'' _ IH1 _ IH2]; simpl.
  - reflexivity.
  - destruct (f x); simpl; lia.
  - destruct (f x), (f y); reflexivity.
  - lia.
Qed.

Lemma count_nodup_le (l : list Z) : count (nodup Z.eq_dec l) <= count l.
Proof.
  unfold count. apply inj_le, NoDup_incl_length; [apply NoDup_nodup|].
  intros x Hx. apply nodup_In in Hx. exact Hx.
Qed.

(** X15. The statistics of one player agree with each other in every
    state the engine reaches: the answered and the not answered
    questions of [fn_get_player_answered_vs_not_answered] are two
    non-negative numbers that add up to the number of questions; the
    correct and the incorrect answers of
    [fn_get_player_correct_incorrect_answers] add up to the number of
    lines of [fn_get_player_answers_statistics], whose lines marked
    correct are as many as the first; and the player has answered no
    more distinct questions than they have answer rows. *)
Theorem player_statistics_agree :
  forall c p,
    engine_reachable c ->
    0 <= fst (fn_get_player_answered_vs_not_answered p (working c))
    /\ 0 <= snd (fn_get_player_answered_vs_not_answered p (working c))
    /\ fst (fn_get_player_answered_vs_not_answered p (working c))
       + snd (fn_get_player_answered_vs_not_answered p (working c))
       = count (questions (working c))
    /\ fst (fn_get_player_correct_incorrect_answers p (working c))
       + snd (fn_get_player_correct_incorrect_answers p (working c))
       = count (fn_get_player_answers_statistics p (working c))
    /\ fst (fn_get_player_correct_incorrect_answers p (working c))
       = count (filter snd (fn_get_player_answers_statistics p (working c)))
    /\ fst (fn_get_player_answered_vs_not_answered p (working c))
       <= count (fn_get_player_answers_statistics p (working c))
    /\ (forall q,
          In q (map fst (fn_get_player_answers_statistics p (working c)))
          <-> exists pa, In pa (player_answers (working c))
                         /\ PlayerAnswer.player_id pa = p
                         /\ PlayerAnswer.question_id pa = q).
Proof.
  intros c p Hr. destruct (engine_reachable_references c Hr) as [_ [_ Hq]].
  set (db := working c) in *.
  set (mine := filter (fun pa => PlayerAnswer.player_id pa =? p) (player_answers db)).
  assert (Hlines : count (fn_get_player_answers_statistics p db) = count mine).
  { unfold fn_get_player_answers_statistics. rewrite count_map, count_order_by.
    reflexivity. }
  unfold fn_get_player_answered_vs_not_answered, fn_get_player_correct_incorrect_answers.
  cbn [fst snd]. fold mine.
  assert (Hdistinct : count (nodup Z.eq_dec (map PlayerAnswer.question_id mine))
                      <= count (questions db)).
  { unfold count. apply inj_le. rewrite <- (length_map Question.question_id).
    apply NoDup_incl_length; [apply NoDup_nodup|].
    intros q Hin. apply nodup_In, in_map_iff in Hin. destruct Hin as (pa & <- & Hin).
    apply filter_In in Hin. destruct (Hq pa (proj1 Hin)) as (r & Hr' & <-).
    apply in_map, Hr'. }
  assert (Hright : count (filter (fun pa => (PlayerAnswer.player_id pa =? p)
                                            && PlayerAnswer.is_correct pa)
                            (player_answers db))
                   = count (filter PlayerAnswer.is_correct mine)).
  { unfold mine. rewrite filter_filter_andb. reflexivity. }
  assert (Hwrong : count (filter (fun pa => (PlayerAnswer.player_id pa =? p)
                                            && negb (PlayerAnswer.is_correct pa))
                            (player_answers db))
                   = count (filter (fun pa => negb (PlayerAnswer.is_correct pa)) mine)).
  { unfold mine. rewrite filter_filter_andb. reflexivity. }
  rewrite Hright, Hwrong, Hlines.
  split; [unfold count; lia|]. split; [lia|]. split; [lia|].
  split; [apply count_filter_split|]. split; [|split].
  - unfold fn_get_player_answers_statistics. fold mine.
    transitivity (count (filter PlayerAnswer.is_correct
                           (order_by (asc PlayerAnswer.answered_at) mine))).
    + apply count_filter_Permutation, order_by_perm.
    + generalize (order_by (asc PlayerAnswer.answered_at) mine). intros l.
      unfold count. induction l as [|x l IH]; [reflexivity|].
      simpl. destruct (PlayerAnswer.is_correct x); simpl length; lia.
  - etransitivity; [apply count_nodup_le|]. rewrite count_map. lia.
  - intros q. unfold fn_get_player_answers_statistics. fold mine.
    rewrite map_map. simpl. rewrite in_map_iff. split.
    + intros (pa & <- & Hin). apply In_order_by, filter_In in Hin.
      destruct Hin as [Hin Hp]. apply Z.eqb_eq in Hp. eauto.
    + intros (pa & Hin & Hp & <-). exists pa. split; [reflexivity|].
      apply In_order_by, filter_In. split; [exact Hin | apply Z.eqb_eq; exact Hp].
Qed.

Lemma player_statistics_agree_witness :
  engine_reachable two_quizzes
  /\ fst (fn_get_player_answered_vs_not_answered 1 (working two_quizzes))
     + snd (fn_get_player_answered_vs_not_answered 1 (working two_quizzes))
     = count (questions (working two_quizzes)).
Proof.
  assert (Hr : engine_reachable two_quizzes).
  { exists sample_database, two_quizzes_ops. split; [repeat split | reflexivity]. }
  split; [exact Hr|].
  exact (proj1 (proj2 (proj2 (player_statistics_agree two_quizzes 1 Hr)))).
Defined.

(** ** The views of the statistics menu *)

Lemma In_answers_join_players keep db u :
  In u (answers_join_players keep db) <->
  exists pa pl, In pa (player_answers db) /\ keep pa = true /\ In pl (players db)
                /\ PlayerAnswer.player_id pa = Player.player_id pl
                /\ Player.username pl = u.
Proof.
  unfold answers_join_players. rewrite in_flat_map. split.
  - intros (pa & Hpa & Hin). apply filter_In in Hpa. destruct Hpa as [Hpa Hk].
    apply in_map_iff in Hin. destruct Hin as (pl & Hu & Hpl).
    apply filter_In in Hpl. destruct Hpl as [Hpl Hid]. apply Z.eqb_eq in Hid.
    exists pa, pl. auto.
  - intros (pa & pl & Hpa & Hk & Hpl & Hid & Hu). exists pa.
    split; [apply filter_In; auto|]. apply in_map_iff. exists pl.
    split; [exact Hu|]. apply filter_In. split; [exact Hpl | apply Z.eqb_eq; exact Hid].
Qed.

(** The joined rows of one player are the player's answer rows. *)
Lemma count_answers_join_players keep db pl :
  NoDup (map Player.player_id (players db)) ->
  NoDup (map Player.username (players db)) ->
  In pl (players db) ->
  count (filter (String.eqb (Player.username pl)) (answers_join_players keep db))
  = count (filter (fun pa => keep pa && (PlayerAnswer.player_id pa =? Player.player_id pl))
             (player_answers db)).
Proof.
  intros Hid Hname Hpl. unfold answers_join_players, count.
  induction (player_answers db) as [|pa l IH]; [reflexivity|].
  simpl. destruct (keep pa); simpl; [|exact IH].
  rewrite filter_app, length_app, Nat2Z.inj_add, IH.
  destruct (PlayerAnswer.player_id pa =? Player.player_id pl) eqn:E.
  - apply Z.eqb_eq in E. rewrite E, (filter_player_by_id _ pl Hid Hpl). simpl.
    rewrite String.eqb_refl. simpl length. lia.
  - replace (filter (String.eqb (Player.username pl))
               (map Player.username
                  (filter (fun p => PlayerAnswer.player_id pa =? Player.player_id p)
                     (players db))))
      with (@nil string); [simpl; lia|].
    symmetry. apply existsb_false_filter, not_true_is_false. intros Hex.
    apply existsb_exists in Hex. destruct Hex as (u & Hin & Hu).
    apply String.eqb_eq in Hu. apply in_map_iff in Hin. destruct Hin as (p' & Hu' & Hp').
    apply filter_In in Hp'. destruct Hp' as [Hp' Hid']. apply Z.eqb_eq in Hid'.
    assert (p' = pl)
      by (apply (NoDup_map_eq Player.username (players db)); congruence).
    subst p'. apply Z.eqb_neq in E. contradiction.
Qed.

Lemma In_count_by_username names u n :
  In (u, n) (count_by_username names)
  <-> n = count (filter (String.eqb u) names) /\ 0 < n.
Proof.
  unfold count_by_username. rewrite In_order_by, in_map_iff. split.
  - intros (u' & [= -> <-] & Hin). split; [reflexivity|].
    apply count_pos_iff. exists u. split; [apply nodup_In in Hin; exact Hin|].
    apply String.eqb_refl.
  - intros [-> Hpos]. exists u. split; [reflexivity|]. apply nodup_In.
    apply count_pos_iff in Hpos. destruct Hpos as (x & Hin & Hx).
    apply String.eqb_eq in Hx. subst x. exact Hin.
Qed.

Lemma count_by_username_names names :
  Permutation (map fst (count_by_username names)) (nodup string_dec names).
Proof.
  unfold count_by_username.
  eapply perm_trans; [apply Permutation_map, Permutation_sym, order_by_perm|].
  rewrite map_map. simpl. rewrite map_id. apply Permutation_refl.
Qed.

Lemma count_by_username_bound keep db :
  count (count_by_username (answers_join_players keep db)) <= vw_total_players db.
Proof.
  unfold vw_total_players, count. apply inj_le.
  rewrite <- (length_map fst), (Permutation_length (count_by_username_names _)).
  rewrite <- (length_map Player.username (players db)).
  apply NoDup_incl_length; [apply NoDup_nodup|].
  intros u Hin. apply nodup_In, In_answers_join_players in Hin.
  destruct Hin as (_ & pl & _ & _ & Hpl & _ & <-). apply in_map, Hpl.
Qed.

(** X16. The two rankings of the statistics menu, for a [players]
    table with distinct ids and distinct usernames: each view lists a
    username at most once, in descending order of its count, and has
    no more lines than [vw_total_players] counts; every line names a
    player.  A player is listed in [vw_players_by_total_answers]
    exactly when they have an answer row, with the number of their
    answer rows, and in [vw_players_by_correct_answers] exactly when
    one of their answers is correct, with the number
    [fn_get_player_correct_incorrect_answers] reports. *)
Theorem players_rankings :
  forall db,
    NoDup (map Player.player_id (players db)) ->
    NoDup (map Player.username (players db)) ->
    (StronglySorted (fun a b => snd b <= snd a) (vw_players_by_total_answers db)
     /\ NoDup (map fst (vw_players_by_total_answers db))
     /\ count (vw_players_by_total_answers db) <= vw_total_players db)
    /\ (StronglySorted (fun a b => snd b <= snd a) (vw_players_by_correct_answers db)
        /\ NoDup (map fst (vw_players_by_correct_answers db))
        /\ count (vw_players_by_correct_answers db) <= vw_total_players db)
    /\ (forall u n,
          In (u, n) (vw_players_by_total_answers db)
          \/ In (u, n) (vw_players_by_correct_answers db) ->
          exists pl, In pl (players db) /\ Player.username pl = u)
    /\ (forall pl n, In pl (players db) ->
          (In (Player.username pl, n) (vw_players_by_total_answers db)
           <-> n = count (fn_get_player_answers_statistics (Player.player_id pl) db)
               /\ 0 < n))
    /\ (forall pl n, In pl (players db) ->
          (In (Player.username pl, n) (vw_players_by_correct_answers db)
           <-> n = fst (fn_get_player_correct_incorrect_answers (Player.player_id pl) db)
               /\ 0 < n)).
Proof.
  intros db Hid Hname.
  assert (Hview : forall keep,
             StronglySorted (fun a b : string * Z => snd b <= snd a)
               (count_by_username (answers_join_players keep db))
             /\ NoDup (map fst (count_by_username (answers_join_players keep db)))
             /\ count (count_by_username (answers_join_players keep db))
                <= vw_total_players db).
  { intros keep. split; [apply order_by_desc_sorted|]. split.
    - apply (Permutation_NoDup (Permutation_sym (count_by_username_names _))).
      apply NoDup_nodup.
    - apply count_by_username_bound. }
  assert (Hplayer : forall keep u n,
             In (u, n) (count_by_username (answers_join_players keep db)) ->
             exists pl, In pl (players db) /\ Player.username pl = u).
  { intros keep u n Hin. apply In_count_by_username in Hin. destruct Hin as [-> Hpos].
    apply count_pos_iff in Hpos. destruct Hpos as (x & Hin & Hx).
    apply String.eqb_eq in Hx. subst x. apply In_answers_join_players in Hin.
    destruct Hin as (_ & pl & _ & _ & Hpl & _ & Hu). eauto. }
  split; [apply Hview|]. split; [apply Hview|]. split; [|split].
  - intros u n [Hin | Hin]; apply (Hplayer _ u n Hin).
  - intros pl n Hpl. unfold vw_players_by_total_answers.
    rewrite In_count_by_username, (count_answers_join_players _ db pl Hid Hname Hpl).
    unfold fn_get_player_answers_statistics. rewrite count_map, count_order_by.
    simpl andb. reflexivity.
  - intros pl n Hpl. unfold vw_players_by_correct_answers.
    rewrite In_count_by_username, (count_answers_join_players _ db pl Hid Hname Hpl).
    unfold fn_get_player_correct_incorrect_answers. cbn [fst].
    replace (filter (fun pa => PlayerAnswer.is_correct pa
                               && (PlayerAnswer.player_id pa =? Player.player_id pl))
               (player_answers db))
      with (filter (fun pa => (PlayerAnswer.player_id pa =? Player.player_id pl)
                              && PlayerAnswer.is_correct pa) (player_answers db))
      by (apply filter_ext_in_eq; intros pa _; apply andb_comm).
    reflexivity.
Qed.

Lemma players_rankings_witness :
  NoDup (map Player.player_id (players (working two_quizzes)))
  /\ NoDup (map Player.username (players (working two_quizzes)))
  /\ count (vw_players_by_total_answers (working two_quizzes))
     <= vw_total_players (working two_quizzes).
Proof.
  assert (Hid : NoDup (map Player.player_id (players (working two_quizzes)))).
  { vm_compute. repeat constructor; simpl; intuition discriminate. }
  assert (Hname : NoDup (map Player.username (players (working two_quizzes)))).
  { vm_compute. repeat constructor; simpl; intuition discriminate. }
  split; [exact Hid|]. split; [exact Hname|].
  exact (proj2 (proj2 (proj1 (players_rankings (working two_quizzes) Hid Hname)))).
Defined.

(** ** finalize_game *)

(** Closing the open session leaves the player without one. *)
Lemma no_open_session_after_update db v s f db' :
  engine_invariant db -> select_active_session db v = Some s ->
  (forall gs, is_open_session_of v (f gs) = false) ->
  game_sessions db' = update_where (has_session_id (Some s)) f (game_sessions db) ->
  select_active_session db' v = None.
Proof.
  intros I Hs Hf Hdb'. apply select_active_session_None. intros gs' Hin.
  rewrite Hdb' in Hin. apply In_update_where in Hin. destruct Hin as (gs & Hin & ->).
  rewrite has_session_id_Some. destruct (GameSession.session_id gs =? s) eqn:E; [apply Hf|].
  destruct (is_open_session_of v gs) eqn:Ho; [|reflexivity]. exfalso.
  destruct (select_active_session_Some _ _ _ Hs) as (gs0 & Hin0 & Ho0 & Hid0).
  destruct (is_open_session_of_Some _ _ Ho) as (Hp & Hv & _ & Ha).
  destruct (is_open_session_of_Some _ _ Ho0) as (Hp0 & _ & _ & Ha0).
  destruct v as [p|]; [|contradiction].
  assert (Hact : forall g, In g (game_sessions db) -> GameSession.player_id g = Some p ->
                   GameSession.is_active g = true -> In g (active_sessions db p)).
  { intros g Hg Hgp Hga. apply filter_In. split; [exact Hg|].
    rewrite Hgp, Hga. simpl. rewrite Z.eqb_refl. reflexivity. }
  pose proof (length_le_1_eq _ gs gs0 (inv_one_active _ I p)
                (Hact gs Hin Hp Ha) (Hact gs0 Hin0 Hp0 Ha0)) as Heq.
  subst gs0. apply Z.eqb_neq in E. contradiction.
Qed.

Lemma sp_completing_session_closes db u :
  engine_invariant db ->
  select_active_session (snd (sp_completing_session u db))
    (select_player_id (snd (sp_completing_session u db)) u) = None.
Proof.
  intros I. rewrite sp_completing_session_unfold. cbn [snd].
  change (select_player_id (set_game_sessions _ db) u) with (select_player_id db u).
  destruct (select_active_session db (select_player_id db u)) as [s|] eqn:Hs.
  - apply (no_open_session_after_update db _ s
             (set_completed (sql_max (map PlayerAnswer.answered_at
                (filter (answer_in_session (Some s)) (player_answers db))))));
      try assumption; [|reflexivity].
    intros gs. unfold is_open_session_of. simpl. apply andb_false_r.
  - rewrite update_where_null_id, set_game_sessions_same. exact Hs.
Qed.

(** [finalize_game] is the call that completes the session, followed or
    not by the call that updates the high scores. *)
Lemma finalize_game_cases c u :
  finalize_game c u = run_op c (completing_session u)
  \/ finalize_game c u = run_op (run_op c (completing_session u)) (update_high_scores u).
Proof.
  unfold finalize_game.
  assert (E1 : execute_pg_procedure c "sp_completing_session" (sp_completing_session u)
               = (inr None, run_op c (completing_session u))).
  { unfold run_op, execute_pg_procedure. simpl String.prefix. cbv iota.
    pose proof (sp_completing_session_unfold u (working c)) as E.
    destruct (sp_completing_session u (working c)) as [[e|r] db];
      [discriminate E | reflexivity]. }
  rewrite E1. clear E1. remember (run_op c (completing_session u)) as c1 eqn:E.
  assert (E2 : exists n,
             execute_pg_procedure c1 "fn_get_correct_answer_count"
               (fn_get_correct_answer_count u) = (inr (Some n), c1)).
  { unfold execute_pg_procedure. simpl String.prefix. cbv iota.
    unfold fn_get_correct_answer_count, bind, get, ret. eexists. f_equal.
    destruct c1; reflexivity. }
  destruct E2 as (n & ->). destruct (0 <? n); [right | left]; reflexivity.
Qed.

(** X17. [finalize_game], run in any state the engine reaches: when it
    returns everything is committed, the player has no open session
    left, and no answer row has changed.  The next call of
    [fn_get_unanswered_questions] for the player therefore opens a new
    session and returns 20 questions as soon as the table holds 20. *)
Theorem finalize_game_closes :
  forall c u,
    engine_reachable c ->
    engine_reachable (finalize_game c u)
    /\ committed (finalize_game c u) = working (finalize_game c u)
    /\ select_active_session (working (finalize_game c u))
         (select_player_id (working (finalize_game c u)) u) = None
    /\ player_answers (working (finalize_game c u)) = player_answers (working c)
    /\ questions (working (finalize_game c u)) = questions (working c)
    /\ forall now order,
         (forall l, Permutation l (order l)) ->
         20 <= count (questions (working c)) ->
         exists rows db',
           fn_get_unanswered_questions u now order (working (finalize_game c u))
           = (inr rows, db')
           /\ count rows = 20
           /\ count (game_sessions db')
              = count (game_sessions (working (finalize_game c u))) + 1.
Proof.
  intros c u Hr.
  destruct (engine_reachable_invariant c Hr) as (_ & I & _).
  remember (run_op c (completing_session u)) as c1 eqn:Ec1.
  assert (Hr1 : engine_reachable c1) by (rewrite Ec1; apply engine_reachable_step, Hr).
  assert (E1 : c1 = connect (snd (sp_completing_session u (working c)))).
  { rewrite Ec1, run_op_cases. unfold op_raises, op_effect, is_procedure.
    rewrite sp_completing_session_unfold. reflexivity. }
  assert (H1 : committed c1 = working c1
               /\ select_active_session (working c1) (select_player_id (working c1) u) = None
               /\ player_answers (working c1) = player_answers (working c)
               /\ questions (working c1) = questions (working c)).
  { rewrite E1. unfold connect. cbn [working committed]. split; [reflexivity|].
    split; [apply sp_completing_session_closes, I|]. split; reflexivity. }
  assert (H : engine_reachable (finalize_game c u)
              /\ committed (finalize_game c u) = working (finalize_game c u)
              /\ select_active_session (working (finalize_game c u))
                   (select_player_id (working (finalize_game c u)) u) = None
              /\ player_answers (working (finalize_game c u)) = player_answers (working c)
              /\ questions (working (finalize_game c u)) = questions (working c)).
  { destruct (finalize_game_cases c u) as [-> | ->]; rewrite <- Ec1; [split; assumption|].
    split; [apply engine_reachable_step, Hr1|].
    destruct H1 as (Hc1 & Hs1 & Ha1 & Hq1).
    destruct (sp_update_high_scores_frame u (working c1)) as (Fq & Fp & Fs & Fa & _).
    rewrite run_op_cases. unfold op_effect, is_procedure.
    destruct (op_raises (update_high_scores u) (working c1)).
    - unfold rollback. simpl working. simpl committed. rewrite Hc1.
      split; [reflexivity|]. split; [exact Hs1|]. split; [exact Ha1 | exact Hq1].
    - simpl working. simpl committed. split; [reflexivity|].
      unfold select_active_session, select_player_id in *. rewrite Fs, Fp, Fa, Fq. auto. }
  destruct H as (Hr' & Hc' & Hs' & Ha' & Hq').
  split; [exact Hr'|]. split; [exact Hc'|]. split; [exact Hs'|].
  split; [exact Ha'|]. split; [exact Hq'|].
  intros now order Hperm H20.
  destruct (engine_reachable_invariant _ Hr') as (_ & I' & _).
  rewrite (fn_get_unanswered_questions_new _ u now order I' Hs').
  eexists. eexists. split; [reflexivity|]. split.
  - rewrite count_map. unfold count in *.
    rewrite length_firstn, <- (Permutation_length (Hperm _)), Hq'. lia.
  - simpl. unfold count. rewrite length_app. simpl. lia.
Qed.

Lemma finalize_game_closes_witness :
  engine_reachable (playing 20)
  /\ select_active_session (working (finalize_game (playing 20) "alice"))
       (select_player_id (working (finalize_game (playing 20) "alice")) "alice") = None.
Proof.
  assert (Hr : engine_reachable (playing 20)).
  { exists sample_database, (game "alice" 100 20). split; [repeat split | reflexivity]. }
  split; [exact Hr|].
  exact (proj1 (proj2 (proj2 (finalize_game_closes (playing 20) "alice" Hr)))).
Defined.

(** ** Registration and login *)

Lemma store_varchar_fits n s : (String.length s <= n)%nat -> store_varchar n s = Some s.
Proof.
  intros H. unfold store_varchar. apply Nat.leb_le in H. rewrite H. reflexivity.
Qed.

Lemma find_app_new {A : Type} (p : A -> bool) (l : list A) x :
  find p (l ++ [x])
  = match find p l with
    | Some y => Some y
    | None => if p x then Some x else None
    end.
Proof.
  induction l as [|y l IH]; simpl; [reflexivity|]. destruct (p y); [reflexivity | exact IH].
Qed.

Lemma find_existsb_false {A : Type} (p : A -> bool) (l : list A) :
  existsb p l = false -> find p l = None.
Proof.
  induction l as [|x l IH]; simpl; [reflexivity|].
  destruct (p x); simpl; [discriminate | exact IH].
Qed.

Lemma NoDup_map_app_new {A B : Type} (f : A -> B) (eqb : B -> B -> bool) (l : list A) x :
  (forall a b, eqb a b = true <-> a = b) ->
  NoDup (map f l) -> existsb (fun y => eqb (f y) (f x)) l = false ->
  NoDup (map f (l ++ [x])).
Proof.
  intros Heqb Hnd Hnew. rewrite map_app. simpl. apply NoDup_app.
  - exact Hnd.
  - constructor; [intros [] | constructor].
  - intros b Hb [<- | []]. apply in_map_iff in Hb. destruct Hb as (y & Hy & Hin).
    assert (E : existsb (fun y => eqb (f y) (f x)) l = true)
      by (apply existsb_exists; exists y; split; [exact Hin | apply Heqb; exact Hy]).
    congruence.
Qed.

(** X18. Registration, for values that fit their columns and an id the
    sequence has not given out: [sp_create_player] succeeds exactly
    when [fn_check_unique_username] and [fn_check_unique_email], the
    two checks [create_new_player] makes first, both return TRUE, and
    fails with a unique violation, changing nothing, when one does
    not.  After a success the table still has distinct ids, usernames
    and emails; both checks now return FALSE for the new name and
    email; [fn_login_player] returns the stored password for the new
    name and what it returned before for every other name; and the
    game routines find the new player under the new id. *)
Theorem registration_checks_suffice :
  forall db u pw e age next_id,
    players_valid db ->
    (String.length u <= 50)%nat ->
    (String.length pw <= 100)%nat ->
    (String.length e <= 100)%nat ->
    (forall p, In p (players db) -> Player.player_id p < next_id) ->
    (fn_check_unique_username u db && fn_check_unique_email e db = false ->
     sp_create_player u pw e age next_id db = (inl (integrity_violation unique_violation), db))
    /\ (fn_check_unique_username u db && fn_check_unique_email e db = true ->
        exists db',
          sp_create_player u pw e age next_id db = (inr tt, db')
          /\ players db' = players db ++ [Player.mk next_id u pw e age]
          /\ players_valid db'
          /\ fn_check_unique_username u db' = false
          /\ fn_check_unique_email e db' = false
          /\ fn_login_player u db' = Some pw
          /\ select_player_id db' u = Some next_id
          /\ (forall u', u' <> u ->
                fn_login_player u' db' = fn_login_player u' db
                /\ select_player_id db' u' = select_player_id db u'
                /\ fn_check_unique_username u' db' = fn_check_unique_username u' db)).
Proof.
  intros db u pw e age next_id (Hid & Hname & Hemail) Hu Hpw He Hnext.
  unfold sp_create_player. rewrite !store_varchar_fits by assumption.
  assert (Hfresh : existsb (fun p => Player.player_id p =? next_id) (players db) = false).
  { apply not_true_is_false. intros E. apply existsb_exists in E.
    destruct E as (p & Hin & Hp). apply Z.eqb_eq in Hp. specialize (Hnext p Hin). lia. }
  rewrite Hfresh. unfold fn_check_unique_username, fn_check_unique_email.
  destruct (existsb (fun p => String.eqb (Player.username p) u) (players db)) eqn:Eu;
    [split; [reflexivity | discriminate]|].
  destruct (existsb (fun p => String.eqb (Player.email p) e) (players db)) eqn:Ee;
    [split; [reflexivity | discriminate]|].
  split; [discriminate|]. intros _. eexists. split; [reflexivity|].
  simpl players. split; [reflexivity|]. split; [|split; [|split; [|split; [|split]]]].
  - split; [|split].
    + apply (NoDup_map_app_new Player.player_id Z.eqb); [apply Z.eqb_eq | exact Hid|].
      exact Hfresh.
    + apply (NoDup_map_app_new Player.username String.eqb);
        [apply String.eqb_eq | exact Hname | exact Eu].
    + apply (NoDup_map_app_new Player.email String.eqb);
        [apply String.eqb_eq | exact Hemail | exact Ee].
  - rewrite existsb_app. simpl. rewrite String.eqb_refl, orb_true_r. reflexivity.
  - rewrite existsb_app. simpl. rewrite String.eqb_refl, orb_true_r. reflexivity.
  - unfold fn_login_player. simpl players.
    rewrite find_app_new, (find_existsb_false _ _ Eu). simpl. rewrite String.eqb_refl.
    reflexivity.
  - unfold select_player_id. simpl players.
    rewrite find_app_new, (find_existsb_false _ _ Eu). simpl. rewrite String.eqb_refl.
    reflexivity.
  - intros u' Hne. apply String.eqb_neq in Hne. rewrite String.eqb_sym in Hne.
    unfold fn_login_player, select_player_id. simpl players.
    rewrite find_app_new, existsb_app. simpl. rewrite Hne, orb_false_r.
    destruct (find _ (players db)); repeat split; reflexivity.
Qed.

Lemma registration_checks_suffice_witness :
  players_valid sample_database
  /\ exists db',
       sp_create_player "carol" "JDJiJDEyJA==" "carol@example.org" 30 3 sample_database
       = (inr tt, db')
       /\ fn_login_player "carol" db' = Some "JDJiJDEyJA=="%string
       /\ select_player_id db' "carol" = Some 3.
Proof.
  assert (Hv : players_valid sample_database).
  { repeat split; vm_compute; repeat constructor; simpl; intuition discriminate. }
  split; [exact Hv|].
  assert (H1 : (String.length "carol" <= 50)%nat) by (simpl; lia).
  assert (H2 : (String.length "JDJiJDEyJA==" <= 100)%nat) by (simpl; lia).
  assert (H3 : (String.length "carol@example.org" <= 100)%nat) by (simpl; lia).
  assert (H4 : forall p, In p (players sample_database) -> Player.player_id p < 3).
  { intros p Hin. simpl in Hin. destruct Hin as [<- | [<- | []]]; simpl; lia. }
  destruct (proj2 (registration_checks_suffice sample_database "carol" "JDJiJDEyJA=="
                     "carol@example.org" 30 3 Hv H1 H2 H3 H4) eq_refl)
    as (db' & E & _ & _ & _ & _ & Hl & Hs & _).
  exists db'. auto.
Defined.

Lemma all_spaces_substring_false s : forall n m,
  (0 < m)%nat -> (n + m <= String.length s)%nat ->
  (forall c, In c (list_ascii_of_string s) -> c <> " "%char) ->
  all_spaces (substring n m s) = false.
Proof.
  unfold all_spaces. induction s as [|c s IH]; intros n m Hm Hlen Hc; simpl in Hlen; [lia|].
  destruct n as [|n].
  - destruct m as [|m]; [lia|].
    assert (E : Ascii.eqb " " c = false).
    { apply Ascii.eqb_neq. intros E. apply (Hc c); [left; reflexivity | auto]. }
    cbn [substring list_ascii_of_string forallb]. rewrite E. reflexivity.
  - cbn [substring]. apply IH; [exact Hm | lia|]. intros c' Hin. apply Hc. right. exact Hin.
Qed.

Lemma is_valid_username_no_space u :
  is_valid_username u = true ->
  forall c, In c (list_ascii_of_string u) -> c <> " "%char.
Proof.
  unfold is_valid_username, before_final_newline. intros H c Hin ->.
  apply andb_true_iff in H. destruct H as [_ H].
  assert (Hclass : forall l, forallb is_username_char l = true -> ~ In " "%char l).
  { intros l Hl Hsp. rewrite forallb_forall in Hl. specialize (Hl _ Hsp). discriminate. }
  destruct (rev (list_ascii_of_string u)) as [|c r] eqn:E; [apply (Hclass _ H Hin)|].
  destruct (Ascii.eqb c "010") eqn:Ec; [|apply (Hclass _ H Hin)].
  apply Ascii.eqb_eq in Ec. subst c.
  assert (El : list_ascii_of_string u = rev r ++ ["010"%char])
    by (rewrite <- (rev_involutive (list_ascii_of_string u)), E; reflexivity).
  rewrite El in Hin. apply in_app_or in Hin.
  destruct Hin as [Hin | [Hin | []]]; [apply (Hclass _ H Hin) | discriminate].
Qed.

(** X19. A username of more than 50 characters that [is_valid_username]
    accepts cannot be registered: [sp_create_player] fails on the
    length of the column and changes nothing, although
    [fn_check_unique_username] returns TRUE for it, since no stored
    name is that long. *)
Theorem long_username_is_rejected_late :
  forall db u pw e age next_id,
    is_valid_username u = true ->
    (50 < String.length u)%nat ->
    sp_create_player u pw e age next_id db = (inl string_data_right_truncation, db)
    /\ ((forall p, In p (players db) -> (String.length (Player.username p) <= 50)%nat) ->
        fn_check_unique_username u db = true).
Proof.
  intros db u pw e age next_id Hvalid Hlong. split.
  - unfold sp_create_player, store_varchar.
    replace (String.length u <=? 50)%nat with false
      by (symmetry; apply Nat.leb_gt; exact Hlong).
    rewrite all_spaces_substring_false;
      [reflexivity | lia | lia | apply is_valid_username_no_space, Hvalid].
  - intros Hstored. unfold fn_check_unique_username. apply negb_true_iff.
    apply not_true_is_false. intros E. apply existsb_exists in E.
    destruct E as (p & Hin & Hp). apply String.eqb_eq in Hp.
    specialize (Hstored p Hin). rewrite Hp in Hstored. lia.
Qed.

Lemma long_username_is_rejected_late_witness :
  is_valid_username "a_very_long_user_name_that_runs_to_fifty_one_chars_" = true
  /\ sp_create_player "a_very_long_user_name_that_runs_to_fifty_one_chars_" "JDJiJDEyJA=="
       "carol@example.org" 30 3 sample_database
     = (inl string_data_right_truncation, sample_database).
Proof.
  assert (Hv : is_valid_username "a_very_long_user_name_that_runs_to_fifty_one_chars_" = true)
    by (vm_compute; reflexivity).
  split; [exact Hv|].
  apply (long_username_is_rejected_late sample_database _ "JDJiJDEyJA==" "carol@example.org"
           30 3 Hv).
  simpl. lia.
Defined.

(** ** The game loop *)

Lemma get_valid_input_shorter validation_func exit_keyword inputs x rest :
  get_valid_input validation_func exit_keyword inputs = Some (x, rest) ->
  (length rest < length inputs)%nat.
Proof.
  induction inputs as [|[line now] inputs IH]; simpl; [discriminate|].
  destruct (String.eqb (lower line) exit_keyword); [intros [= _ <-]; lia|].
  destruct (validation_func line); [intros [= _ <-]; lia|].
  intros H. specialize (IH H). lia.
Qed.

(** The loop for one question does not depend on its fuel, once that
    is the number of lines left. *)
Lemma ask_question_fuel u q : forall fuel fuel' inputs c,
  (length inputs <= fuel)%nat -> (length inputs <= fuel')%nat ->
  ask_question fuel u q inputs c = ask_question fuel' u q inputs c.
Proof.
  induction fuel as [|fuel IH]; intros fuel' inputs c H H'.
  - destruct inputs; [|simpl in H; lia]. destruct fuel'; reflexivity.
  - destruct fuel' as [|fuel'].
    + destruct inputs; [reflexivity | simpl in H'; lia].
    + simpl. destruct (get_valid_input _ "q" inputs) as [[[line now] rest]|] eqn:E;
        [|reflexivity].
      pose proof (get_valid_input_shorter _ _ _ _ _ E) as Hlt.
      destruct (String.eqb (lower line) "q"); [reflexivity|].
      destruct (String.eqb (lower line) "s"); [apply IH; lia|].
      destruct (execute_pg_procedure c "sp_record_player_answers" _) as [[e|r] c'];
        [apply IH; lia | reflexivity].
Qed.

Lemma ask_question_S fuel u q inputs c :
  ask_question (S fuel) u q inputs c
  = match get_valid_input
            (fun x => is_valid_choice (lower x) ["a"; "b"; "c"; "d"; "q"; "s"]%string)
            "q" inputs with
    | None => out_of_input c
    | Some ((line, now), rest) =>
        if String.eqb (lower line) "q" then quit c
        else if String.eqb (lower line) "s" then
          ask_question fuel u q rest
            (snd (execute_pg_procedure c "fn_get_answer_stats" (fn_get_answer_stats u)))
        else
          match execute_pg_procedure c "sp_record_player_answers"
                  (sp_record_player_answers u q (char_1 (lower line)) now) with
          | (inl _, c') => ask_question fuel u q rest c'
          | (inr _, c') => answered rest c'
          end
    end.
Proof. reflexivity. Qed.

Lemma execute_fn_get_answer_stats c u :
  snd (execute_pg_procedure c "fn_get_answer_stats" (fn_get_answer_stats u)) = c.
Proof.
  unfold execute_pg_procedure. simpl String.prefix. cbv iota.
  unfold fn_get_answer_stats, bind, get, ret. destruct c; reflexivity.
Qed.

Lemma run_op_record_answer c u q a now :
  snd (execute_pg_procedure c "sp_record_player_answers" (sp_record_player_answers u q a now))
  = run_op c (record_answer u q a now).
Proof. reflexivity. Qed.

Lemma run_op_check_unanswered c u now order :
  snd (execute_pg_procedure c "fn_get_unanswered_questions"
         (fn_get_unanswered_questions u now order))
  = run_op c (check_unanswered u now order).
Proof. reflexivity. Qed.

Lemma engine_reachable_run_ops ops : forall c,
  engine_reachable c -> engine_reachable (run_ops ops c).
Proof.
  induction ops as [|op ops IH]; intros c Hr; [exact Hr|].
  simpl. apply IH, engine_reachable_step, Hr.
Qed.

Lemma lower_ascii_idem c : lower_ascii (lower_ascii c) = lower_ascii c.
Proof. destruct c as [[] [] [] [] [] [] [] []]; reflexivity. Qed.

Lemma lower_idem s : lower (lower s) = lower s.
Proof.
  induction s as [|c s IH]; [reflexivity|]. simpl. rewrite lower_ascii_idem, IH. reflexivity.
Qed.

Lemma get_valid_input_cons validation_func exit_keyword x t rest :
  get_valid_input validation_func exit_keyword ((x, t) :: rest)
  = if String.eqb (lower x) exit_keyword then Some ((exit_keyword, t), rest)
    else if validation_func x then Some ((x, t), rest)
    else get_valid_input validation_func exit_keyword rest.
Proof. reflexivity. Qed.

(** What [get_valid_input] hands to the loop of [play_game]. *)
Lemma get_valid_input_answer inputs line now rest :
  get_valid_input
    (fun x => is_valid_choice (lower x) ["a"; "b"; "c"; "d"; "q"; "s"]%string) "q" inputs
  = Some ((line, now), rest) ->
  In (lower line) ["a"; "b"; "c"; "d"; "q"; "s"]%string.
Proof.
  induction inputs as [|[x t] inputs IH]; [discriminate|].
  rewrite get_valid_input_cons. cbv beta.
  destruct (String.eqb (lower x) "q").
  - intros [= <- _ _]. simpl. auto 10.
  - destruct (is_valid_choice (lower x) ["a"; "b"; "c"; "d"; "q"; "s"]%string) eqn:E;
      [|exact IH].
    intros [= <- _ _]. unfold is_valid_choice in E. rewrite lower_idem in E.
    apply existsb_exists in E. destruct E as (y & Hy & E).
    apply String.eqb_eq in E. rewrite E. exact Hy.
Qed.

(** The calls the loop for one question makes. *)
Lemma ask_question_run_ops u q : forall fuel inputs c,
  exists ops,
    Forall (is_call_of u) ops
    /\ match ask_question fuel u q inputs c with
       | answered _ c' | quit c' | out_of_input c' => c' = run_ops ops c
       end.
Proof.
  induction fuel as [|fuel IH]; intros inputs c;
    [exists []; split; [constructor | reflexivity]|].
  rewrite ask_question_S.
  destruct (get_valid_input _ "q" inputs) as [[[line now] rest]|] eqn:E;
    [|exists []; split; [constructor | reflexivity]].
  apply get_valid_input_answer in E.
  destruct (String.eqb (lower line) "q") eqn:Eq;
    [exists []; split; [constructor | reflexivity]|].
  destruct (String.eqb (lower line) "s") eqn:Es.
  - rewrite execute_fn_get_answer_stats. apply IH.
  - assert (Ha : is_abcd (char_1 (lower line)) = true).
    { simpl in E. destruct E as [E | [E | [E | [E | [E | [E | []]]]]]];
        rewrite <- E in *; try reflexivity; discriminate. }
    set (op := record_answer u q (char_1 (lower line)) now).
    assert (Hop : is_call_of u op) by (split; [reflexivity | exact Ha]).
    pose proof (run_op_record_answer c u q (char_1 (lower line)) now) as Hrun.
    destruct (execute_pg_procedure c "sp_record_player_answers" _) as [[e|r] c'];
      cbn [snd] in Hrun; subst c'.
    + destruct (IH rest (run_op c op)) as (ops & Hops & H).
      exists (op :: ops). split; [constructor; assumption | exact H].
    + exists [op]. split; [constructor; [exact Hop | constructor] | reflexivity].
Qed.

Lemma finalize_game_run_ops c u :
  exists ops, Forall (is_call_of u) ops /\ finalize_game c u = run_ops ops c.
Proof.
  destruct (finalize_game_cases c u) as [-> | ->].
  - exists [completing_session u]. split; [repeat constructor | reflexivity].
  - exists [completing_session u; update_high_scores u].
    split; [repeat constructor | reflexivity].
Qed.

Lemma play_game_run_ops u : forall qs inputs c,
  exists ops,
    Forall (is_call_of u) ops /\ connection_of (play_game u qs inputs c) = run_ops ops c.
Proof.
  induction qs as [|q qs IH]; intros inputs c; simpl.
  - apply finalize_game_run_ops.
  - destruct (ask_question_run_ops u q (length inputs) inputs c) as (ops & Hops & H).
    destruct (ask_question (length inputs) u q inputs c) as [rest c'|c'|c'];
      [|exists ops; auto | exists ops; auto].
    destruct (IH rest c') as (ops' & Hops' & H'). exists (ops ++ ops').
    split; [apply Forall_app; auto|]. rewrite run_ops_app, <- H. exact H'.
Qed.

Lemma fresh_start_run_ops fetch logged now_new order_new u inputs c :
  exists ops,
    Forall (is_call_of u) ops
    /\ connection_of (fresh_start fetch logged now_new order_new u inputs c) = run_ops ops c.
Proof.
  unfold fresh_start.
  pose proof (run_op_check_unanswered c u now_new order_new) as H1.
  assert (Hone : exists ops, Forall (is_call_of u) ops
                   /\ run_op c (check_unanswered u now_new order_new) = run_ops ops c).
  { exists [check_unanswered u now_new order_new].
    split; [repeat constructor | reflexivity]. }
  destruct (execute_pg_procedure c "fn_get_unanswered_questions" _) as [[e|[rows|]] c1];
    cbn [snd] in H1; subst c1; try exact Hone.
  destruct (fetch (map fst rows)) as [qs|]; [|exact Hone].
  destruct logged; [|exact Hone].
  destruct (play_game_run_ops u qs inputs (run_op c (check_unanswered u now_new order_new)))
    as (ops & Hops & H).
  exists (check_unanswered u now_new order_new :: ops).
  split; [constructor; [reflexivity | exact Hops]|].
  destruct (play_game u qs inputs _); exact H.
Qed.

Lemma game_status_run_ops fetch logged now order now_new order_new u inputs c :
  exists ops,
    Forall (is_call_of u) ops
    /\ connection_of (game_status fetch logged now order now_new order_new u inputs c)
       = run_ops ops c.
Proof.
  unfold game_status.
  pose proof (run_op_check_unanswered c u now order) as H1.
  assert (Hone : exists ops, Forall (is_call_of u) ops
                   /\ run_op c (check_unanswered u now order) = run_ops ops c).
  { exists [check_unanswered u now order]. split; [repeat constructor | reflexivity]. }
  destruct (execute_pg_procedure c "fn_get_unanswered_questions" _) as [[e|[rows|]] c1];
    cbn [snd] in H1; subst c1; try exact Hone.
  set (c1 := run_op c (check_unanswered u now order)) in *.
  assert (Hplay : forall qs lines,
            exists ops, Forall (is_call_of u) ops
              /\ connection_of
                   (match play_game u qs lines c1 with
                    | returned _ c' => returned (Some u) c'
                    | EOFError c' => EOFError c'
                    end) = run_ops ops c).
  { intros qs lines. destruct (play_game_run_ops u qs lines c1) as (ops & Hops & H).
    exists (check_unanswered u now order :: ops).
    split; [constructor; [reflexivity | exact Hops]|].
    destruct (play_game u qs lines c1); exact H. }
  destruct (length (map fst rows) =? 20)%nat.
  - destruct (fetch (map fst rows)); [apply Hplay | exact Hone].
  - destruct (get_valid_input _ "q" inputs) as [[[line t] rest]|]; [|exact Hone].
    destruct (String.eqb (lower line) "y").
    + destruct (fetch (map fst rows)); [apply Hplay | exact Hone].
    + change (game_logic.reset_game c1 u) with (run_op c1 (reset_game u)).
      destruct (fresh_start_run_ops fetch logged now_new order_new u rest
                  (run_op c1 (reset_game u))) as (ops & Hops & H).
      exists ([check_unanswered u now order; reset_game u] ++ ops).
      split; [apply Forall_app; split; [repeat constructor | exact Hops]|].
      rewrite run_ops_app. exact H.
Qed.

(** X20. Whatever is typed, and whatever MongoDB answers,
    [game_status] and [play_game] act on the database through calls
    for the logged-in player only, with answer letters among a, b, c
    and d: the connection they leave is the one a list of such calls
    leaves, and is a state the engine reaches, so that everything that
    holds of those states holds during and after a game.  The loop for
    one question reads a line at every turn: it does not depend on its
    fuel, once that is the number of lines left. *)
Theorem game_acts_through_engine_calls :
  forall fetch logged now order now_new order_new u qs inputs c,
    engine_reachable c ->
    (exists ops,
       Forall (is_call_of u) ops
       /\ connection_of (play_game u qs inputs c) = run_ops ops c
       /\ engine_reachable (connection_of (play_game u qs inputs c)))
    /\ (exists ops,
          Forall (is_call_of u) ops
          /\ connection_of (game_status fetch logged now order now_new order_new u inputs c)
             = run_ops ops c
          /\ engine_reachable
               (connection_of
                  (game_status fetch logged now order now_new order_new u inputs c)))
    /\ (forall q fuel, (length inputs <= fuel)%nat ->
          ask_question fuel u q inputs c = ask_question (length inputs) u q inputs c).
Proof.
  intros fetch logged now order now_new order_new u qs inputs c Hr. split; [|split].
  - destruct (play_game_run_ops u qs inputs c) as (ops & Hops & H). exists ops.
    split; [exact Hops|]. split; [exact H|]. rewrite H. apply engine_reachable_run_ops, Hr.
  - destruct (game_status_run_ops fetch logged now order now_new order_new u inputs c)
      as (ops & Hops & H).
    exists ops. split; [exact Hops|]. split; [exact H|]. rewrite H.
    apply engine_reachable_run_ops, Hr.
  - intros q fuel Hfuel. apply ask_question_fuel; [exact Hfuel | lia].
Qed.

Lemma game_acts_through_engine_calls_witness :
  engine_reachable (connect sample_database)
  /\ engine_reachable
       (connection_of
          (play_game "alice" [1; 2] [("x", 5); ("A", 6); ("s", 7); ("q", 8)]%string
             (connect sample_database))).
Proof.
  assert (Hr : engine_reachable (connect sample_database)).
  { exists sample_database, []. split; [repeat split | reflexivity]. }
  split; [exact Hr|].
  destruct (proj1 (game_acts_through_engine_calls (fun ids => Some ids) true 0 same_order 0
                     same_order "alice" [1; 2]
                     [("x", 5); ("A", 6); ("s", 7); ("q", 8)]%string
                     (connect sample_database) Hr)) as (ops & _ & _ & H).
  exact H.
Defined.

(** ** A round of answers *)










(** ** The prompt to continue *)

Lemma reset_clears_session c u p s :
  engine_reachable c ->
  select_player_id (working c) u = Some p ->
  select_active_session (working c) (Some p) = Some s ->
  session_answers (snd (sp_reset_player_answers u (working c))) s = []
  /\ exists gs,
       In gs (game_sessions (snd (sp_reset_player_answers u (working c))))
       /\ GameSession.session_id gs = s /\ GameSession.is_active gs = false.
Proof.
  intros Hr Hp Hs. destruct (engine_reachable_open_session c p s Hr Hs) as [Hown _].
  rewrite sp_reset_player_answers_unfold, Hp, Hs. cbn [snd]. split.
  - unfold session_answers. simpl player_answers.
    apply existsb_false_filter, not_true_is_false. intros E.
    apply existsb_exists in E. destruct E as (pa & Hin & Hid). apply Z.eqb_eq in Hid.
    apply In_delete_where in Hin. destruct Hin as [Hin Ha].
    rewrite answer_of_Some, (Hown pa Hin Hid), Hid, !Z.eqb_refl in Ha. discriminate.
  - destruct (select_active_session_Some _ _ _ Hs) as (gs & Hin & _ & Hid).
    exists (set_inactive gs). simpl game_sessions. split; [|split; [exact Hid | reflexivity]].
    unfold update_where. apply in_map_iff. exists gs. split; [|exact Hin].
    rewrite has_session_id_Some, Hid, Z.eqb_refl. reflexivity.
Qed.

Lemma run_ops_completed gs : forall ops c,
  engine_reachable c ->
  In gs (game_sessions (working c)) -> is_closed gs ->
  In gs (game_sessions (working (run_ops ops c)))
  /\ session_answers (working (run_ops ops c)) (GameSession.session_id gs)
     = session_answers (working c) (GameSession.session_id gs).
Proof.
  induction ops as [|op ops IH]; intros c Hr Hin Hc; [split; [exact Hin | reflexivity]|].
  destruct (run_op_completed c op gs Hr Hin Hc) as [Hin' Ha'].
  destruct (IH (run_op c op) (engine_reachable_step c op Hr) Hin' Hc) as [Hin2 Ha2].
  simpl. split; [exact Hin2 | rewrite Ha2; exact Ha'].
Qed.

(** The first call of [game_status] for a game in progress. *)
Lemma game_in_progress c u p s now order :
  engine_reachable c ->
  select_player_id (working c) u = Some p ->
  select_active_session (working c) (Some p) = Some s ->
  0 < count (session_answers (working c) s) <= 20 ->
  exists rows,
    execute_pg_procedure c "fn_get_unanswered_questions"
      (fn_get_unanswered_questions u now order) = (inr (Some rows), c)
    /\ (length (map fst rows) =? 20)%nat = false.
Proof.
  intros Hr Hp Hs Hk. destruct (engine_reachable_open_session c p s Hr Hs) as [Hown _].
  unfold execute_pg_procedure. simpl String.prefix. cbv iota.
  assert (Hs' : select_active_session (working c) (select_player_id (working c) u) = Some s)
    by (rewrite Hp; exact Hs).
  rewrite (fn_get_unanswered_questions_existing u now order _ s Hs'), Hp.
  rewrite (answer_of_owned _ p s Hown).
  replace (20 - count (session_answers (working c) s) <? 0) with false
    by (symmetry; apply Z.ltb_ge; lia).
  eexists. split; [f_equal; destruct c; reflexivity|].
  apply Nat.eqb_neq. rewrite !length_map. intros E.
  pose proof (firstn_le_length
                (Z.to_nat (20 - count (session_answers (working c) s)))
                (order (filter (not_answered (working c) (Some p) (Some s))
                          (questions (working c))))) as Hle.
  rewrite length_firstn in E. lia.
Qed.

(** X22. At the prompt "Do you want to continue your game? (y/n)" of
    [game_status], which a player with a game in progress (1 to 20
    answers in the open session) gets, n and q, in either case, do the
    same: the game is reset.  The answer rows of the session are
    deleted and the session is made inactive, and nothing that follows
    in [game_status] brings them back: they are gone in the state the
    function leaves, whatever is typed next. *)
Theorem continue_prompt_quit_resets :
  forall fetch logged now order now_new order_new u p s line t rest c,
    engine_reachable c ->
    select_player_id (working c) u = Some p ->
    select_active_session (working c) (Some p) = Some s ->
    0 < count (session_answers (working c) s) <= 20 ->
    lower line = "n"%string \/ lower line = "q"%string ->
    game_status fetch logged now order now_new order_new u ((line, t) :: rest) c
    = fresh_start fetch logged now_new order_new u rest (run_op c (reset_game u))
    /\ session_answers
         (working
            (connection_of
               (game_status fetch logged now order now_new order_new u ((line, t) :: rest) c)))
         s = []
    /\ (forall gs,
          In gs (game_sessions
                   (working
                      (connection_of
                         (game_status fetch logged now order now_new order_new u
                            ((line, t) :: rest) c)))) ->
          GameSession.session_id gs = s -> GameSession.is_active gs = false).
Proof.
  intros fetch logged now order now_new order_new u p s line t rest c Hr Hp Hs Hk Hline.
  destruct (game_in_progress c u p s now order Hr Hp Hs Hk) as (rows & Hrows & Hlen).
  assert (E : game_status fetch logged now order now_new order_new u ((line, t) :: rest) c
              = fresh_start fetch logged now_new order_new u rest (run_op c (reset_game u))).
  { unfold game_status. rewrite Hrows. cbv zeta. rewrite Hlen, get_valid_input_cons.
    cbv beta. destruct Hline as [Hn | Hq].
    - assert (H1 : String.eqb (lower line) "q" = false) by (rewrite Hn; reflexivity).
      assert (H2 : is_valid_choice (lower line) ["y"; "n"]%string = true)
        by (rewrite Hn; reflexivity).
      assert (H3 : String.eqb (lower line) "y" = false) by (rewrite Hn; reflexivity).
      rewrite H1, H2. cbv iota beta. rewrite H3. reflexivity.
    - assert (H1 : String.eqb (lower line) "q" = true) by (rewrite Hq; reflexivity).
      rewrite H1. reflexivity. }
  split; [exact E|]. rewrite E.
  destruct (fresh_start_run_ops fetch logged now_new order_new u rest (run_op c (reset_game u)))
    as (ops & _ & ->).
  assert (Hr2 : engine_reachable (run_op c (reset_game u)))
    by (apply engine_reachable_step, Hr).
  assert (E2 : working (run_op c (reset_game u))
               = snd (sp_reset_player_answers u (working c))).
  { rewrite run_op_cases. unfold op_raises, op_effect, is_procedure.
    rewrite sp_reset_player_answers_unfold. reflexivity. }
  destruct (reset_clears_session c u p s Hr Hp Hs) as (Hnone & gs0 & Hin0 & Hid0 & Hact0).
  rewrite <- E2 in Hnone, Hin0.
  destruct (run_ops_completed gs0 ops _ Hr2 Hin0 (or_intror Hact0)) as [Hin Ha].
  rewrite Hid0 in Ha. split; [rewrite Ha; exact Hnone|].
  intros gs Hgs Hid.
  destruct (engine_reachable_invariant _ (engine_reachable_run_ops ops _ Hr2)) as (_ & I & _).
  rewrite (NoDup_map_eq GameSession.session_id _ gs gs0 (inv_session_pk _ I) Hgs Hin);
    [exact Hact0 | congruence].
Qed.

Lemma continue_prompt_quit_resets_witness :
  engine_reachable (playing 2)
  /\ count (session_answers (working (playing 2)) 1) = 2
  /\ session_answers
       (working
          (connection_of
             (game_status (fun ids => Some ids) true 0 same_order 9000000 same_order "alice"
                [("Q", 8000000)]%string (playing 2))))
       1 = [].
Proof.
  assert (Hr : engine_reachable (playing 2)).
  { exists sample_database, (game "alice" 100 2). split; [repeat split | reflexivity]. }
  assert (Hp : select_player_id (working (playing 2)) "alice" = Some 1)
    by (vm_compute; reflexivity).
  assert (Hs : select_active_session (working (playing 2)) (Some 1) = Some 1)
    by (vm_compute; reflexivity).
  assert (Hk : count (session_answers (working (playing 2)) 1) = 2)
    by (vm_compute; reflexivity).
  split; [exact Hr|]. split; [exact Hk|].
  refine (proj1 (proj2 (continue_prompt_quit_resets (fun ids => Some ids) true 0 same_order
                          9000000 same_order "alice" 1 1 "Q" 8000000 [] (playing 2)
                          Hr Hp Hs _ (or_intror eq_refl)))).
  rewrite Hk. lia.
Defined.

(** ** Leaving a game *)



(** ** The charts *)

Lemma StronglySorted_app {A : Type} (R : A -> A -> Prop) (l1 l2 : list A) :
  StronglySorted R (l1 ++ l2) ->
  StronglySorted R l1 /\ forall x y, In x l1 -> In y l2 -> R x y.
Proof.
  induction l1 as [|a l1 IH]; simpl; intros H.
  - split; [constructor | intros x y []].
  - inversion H as [|? ? Hs Ha]; subst. destruct (IH Hs) as [Hs1 Hcross].
    rewrite Forall_forall in Ha. split.
    + constructor; [exact Hs1|]. apply Forall_forall. intros x Hx.
      apply Ha, in_or_app. left. exact Hx.
    + intros x y [<- | Hx] Hy; [apply Ha, in_or_app; right; exact Hy | apply Hcross; auto].
Qed.

Lemma NoDup_question_statistics db :
  NoDup (map QuestionStats.question_id (fn_get_question_answers_statistics db)).
Proof.
  unfold fn_get_question_answers_statistics.
  eapply Permutation_NoDup;
    [apply Permutation_map, order_by_perm|].
  rewrite map_map. simpl. rewrite map_id. apply NoDup_nodup.
Qed.

(** X24. The bar chart of [generate_question_statistics_graph] ranks by
    correct_answers, not by total_answered: its bars are top_n lines
    of [fn_get_question_answers_statistics] (all of them when there
    are fewer), one per question, in descending order of
    correct_answers, and no line left out has more correct answers
    than a line shown. *)
Theorem bar_chart_ranks_by_correct_answers :
  forall db top_n,
    StronglySorted
      (fun a b => QuestionStats.correct_answers b <= QuestionStats.correct_answers a)
      (generate_question_statistics_graph top_n db)
    /\ count (generate_question_statistics_graph top_n db)
       = Z.min (Z.of_nat top_n) (count (fn_get_question_answers_statistics db))
    /\ NoDup (map QuestionStats.question_id (generate_question_statistics_graph top_n db))
    /\ (forall line, In line (generate_question_statistics_graph top_n db) ->
          In line (fn_get_question_answers_statistics db))
    /\ (forall line line',
          In line (generate_question_statistics_graph top_n db) ->
          In line' (fn_get_question_answers_statistics db) ->
          ~ In line' (generate_question_statistics_graph top_n db) ->
          QuestionStats.correct_answers line' <= QuestionStats.correct_answers line).
Proof.
  intros db top_n. unfold generate_question_statistics_graph.
  set (table := fn_get_question_answers_statistics db).
  set (sorted := order_by (desc QuestionStats.correct_answers) table).
  assert (Hsorted : StronglySorted
                      (fun a b => QuestionStats.correct_answers b
                                  <= QuestionStats.correct_answers a) sorted)
    by apply order_by_desc_sorted.
  rewrite <- (firstn_skipn top_n sorted) in Hsorted.
  destruct (StronglySorted_app _ _ _ Hsorted) as [Hfirst Hcross].
  split; [exact Hfirst|]. split; [|split; [|split]].
  - unfold count. rewrite length_firstn. unfold sorted.
    rewrite <- (Permutation_length (order_by_perm _ table)). lia.
  - rewrite <- firstn_map. apply NoDup_firstn.
    eapply Permutation_NoDup; [apply Permutation_map, order_by_perm|].
    apply NoDup_question_statistics.
  - intros line Hin. apply In_firstn in Hin. apply In_order_by in Hin. exact Hin.
  - intros line line' Hin Hin' Hout. apply Hcross; [exact Hin|].
    apply (In_order_by (desc QuestionStats.correct_answers)) in Hin'. fold sorted in Hin'.
    rewrite <- (firstn_skipn top_n sorted) in Hin'. apply in_app_or in Hin'.
    destruct Hin' as [H | H]; [contradiction | exact H].
Qed.

Lemma count_nonzero_In {A : Type} (l : list A) : count l <> 0 <-> exists x, In x l.
Proof.
  unfold count. destruct l as [|x l]; simpl; split.
  - intros H. exfalso. apply H. reflexivity.
  - intros (x & []).
  - intros _. exists x. auto.
  - intros _. lia.
Qed.

(** X25. The pie charts need two slices.  That of
    [generate_player_correct_incorrect_pie_chart] is drawn exactly when
    the player has both a correct and an incorrect answer: a player
    whose answers are all correct gets "No data found".  That of
    [generate_player_answered_vs_not_answered_pie_chart], in a state
    the engine reaches and with distinct question ids, is drawn
    exactly when the player has answered a question and has not
    answered another: a player who has answered every question gets
    no chart.  The slices of a chart are positive. *)
Theorem pie_charts_need_two_slices :
  forall c p,
    engine_reachable c ->
    NoDup (map Question.question_id (questions (working c))) ->
    (generate_player_correct_incorrect_pie_chart p (working c) <> None
     <-> (exists pa, In pa (player_answers (working c))
                     /\ PlayerAnswer.player_id pa = p /\ PlayerAnswer.is_correct pa = true)
         /\ (exists pa, In pa (player_answers (working c))
                        /\ PlayerAnswer.player_id pa = p
                        /\ PlayerAnswer.is_correct pa = false))
    /\ (generate_player_answered_vs_not_answered_pie_chart p (working c) <> None
        <-> (exists pa, In pa (player_answers (working c)) /\ PlayerAnswer.player_id pa = p)
            /\ (exists q, In q (questions (working c))
                          /\ forall pa, In pa (player_answers (working c)) ->
                               PlayerAnswer.player_id pa = p ->
                               PlayerAnswer.question_id pa <> Question.question_id q))
    /\ (forall a b,
          generate_player_correct_incorrect_pie_chart p (working c) = Some (a, b)
          \/ generate_player_answered_vs_not_answered_pie_chart p (working c) = Some (a, b) ->
          0 < a /\ 0 < b).
Proof.
  intros c p Hr Hpk. destruct (engine_reachable_references c Hr) as [_ [_ Hrefs]].
  set (db := working c) in *.
  assert (Hpie : forall row, pie_chart_sizes row <> None <-> fst row <> 0 /\ snd row <> 0).
  { intros [a b]. unfold pie_chart_sizes. simpl.
    destruct (a =? 0) eqn:Ea, (b =? 0) eqn:Eb; simpl;
      rewrite ?Z.eqb_eq, ?Z.eqb_neq in *; split; try tauto; try discriminate;
      intros [? ?]; contradiction. }
  assert (Hpos : forall (q : PlayerAnswer.row -> bool),
             count (filter q (player_answers db)) <> 0
             <-> exists pa, In pa (player_answers db) /\ q pa = true).
  { intros q. rewrite <- count_pos_iff. unfold count. lia. }
  set (mine := filter (fun pa => PlayerAnswer.player_id pa =? p) (player_answers db)).
  set (ids := nodup Z.eq_dec (map PlayerAnswer.question_id mine)).
  assert (Hids : forall x, In x ids <->
                   exists pa, In pa (player_answers db) /\ PlayerAnswer.player_id pa = p
                              /\ PlayerAnswer.question_id pa = x).
  { intros x. unfold ids, mine. rewrite nodup_In, in_map_iff. split.
    - intros (pa & Hq & Hin). apply filter_In in Hin. destruct Hin as [Hin Hp].
      apply Z.eqb_eq in Hp. eauto.
    - intros (pa & Hin & Hp & Hq). exists pa. split; [exact Hq|].
      apply filter_In. split; [exact Hin | apply Z.eqb_eq; exact Hp]. }
  assert (Hincl : incl ids (map Question.question_id (questions db))).
  { intros x Hx. apply Hids in Hx. destruct Hx as (pa & Hin & _ & <-).
    destruct (Hrefs pa Hin) as (r & Hr' & <-). apply in_map, Hr'. }
  assert (Hle : count ids <= count (questions db)).
  { unfold count. apply inj_le. rewrite <- (length_map Question.question_id).
    apply NoDup_incl_length; [apply NoDup_nodup | exact Hincl]. }
  assert (Hanswered : count ids <> 0 <->
                      exists pa, In pa (player_answers db) /\ PlayerAnswer.player_id pa = p).
  { rewrite count_nonzero_In. split.
    - intros (x & Hx). apply Hids in Hx. destruct Hx as (pa & Hin & Hp & _). eauto.
    - intros (pa & Hin & Hp). exists (PlayerAnswer.question_id pa). apply Hids. eauto. }
  assert (Hopen : count (questions db) - count ids <> 0 <->
                  exists q, In q (questions db)
                            /\ forall pa, In pa (player_answers db) ->
                                 PlayerAnswer.player_id pa = p ->
                                 PlayerAnswer.question_id pa <> Question.question_id q).
  { split.
    - intros H.
      destruct (existsb (fun q => negb (existsb (Z.eqb (Question.question_id q)) ids))
                  (questions db)) eqn:E.
      + apply existsb_exists in E. destruct E as (q & Hq & Hn). exists q.
        split; [exact Hq|]. intros pa Hin Hp Heq. apply negb_true_iff in Hn.
        assert (Hx : In (Question.question_id q) ids) by (apply Hids; eauto).
        assert (Ht : existsb (Z.eqb (Question.question_id q)) ids = true)
          by (apply existsb_exists; exists (Question.question_id q);
              split; [exact Hx | apply Z.eqb_refl]).
        congruence.
      + exfalso. apply H.
        assert (Hall : incl (map Question.question_id (questions db)) ids).
        { intros x Hx. apply in_map_iff in Hx. destruct Hx as (q & <- & Hq).
          destruct (existsb (Z.eqb (Question.question_id q)) ids) eqn:Eq.
          - apply existsb_exists in Eq. destruct Eq as (y & Hy & Hxy).
            apply Z.eqb_eq in Hxy. rewrite Hxy. exact Hy.
          - exfalso. assert (Ht : existsb (fun q => negb (existsb (Z.eqb
                                     (Question.question_id q)) ids)) (questions db) = true)
              by (apply existsb_exists; exists q; split; [exact Hq | rewrite Eq; reflexivity]).
            congruence. }
        pose proof (NoDup_incl_length Hpk Hall) as Hlen.
        rewrite length_map in Hlen. unfold count in *. lia.
    - intros (q & Hq & Hnone) H.
      assert (Hall : incl (map Question.question_id (questions db)) ids).
      { apply (NoDup_length_incl (NoDup_nodup Z.eq_dec _)); [|exact Hincl].
        rewrite length_map. unfold count in *. fold ids. lia. }
      assert (Hx : In (Question.question_id q) ids) by (apply Hall, in_map, Hq).
      apply Hids in Hx. destruct Hx as (pa & Hin & Hp & Heq).
      apply (Hnone pa Hin Hp Heq). }
  split; [|split].
  - unfold generate_player_correct_incorrect_pie_chart,
      fn_get_player_correct_incorrect_answers. rewrite Hpie. cbn [fst snd].
    rewrite !Hpos. split.
    + intros [(pa & Hin & H1) (pa' & Hin' & H2)].
      apply andb_true_iff in H1, H2. destruct H1 as [Hp Hc], H2 as [Hp' Hc'].
      apply Z.eqb_eq in Hp, Hp'. apply negb_true_iff in Hc'. eauto 10.
    + intros [(pa & Hin & Hp & Hc) (pa' & Hin' & Hp' & Hc')]. split.
      * exists pa. split; [exact Hin|]. rewrite Hc, andb_true_r. apply Z.eqb_eq, Hp.
      * exists pa'. split; [exact Hin'|]. rewrite Hc'. simpl. rewrite andb_true_r.
        apply Z.eqb_eq, Hp'.
  - unfold generate_player_answered_vs_not_answered_pie_chart,
      fn_get_player_answered_vs_not_answered. rewrite Hpie. cbn [fst snd].
    fold mine. fold ids. rewrite Hanswered, Hopen. reflexivity.
  - intros a b H.
    assert (Hsome : forall row, pie_chart_sizes row = Some (a, b) ->
                      row = (a, b) /\ a <> 0 /\ b <> 0).
    { intros [a' b']. unfold pie_chart_sizes. simpl.
      destruct (a' =? 0) eqn:Ea, (b' =? 0) eqn:Eb; simpl; try discriminate.
      intros [= <- <-]. apply Z.eqb_neq in Ea, Eb. auto. }
    destruct H as [H | H]; apply Hsome in H; destruct H as (E & Ha & Hb).
    + unfold fn_get_player_correct_incorrect_answers in E. injection E as <- <-.
      unfold count in *. lia.
    + unfold fn_get_player_answered_vs_not_answered in E. injection E as <- <-.
      fold mine in Ha, Hb |- *. fold ids in Ha, Hb |- *. unfold count in *. lia.
Qed.

Lemma pie_charts_need_two_slices_witness :
  engine_reachable two_quizzes
  /\ NoDup (map Question.question_id (questions (working two_quizzes)))
  /\ generate_player_correct_incorrect_pie_chart 1 (working two_quizzes) = Some (10, 10)
  /\ generate_player_answered_vs_not_answered_pie_chart 1 (working two_quizzes)
     = Some (20, 2)
  /\ 0 < 10 /\ 0 < 10.
Proof.
  assert (Hr : engine_reachable two_quizzes).
  { exists sample_database, two_quizzes_ops. split; [repeat split | reflexivity]. }
  assert (Hpk : NoDup (map Question.question_id (questions (working two_quizzes)))).
  { vm_compute. repeat constructor; simpl; intuition discriminate. }
  assert (H1 : generate_player_correct_incorrect_pie_chart 1 (working two_quizzes)
               = Some (10, 10)) by (vm_compute; reflexivity).
  assert (H2 : generate_player_answered_vs_not_answered_pie_chart 1 (working two_quizzes)
               = Some (20, 2)) by (vm_compute; reflexivity).
  split; [exact Hr|]. split; [exact Hpk|]. split; [exact H1|]. split; [exact H2|].
  exact (proj2 (proj2 (pie_charts_need_two_slices two_quizzes 1 Hr Hpk)) 10 10
           (or_introl H1)).
Defined.

(** ** The count that guards the high scores *)

Lemma run_ops_players : forall ops c,
  engine_reachable c -> players (working (run_ops ops c)) = players (working c).
Proof.
  induction ops as [|op ops IH]; intros c Hr; [reflexivity|].
  simpl. rewrite (IH _ (engine_reachable_step c op Hr)).
  destruct (engine_reachable_pending c Hr) as (_ & Hp & _).
  destruct (op_effect_frame op (working c)) as (_ & Hp' & _).
  rewrite run_op_cases. destruct (op_raises op (working c)); [simpl; auto|].
  destruct (is_procedure op); exact Hp'.
Qed.

(** [ORDER BY end_time DESC LIMIT 1] prefers a NULL end_time. *)
Lemma first_greatest_null_end_time (l : list GameSession.row) :
  (exists x, In x l /\ GameSession.end_time x = None) ->
  exists y, first_greatest end_time_ltb l = Some y /\ GameSession.end_time y = None.
Proof.
  induction l as [|x l IH]; intros (z & Hin & Hz); [contradiction|].
  simpl. destruct (first_greatest end_time_ltb l) as [y|] eqn:E.
  - unfold end_time_ltb. destruct (GameSession.end_time x) as [a|] eqn:Ex.
    + destruct Hin as [-> | Hin]; [congruence|].
      destruct IH as (y' & [= <-] & Hy); [eauto|]. rewrite Hy. eauto.
    + eauto.
  - destruct Hin as [-> | Hin]; [eauto|].
    destruct l; [contradiction | simpl in E].
    destruct (first_greatest end_time_ltb l); [destruct (end_time_ltb _ _)|]; discriminate.
Qed.

Lemma finalize_game_count c u n db :
  fn_get_correct_answer_count u (working (run_op c (completing_session u))) = (inr n, db) ->
  finalize_game c u
  = if 0 <? n then run_op (run_op c (completing_session u)) (update_high_scores u)
    else run_op c (completing_session u).
Proof.
  intros Hn. unfold finalize_game.
  assert (E1 : execute_pg_procedure c "sp_completing_session" (sp_completing_session u)
               = (inr None, run_op c (completing_session u))).
  { unfold run_op, execute_pg_procedure. simpl String.prefix. cbv iota.
    pose proof (sp_completing_session_unfold u (working c)) as E.
    destruct (sp_completing_session u (working c)) as [[e|r] db0];
      [discriminate E | reflexivity]. }
  rewrite E1. clear E1. remember (run_op c (completing_session u)) as c1 eqn:E.
  assert (E2 : execute_pg_procedure c1 "fn_get_correct_answer_count"
                 (fn_get_correct_answer_count u) = (inr (Some n), c1)).
  { unfold execute_pg_procedure. simpl String.prefix. cbv iota. rewrite Hn.
    f_equal. revert Hn. unfold fn_get_correct_answer_count, bind, get, ret.
    intros [= _ <-]. destruct c1; reflexivity. }
  rewrite E2. reflexivity.
Qed.

(** The count is 0 as long as a completed session of the player has no
    end time. *)
Lemma correct_answer_count_blocked c u p gs :
  engine_reachable c ->
  select_player_id (working c) u = Some p ->
  In gs (game_sessions (working c)) ->
  GameSession.player_id gs = Some p ->
  GameSession.is_completed gs = true ->
  GameSession.end_time gs = None ->
  fn_get_correct_answer_count u (working c) = (inr 0, working c).
Proof.
  intros Hr Hp Hin Hpl Hc He.
  destruct (engine_reachable_completed_have_end_time c Hr) as [_ Hend].
  unfold fn_get_correct_answer_count, bind, get, ret. rewrite Hp. f_equal. f_equal.
  destruct (first_greatest_null_end_time
              (filter (is_completed_session_of (Some p)) (game_sessions (working c))))
    as (y & Ey & Hy).
  { exists gs. split; [|exact He]. apply filter_In. split; [exact Hin|].
    unfold is_completed_session_of. rewrite Hpl, Hc. simpl. rewrite Z.eqb_refl.
    reflexivity. }
  rewrite Ey. simpl option_map.
  pose proof (first_greatest_In _ _ _ Ey) as Hy'. apply filter_In in Hy'.
  destruct Hy' as [Hy' Hcy]. apply andb_true_iff in Hcy. destruct Hcy as [_ Hcy].
  assert (Hnone : session_answers (working c) (GameSession.session_id y) = []).
  { destruct (session_answers (working c) (GameSession.session_id y)) eqn:E; [reflexivity|].
    exfalso. apply (Hend y Hy' Hcy); [rewrite E; discriminate | exact Hy]. }
  unfold count.
  replace (filter _ (player_answers (working c))) with (@nil PlayerAnswer.row);
    [reflexivity|].
  symmetry. apply existsb_false_filter, not_true_is_false. intros E.
  apply existsb_exists in E. destruct E as (pa & Hpa & Hk).
  apply andb_true_iff in Hk. destruct Hk as [Hk _]. rewrite answer_of_Some in Hk.
  apply andb_true_iff in Hk. destruct Hk as [_ Hk].
  assert (H : In pa (session_answers (working c) (GameSession.session_id y)))
    by (apply filter_In; auto).
  rewrite Hnone in H. contradiction.
Qed.

(** X26. A game completed without an answer blocks the player's high
    scores for good.  Such a session has a NULL end_time, which
    [ORDER BY end_time DESC] puts first: in every state the engine
    reaches from there, whatever games the player completes,
    [fn_get_correct_answer_count] returns 0, so [finalize_game] stops
    after completing the session and never calls
    [sp_update_high_scores]. *)
Theorem empty_game_blocks_high_scores :
  forall c u p gs ops,
    engine_reachable c ->
    select_player_id (working c) u = Some p ->
    In gs (game_sessions (working c)) ->
    GameSession.player_id gs = Some p ->
    GameSession.is_completed gs = true ->
    GameSession.end_time gs = None ->
    fn_get_correct_answer_count u (working (run_ops ops c))
    = (inr 0, working (run_ops ops c))
    /\ finalize_game (run_ops ops c) u = run_op (run_ops ops c) (completing_session u)
    /\ high_scores (working (finalize_game (run_ops ops c) u))
       = high_scores (working (run_ops ops c)).
Proof.
  intros c u p gs ops Hr Hp Hin Hpl Hc He.
  assert (Hblocked : forall ops',
            fn_get_correct_answer_count u (working (run_ops ops' c))
            = (inr 0, working (run_ops ops' c))).
  { intros ops'.
    destruct (run_ops_completed gs ops' c Hr Hin (or_introl Hc)) as [Hin' _].
    apply (correct_answer_count_blocked _ u p gs); try assumption.
    - apply engine_reachable_run_ops, Hr.
    - unfold select_player_id in *. rewrite (run_ops_players ops' c Hr). exact Hp. }
  split; [apply Hblocked|].
  assert (E : finalize_game (run_ops ops c) u = run_op (run_ops ops c) (completing_session u)).
  { specialize (Hblocked (ops ++ [completing_session u])).
    rewrite run_ops_app in Hblocked. apply (finalize_game_count _ _ 0 _ Hblocked). }
  split; [exact E|]. rewrite E, run_op_cases. unfold op_raises, op_effect, is_procedure.
  rewrite sp_completing_session_unfold. reflexivity.
Qed.

Lemma empty_game_blocks_high_scores_witness :
  engine_reachable empty_game
  /\ high_scores
       (working (finalize_game (run_ops (game "alice" 100 20) empty_game) "alice")) = [].
Proof.
  assert (Hr : engine_reachable empty_game).
  { exists sample_database, empty_game_ops. split; [repeat split | reflexivity]. }
  assert (Hp : select_player_id (working empty_game) "alice" = Some 1)
    by (vm_compute; reflexivity).
  assert (Hin : In (GameSession.mk 1 (Some 1) 50 None 0 true false)
                  (game_sessions (working empty_game)))
    by (vm_compute; left; reflexivity).
  split; [exact Hr|].
  rewrite (proj2 (proj2 (empty_game_blocks_high_scores empty_game "alice" 1 _
                           (game "alice" 100 20) Hr Hp Hin eq_refl eq_refl eq_refl))).
  vm_compute. reflexivity.
Defined.

(** ** The games behind the high scores *)

Lemma update_or_insert_high_score_rows score v t e db r :
  In r (high_scores (snd (update_or_insert_high_score score v (Some t) (Some e) db))) ->
  In r (high_scores db) \/ r = HighScore.mk score v t e.
Proof.
  unfold update_or_insert_high_score, bind, get.
  destruct (existsb (fun r => HighScore.score_id r =? score) (high_scores db)).
  - unfold update_high_score.
    destruct (existsb (is_slower_slot score (Some t)) (high_scores db)); [|auto].
    simpl. intros Hin. apply In_update_where in Hin. destruct Hin as (r0 & Hr0 & ->).
    destruct (is_slower_slot score (Some t) r0) eqn:E; [|auto].
    right. unfold is_slower_slot in E. apply andb_true_iff in E. destruct E as [E _].
    apply Z.eqb_eq in E. unfold set_holder. rewrite E. reflexivity.
  - unfold insert_high_score. destruct (negb _); [auto|].
    destruct (existsb _ _); [auto|]. simpl. intros Hin. apply in_app_or in Hin.
    destruct Hin as [Hin | [<- | []]]; auto.
Qed.

(** The answer rows of a session are its player's. *)
Lemma session_owned db gs p :
  engine_invariant db -> In gs (game_sessions db) -> GameSession.player_id gs = Some p ->
  session_answers_owned db p (GameSession.session_id gs).
Proof.
  intros I Hin Hp pa Hpa Hid.
  destruct (inv_answer_session _ I pa Hpa) as (gs' & Hin' & Hid' & Hp').
  assert (gs' = gs)
    by (apply (NoDup_map_eq GameSession.session_id (game_sessions db));
        [apply (inv_session_pk _ I) | | | ]; congruence).
  subst gs'. congruence.
Qed.

Lemma score_backed_ext db db' r :
  game_sessions db' = game_sessions db -> player_answers db' = player_answers db ->
  score_backed db r -> score_backed db' r.
Proof.
  intros Hs Ha (gs & p & H). exists gs, p. unfold session_answers in *.
  rewrite Hs, Ha. exact H.
Qed.

(** The row [sp_update_high_scores] writes is backed by the session it
    scores. *)
Lemma scored_row_backed c u :
  engine_reachable c ->
  0 < scored_correct (working c) u ->
  count (scored_answers (working c) u) = 20 ->
  exists t e,
    scored_total_time (working c) u = Some t
    /\ match scored_session (working c) u with
       | Some gs => GameSession.end_time gs
       | None => None
       end = Some e
    /\ score_backed (working c)
         (HighScore.mk (scored_correct (working c) u) (select_player_id (working c) u) t e).
Proof.
  intros Hr Hpos H20. destruct (engine_reachable_invariant c Hr) as (_ & I & _).
  destruct (scored_session_times c u Hr H20) as (gs & e & Egs & Ee & Et).
  exists (e - GameSession.start_time gs), e. rewrite Egs.
  split; [exact Et|]. split; [exact Ee|].
  pose proof (first_greatest_In _ _ _ Egs) as Hgs. apply filter_In in Hgs.
  destruct Hgs as [Hgs Hcompl]. unfold is_completed_session_of in Hcompl.
  apply andb_true_iff in Hcompl. destruct Hcompl as [Hpl Hcompl].
  unfold sql_eq in Hpl. destruct (GameSession.player_id gs) as [p|] eqn:Ep; [|discriminate].
  destruct (select_player_id (working c) u) as [p'|] eqn:Ep'; [|discriminate].
  apply Z.eqb_eq in Hpl. subst p'.
  pose proof (session_owned _ gs p I Hgs Ep) as Hown.
  exists gs, p. simpl. repeat split; try assumption.
  - rewrite <- H20. unfold scored_answers. rewrite Ep', Egs. simpl option_map.
    rewrite (answer_of_owned _ p _ Hown). reflexivity.
  - unfold scored_correct. rewrite Ep', Egs. simpl option_map.
    rewrite <- filter_filter_andb, (answer_of_owned _ p _ Hown). reflexivity.
Qed.

Lemma op_effect_backed c op :
  engine_reachable c -> high_scores_backed (working c) ->
  high_scores_backed (op_effect op (working c)).
Proof.
  intros Hr H. destruct (engine_reachable_invariant c Hr) as (_ & I & _).
  assert (Hkeep : high_scores (op_effect op (working c)) = high_scores (working c) ->
                  high_scores_backed (op_effect op (working c))).
  { intros Hh r Hin. rewrite Hh in Hin.
    destruct (H r Hin) as (gs & p & Hgs & Hp & Hpl & Hc & He & Ht & H20 & Hk).
    destruct (op_effect_completed (working c) op gs I Hgs (or_introl Hc)) as [Hgs' Ha'].
    exists gs, p. rewrite Ha'. repeat split; assumption. }
  destruct (op_effect_frame op (working c)) as (_ & _ & Hh).
  destruct op as [u now order | u q a now | u | u | u | u];
    try (apply Hkeep, Hh; intros u'; discriminate).
  clear Hkeep Hh. unfold op_effect.
  destruct (sp_update_high_scores_frame u (working c)) as (_ & _ & Fs & Fa & _).
  intros r Hin. apply (score_backed_ext (working c)); [exact Fs | exact Fa|].
  revert Hin. rewrite sp_update_high_scores_unfold.
  destruct (_ && _) eqn:G; [|apply H].
  apply andb_true_iff in G. destruct G as [G1 G2].
  apply Z.ltb_lt in G1. apply Z.eqb_eq in G2.
  destruct (scored_row_backed c u Hr G1 G2) as (t & e & -> & -> & Hnew).
  intros Hin. apply update_or_insert_high_score_rows in Hin.
  destruct Hin as [Hin | ->]; [apply H, Hin | exact Hnew].
Qed.

Lemma engine_reachable_backed c :
  engine_reachable c -> high_scores_backed (committed c) /\ high_scores_backed (working c).
Proof.
  apply (engine_reachable_induction
           (fun c => high_scores_backed (committed c) /\ high_scores_backed (working c))).
  - intros db0 (_ & _ & Hh). unfold high_scores_backed. simpl. rewrite Hh.
    split; intros r [].
  - intros c0 op Hr [Hc Hw]. rewrite run_op_cases.
    pose proof (op_effect_backed c0 op Hr Hw) as He.
    destruct (op_raises op (working c0)).
    + unfold rollback. simpl.
      assert (Hb : high_scores_backed
                     (set_session_id_seq (session_id_seq (op_effect op (working c0)))
                        (committed c0))).
      { intros r Hin. apply (score_backed_ext (committed c0)); [reflexivity..|].
        apply Hc, Hin. }
      split; exact Hb.
    + destruct (is_procedure op); split; assumption.
Qed.

(** X27. The high scores are backed by games.  In every state the
    engine reaches, each row of [high_scores] has a holder, and that
    player has a completed session with exactly 20 answer rows, as many
    of them correct as the row's score, which ended at the row's
    achieved_at and lasted its total_time; the score is between 1 and
    20. *)
Theorem high_scores_are_backed :
  forall c r,
    engine_reachable c ->
    In r (high_scores (working c)) ->
    1 <= HighScore.score_id r <= 20
    /\ exists gs p,
         In gs (game_sessions (working c))
         /\ HighScore.player_id r = Some p
         /\ GameSession.player_id gs = Some p
         /\ GameSession.is_completed gs = true
         /\ GameSession.end_time gs = Some (HighScore.achieved_at r)
         /\ HighScore.total_time r = HighScore.achieved_at r - GameSession.start_time gs
         /\ count (session_answers (working c) (GameSession.session_id gs)) = 20
         /\ count (filter PlayerAnswer.is_correct
                     (session_answers (working c) (GameSession.session_id gs)))
            = HighScore.score_id r.
Proof.
  intros c r Hr Hin.
  destruct (engine_reachable_backed c Hr) as [_ Hb].
  destruct (engine_reachable_high_scores_valid c Hr) as [_ [_ Hck]].
  split; [apply Hck, Hin | apply Hb, Hin].
Qed.

Lemma high_scores_are_backed_witness :
  engine_reachable two_quizzes
  /\ In (HighScore.mk 10 (Some 1) 20000000 20000100) (high_scores (working two_quizzes))
  /\ 1 <= 10 <= 20.
Proof.
  assert (Hr : engine_reachable two_quizzes).
  { exists sample_database, two_quizzes_ops. split; [repeat split | reflexivity]. }
  assert (Hin : In (HighScore.mk 10 (Some 1) 20000000 20000100)
                  (high_scores (working two_quizzes)))
    by (vm_compute; left; reflexivity).
  split; [exact Hr|]. split; [exact Hin|].
  exact (proj1 (high_scores_are_backed two_quizzes _ Hr Hin)).
Defined.

(** ** Loading the questions *)

Lemma execute_insert_question c q a :
  committed c = working c ->
  has_nul a = false ->
  (execute_pg_statement c (insert_question q a) = (None, c)
   /\ (forall l, store_char_1 a = Some l -> is_abcd l = true -> is_integer q = true ->
         In q (map Question.question_id (questions (working c)))))
  \/ (exists l,
        store_char_1 a = Some l /\ is_abcd l = true /\ is_integer q = true
        /\ ~ In q (map Question.question_id (questions (working c)))
        /\ execute_pg_statement c (insert_question q a)
           = (None, connect (set_questions (questions (working c) ++ [Question.mk q l])
                               (working c)))).
Proof.
  destruct c as [cm wk]. cbn [committed working]. intros -> Hnul.
  assert (Hback : rollback (mk_connection wk wk) wk = mk_connection wk wk)
    by (unfold rollback; cbn [committed]; rewrite set_session_id_seq_same; reflexivity).
  unfold execute_pg_statement, insert_question. cbn [working]. rewrite Hnul.
  destruct (store_char_1 a) as [l|] eqn:El;
    [|left; split; [rewrite Hback; reflexivity | discriminate]].
  destruct (is_integer q) eqn:Eq; cbn [negb];
    [|left; split; [rewrite Hback; reflexivity | intros; discriminate]].
  destruct (is_abcd l) eqn:Ea; cbn [negb];
    [|left; split; [rewrite Hback; reflexivity | intros l' [= <-]; congruence]].
  destruct (existsb _ _) eqn:Ex.
  - left. split; [rewrite Hback; reflexivity|]. intros _ _ _ _.
    apply existsb_exists in Ex. destruct Ex as (r & Hr & E). apply Z.eqb_eq in E.
    rewrite <- E. apply in_map, Hr.
  - right. exists l. repeat split; try reflexivity; try assumption.
    intros Hin. apply in_map_iff in Hin. destruct Hin as (r & E & Hr).
    assert (existsb (fun q0 => Question.question_id q0 =? q) (questions wk) = true);
      [|congruence].
    apply existsb_exists. exists r. split; [exact Hr | apply Z.eqb_eq, E].
Qed.

(** A letter that cannot be adapted: the exception passes through
    [execute_pg_statement] and the connection is as it was. *)
Lemma execute_insert_question_nul c q a :
  has_nul a = true ->
  execute_pg_statement c (insert_question q a) = (Some ValueError, c).
Proof.
  intros Hnul. unfold execute_pg_statement, insert_question. rewrite Hnul. reflexivity.
Qed.

Lemma insert_questions_cons d rest c :
  insert_questions (d :: rest) c
  = match doc_question_id d, doc_correct_answer d with
    | Some q, Some a =>
        match execute_pg_statement c (insert_question q a) with
        | (None, c') => insert_questions rest c'
        | (Some _, c') => c'
        end
    | _, _ => c
    end.
Proof. reflexivity. Qed.

(** What the loop leaves, from a connection with nothing pending. *)
Lemma insert_questions_loaded docs :
  forall c,
    committed c = working c ->
    committed (insert_questions docs c) = working (insert_questions docs c)
    /\ players (working (insert_questions docs c)) = players (working c)
    /\ game_sessions (working (insert_questions docs c)) = game_sessions (working c)
    /\ player_answers (working (insert_questions docs c)) = player_answers (working c)
    /\ high_scores (working (insert_questions docs c)) = high_scores (working c)
    /\ session_id_seq (working (insert_questions docs c)) = session_id_seq (working c)
    /\ (forall q a l, In (q, a) (read_documents docs) -> store_char_1 a = Some l ->
          is_abcd l = true -> is_integer q = true ->
          In q (map Question.question_id (questions (working (insert_questions docs c)))))
    /\ exists new,
         questions (working (insert_questions docs c)) = questions (working c) ++ new
         /\ NoDup (map Question.question_id new)
         /\ forall r, In r new ->
              ~ In (Question.question_id r) (map Question.question_id (questions (working c)))
              /\ is_abcd (Question.correct_answer r) = true
              /\ is_integer (Question.question_id r) = true
              /\ exists a, In (Question.question_id r, a) (read_documents docs)
                           /\ store_char_1 a = Some (Question.correct_answer r).
Proof.
  induction docs as [|d rest IH]; intros c Hc.
  - cbn [insert_questions read_documents]. repeat split; try assumption.
    + intros q a l [].
    + exists []. rewrite app_nil_r.
      split; [reflexivity|]. split; [constructor | intros r []].
  - rewrite insert_questions_cons. cbn [read_documents].
    assert (Hstop :
      committed c = working c
      /\ players (working c) = players (working c)
      /\ game_sessions (working c) = game_sessions (working c)
      /\ player_answers (working c) = player_answers (working c)
      /\ high_scores (working c) = high_scores (working c)
      /\ session_id_seq (working c) = session_id_seq (working c)
      /\ (forall (q : Z) (a : string) (l : ascii), In (q, a) [] -> store_char_1 a = Some l ->
            is_abcd l = true -> is_integer q = true ->
            In q (map Question.question_id (questions (working c))))
      /\ exists new,
           questions (working c) = questions (working c) ++ new
           /\ NoDup (map Question.question_id new)
           /\ forall r, In r new ->
                ~ In (Question.question_id r)
                    (map Question.question_id (questions (working c)))
                /\ is_abcd (Question.correct_answer r) = true
                /\ is_integer (Question.question_id r) = true
                /\ exists a, In (Question.question_id r, a) []
                             /\ store_char_1 a = Some (Question.correct_answer r)).
    { repeat split; try assumption; [intros q' a' l' [] |].
      exists []. rewrite app_nil_r.
      split; [reflexivity|]. split; [constructor | intros r []]. }
    destruct (doc_question_id d) as [q|]; [destruct (doc_correct_answer d) as [a|]|];
      try exact Hstop.
    destruct (has_nul a) eqn:Hnul;
      [rewrite (execute_insert_question_nul c q a Hnul); exact Hstop|].
    clear Hstop.
    destruct (execute_insert_question c q a Hc Hnul)
      as [[-> Hin] | (l & El & Ea & Eq & Hnew & ->)].
    + destruct (IH c Hc) as (S & P & G & A & H & Q & Hall & new & En & Hnd & Hrows).
      repeat split; try assumption.
      * intros q' a' l' [[= <- <-] | Hin'] El' Ea' Eq'.
        -- rewrite En. rewrite map_app. apply in_or_app. left. apply (Hin l'); assumption.
        -- apply (Hall q' a' l'); assumption.
      * exists new. repeat split; try assumption; try apply Hrows; try assumption.
        destruct (Hrows r H0) as (_ & _ & _ & a' & Ha' & Es). exists a'. split; [right|]; assumption.
    + remember (connect (set_questions (questions (working c) ++ [Question.mk q l])
                           (working c))) as c1 eqn:Ec1.
      assert (Hc1 : committed c1 = working c1) by (subst c1; reflexivity).
      assert (Hq1 : questions (working c1) = questions (working c) ++ [Question.mk q l])
        by (subst c1; reflexivity).
      destruct (IH c1 Hc1) as (S & P & G & A & H & Q & Hall & new & En & Hnd & Hrows).
      split; [exact S|].
      split; [rewrite P; subst c1; reflexivity|].
      split; [rewrite G; subst c1; reflexivity|].
      split; [rewrite A; subst c1; reflexivity|].
      split; [rewrite H; subst c1; reflexivity|].
      split; [rewrite Q; subst c1; reflexivity|].
      split.
      * intros q' a' l' [[= <- <-] | Hin'] El' Ea' Eq'.
        -- rewrite En, Hq1, !map_app. apply in_or_app. left. apply in_or_app. right.
           left. reflexivity.
        -- apply (Hall q' a' l'); assumption.
      * exists (Question.mk q l :: new). rewrite En, Hq1, <- app_assoc.
        split; [reflexivity|]. split.
        -- cbn [map Question.question_id]. constructor; [|exact Hnd].
           intros Hin. apply in_map_iff in Hin. destruct Hin as (r & E & Hr).
           destruct (Hrows r Hr) as (Hno & _). apply Hno. rewrite Hq1, map_app.
           apply in_or_app. right. left. symmetry. exact E.
        -- intros r [<- | Hr].
           ++ cbn [Question.question_id Question.correct_answer].
              repeat split; try assumption. exists a. split; [left; reflexivity | exact El].
           ++ destruct (Hrows r Hr) as (Hno & Hl & Hi & a' & Ha' & Es).
              repeat split; try assumption.
              ** intros Hin. apply Hno. rewrite Hq1, map_app. apply in_or_app. left.
                 exact Hin.
              ** exists a'. split; [right|]; assumption.
Qed.

(** Documents whose questions are all in the table change nothing. *)
Lemma insert_questions_again docs :
  forall c,
    committed c = working c ->
    (forall q a l, In (q, a) (read_documents docs) -> store_char_1 a = Some l ->
       is_abcd l = true -> is_integer q = true ->
       In q (map Question.question_id (questions (working c)))) ->
    insert_questions docs c = c.
Proof.
  induction docs as [|d rest IH]; intros c Hc Hall; [reflexivity|].
  rewrite insert_questions_cons. revert Hall. cbn [read_documents].
  destruct (doc_question_id d) as [q|]; [destruct (doc_correct_answer d) as [a|]|];
    try reflexivity.
  destruct (has_nul a) eqn:Hnul;
    [rewrite (execute_insert_question_nul c q a Hnul); reflexivity|].
  intros Hall.
  destruct (execute_insert_question c q a Hc Hnul)
    as [[-> _] | (l & El & Ea & Eq & Hnew & _)].
  - apply IH; [exact Hc|]. intros q' a' l' Hin. apply (Hall q' a' l'). right. exact Hin.
  - exfalso. apply Hnew, (Hall q a l); [left; reflexivity | assumption..].
Qed.

Lemma insert_initial_data_loop docs c :
  insert_initial_data (Some docs) c = insert_questions docs c.
Proof. destruct docs; reflexivity. Qed.

(** The loop does not get past a document that lacks a key or whose
    letter cannot be adapted. *)
Lemma insert_questions_ends before d after :
  ends_loading d = true ->
  forall c, insert_questions (before ++ d :: after) c = insert_questions before c.
Proof.
  intros Hd. induction before as [|d0 before IH]; intros c.
  - cbn [app]. rewrite insert_questions_cons. unfold ends_loading in Hd.
    destruct (doc_question_id d) as [q|]; [destruct (doc_correct_answer d) as [a|]|];
      try reflexivity.
    rewrite (execute_insert_question_nul c q a Hd). reflexivity.
  - cbn [app]. rewrite !insert_questions_cons.
    destruct (doc_question_id d0) as [q|]; [destruct (doc_correct_answer d0) as [a|]|];
      try reflexivity.
    destruct (execute_pg_statement c (insert_question q a)) as [[e|] c']; [reflexivity|].
    apply IH.
Qed.

(** X28. Loading the questions.  The documents hold an integer
    question_id and a string correct_answer, or lack a key.  On a
    connection with nothing pending and a questions table with distinct
    ids and letters a to d (the empty table that create_tables leaves,
    for one), insert_initial_data leaves nothing pending.  It changes
    the questions table only, by adding rows at its end; the table
    keeps distinct ids in the integer range and letters a to d.  An
    INSERT that the server rejects is rolled back and the loop goes on;
    a document that lacks a key, or whose letter holds a NUL character
    (psycopg2 raises ValueError, which execute_pg_statement does not
    catch), ends the loop: the documents after it are not loaded.  Each
    new row is the id and letter of a document before that point, and
    the id of every document before that point that fits the columns
    and the CHECK is in the table afterwards.  Running it again on the
    same documents changes nothing. *)
Theorem initial_data_loads_once :
  forall docs c,
    committed c = working c ->
    questions_valid (working c) ->
    let c' := insert_initial_data (Some docs) c in
    committed c' = working c'
    /\ questions_valid (working c')
    /\ (players (working c'), game_sessions (working c'), player_answers (working c'),
        high_scores (working c'), session_id_seq (working c'))
       = (players (working c), game_sessions (working c), player_answers (working c),
          high_scores (working c), session_id_seq (working c))
    /\ (exists new,
          questions (working c') = questions (working c) ++ new
          /\ forall r, In r new ->
               exists a, In (Question.question_id r, a) (read_documents docs)
                         /\ store_char_1 a = Some (Question.correct_answer r))
    /\ (forall q a l, In (q, a) (read_documents docs) -> store_char_1 a = Some l ->
          is_abcd l = true -> is_integer q = true ->
          In q (map Question.question_id (questions (working c'))))
    /\ (forall before d after, docs = before ++ d :: after -> ends_loading d = true ->
          c' = insert_initial_data (Some before) c)
    /\ insert_initial_data (Some docs) c' = c'.
Proof.
  intros docs c Hc [Hnd Hval] c'. subst c'. rewrite !insert_initial_data_loop.
  destruct (insert_questions_loaded docs c Hc)
    as (S & P & G & A & H & Q & Hall & new & En & Hnew & Hrows).
  split; [exact S|]. split; [|split; [|split; [|split; [|split]]]].
  - split.
    + rewrite En, map_app. apply NoDup_app; [exact Hnd | exact Hnew |].
      intros q Hold Hin. apply in_map_iff in Hin. destruct Hin as (r & <- & Hr).
      destruct (Hrows r Hr) as (Hno & _). exact (Hno Hold).
    + intros r Hr. rewrite En in Hr. apply in_app_or in Hr. destruct Hr as [Hr | Hr].
      * apply Hval, Hr.
      * destruct (Hrows r Hr) as (_ & Hl & Hi & _). split; assumption.
  - rewrite P, G, A, H, Q. reflexivity.
  - exists new. split; [exact En|]. intros r Hr. apply (Hrows r Hr).
  - exact Hall.
  - intros before d after -> Hd. rewrite insert_initial_data_loop.
    apply insert_questions_ends, Hd.
  - apply insert_questions_again; assumption.
Qed.

Lemma initial_data_loads_once_witness :
  let docs := [mk_document (Some 1) (Some "a"%string);
               mk_document (Some 2) (Some "E"%string);
               mk_document (Some 1) (Some "b"%string);
               mk_document (Some 3) (Some "c "%string);
               mk_document (Some 4) (Some (String "d" (String Ascii.zero EmptyString)));
               mk_document (Some 5) (Some "d"%string)] in
  questions (working (insert_initial_data (Some docs) (connect empty_database)))
  = [Question.mk 1 "a"%char; Question.mk 3 "c"%char]
  /\ insert_initial_data (Some docs)
       (insert_initial_data (Some docs) (connect empty_database))
     = insert_initial_data (Some docs) (connect empty_database).
Proof.
  intros docs. split; [reflexivity|].
  assert (Hv : questions_valid (working (connect empty_database)))
    by (split; [constructor | intros q []]).
  exact (proj2 (proj2 (proj2 (proj2 (proj2 (proj2
    (initial_data_loads_once docs (connect empty_database) eq_refl Hv))))))).
Defined.
